(* ===== verification/_CoqProject ===== *)
-Q . S2P
Prelude.v
Api.v
Config.v
Client.v
Scenarios.v
Resolver.v
Builders.v
Reconcile.v
Watch.v
Certificates.v
Convergence.v
Faults.v
Footprint.v
Manager.v
Freshness.v
Drain.v
Status.v
Bounds.v
Commute.v
Interleave.v
