(* ===== verification/Prelude.v ===== *)
(** * A verification development of the standalone pgAdmin controller

    The repository (postgres-operator, sources under [src/]) holds three
    files that this development models:

    - [src/internal/config/config.go]: pure helpers that resolve container
      images from a cluster specification and the process environment
      ([defaultFromEnv], the [*ContainerImage] functions, [VerifyImageValues],
      [RegistrationRequired], [RegistrationRequiredBy], [PGONamespace]);
    - [src/internal/controller/standalone_pgadmin/controller.go]: the
      reconciler of [PGAdmin] objects ([Reconcile] with its deferred status
      patch, [watchPostgresClusters] mapping cluster events to requests,
      [SetupWithManager], [setControllerReference]);
    - [src/internal/pgbackrest/certificates_test.go]: the tests of
      [certFile] and [clientCommonName], whose code is not under [src/].

    How the parts interact.  An external work queue hands a request (a
    namespaced name) to [Reconcile].  [Reconcile] reads the [PGAdmin] through
    the Kubernetes client, applies defaults, runs a fixed pipeline of steps
    (secret, cluster resolution, config map, data volume, stateful set), each
    one only when the previous succeeded, records [observedGeneration] on
    success, and on the way out patches the status when it changed.  Events
    on [PostgresCluster] objects go through the handler of
    [watchPostgresClusters], which lists the [PGAdmin] objects that select the
    cluster and adds a request for each to the queue.  The stateful set step
    uses [StandalonePGAdminContainerImage] of the configuration helpers.

    Files, in dependency order:
    - [Prelude]   (this file): the state/result monad used for client calls,
      its notation in [go_scope], the [pgo] hint database and [pgo_rw]
      rewrite base, the tactic [vm_decide], shared lemmas on lists.
    - [Api]       the Kubernetes and v1beta1 data: object metadata, owner
      references, label selectors, [PostgresCluster], [PGAdmin] and its
      status, API errors ([IsNotFound], [IgnoreNotFound]), [ctrl.Result].
    - [Config]    config.go, Module [config]: the environment as a map and
      every function of the file; Module [config_facts]: when
      [VerifyImageValues] returns nil.
    - [Client]    the [client.Client] interface as the type class [Client]
      (Get, list, server-side apply, status patch), and Module [apiserver]:
      an in-memory API server [ApiServer] that implements it, with a fault
      script (one scripted answer consumed per request) standing for
      conflicts and unavailability, and its well-formedness [wf].
    - [Scenarios] the objects of the scenario of the specification
      ([ns/alpha], clusters [db1] to [db4]) and server states built from them.
    - [Resolver]  the selection predicate shared by the resolver and the
      watch mapper, and [getClustersForPGAdmin].
    - [Builders]  [setControllerReference] (controllerutil semantics,
      [schema.ParseGroupVersion] included) and the four dependent-resource
      steps with their pure builders; the pgAdmin image is resolved at the
      start of the first step, before any dependent is built (spec sect. 6).
    - [Reconcile] Module [standalone_pgadmin]: [Reconcile] with its deferred
      status write, translated line by line, and its reference [pipeline]
      in the monad; theorems proved for every [Client].
    - [Watch]     Module [watch]: [SetupWithManager]'s event routing, the
      handler of [watchPostgresClusters], the work queue's [Add].
    - [Certificates] Module [pgbackrest]: [certFile], [clientCommonName] and
      the two test functions of certificates_test.go.
    - [Convergence] whole passes on [ApiServer]: success, idempotence,
      retries, and the deletion scenario of the specification.
    - [Faults]    Module [faultsim]: transient faults (no NotFound for a
      stored object); every step of the pipeline simulates its run on the
      fault-free server, so a pass that returns nil leaves the objects the
      fault-free pass leaves.
    - [Footprint] Module [footprint]: the frame of a pass on key [k]: it
      applies only the objects named [pgadmin-<name>] of that PGAdmin
      ([dependentKey]) and patches only its status (Section [Frame]).
    - [Manager]   Module [manager]: controller-runtime as a step relation
      ([step] on a [World]: queue and server): an external write
      ([Change], [applyChange]) with the handling of its event by
      [SetupWithManager] ([deliver]), or a worker pass that requeues its
      request after an error ([work]); the state invariant [sane].
    - [Freshness] Module [freshness]: the level-triggered invariant (every
      stored PGAdmin queued or fresh, [levelTriggered]), what preserves it,
      and the run of the scenario; the counterexample of an edited
      dependent.
    - [Drain]     Module [drain]: the worker loop [drain] and its
      termination with an empty queue.
    - [Status]    Module [status]: the merge patch of the deferred status
      write; round trip and concurrent conditions.
    - [Bounds]    Module [bounds]: the number of requests a pass sends,
      counted by the fault script it consumes ([costs]).
    - [Commute]   Module [commute]: writes to different keys commute, and
      so do whole passes on different PGAdmins.
    - [Interleave] Module [interleave]: a pass that is not atomic.  An
      [IWorld] is a [World] with a script of writes of clusters and
      PGAdmins by other actors; its client [IWorld_client] lands the next
      write, with the informer running the handlers of [SetupWithManager]
      ([interfere]), before each call of the pass; [workI] is the worker
      step on it, [istep] the manager's step relation with such passes.

    Groups of theorems.
    - Reconcile against any client: [Reconcile] equals the fail-fast
      pipeline followed by the deferred status write; a failing pass returns
      its first error and patches nothing; a successful pass writes
      [observedGeneration] with one patch, or none when it is already
      current; a failed [Get] ends the pass (NotFound is success); a failed
      status patch after a successful pipeline is logged and NOT returned
      (the results of [Reconcile] are unnamed, so the deferred assignment
      to [err] is lost: a divergence from the specification).
    - Whole passes on the API server ([Convergence]): on a healthy server a
      pass stores the four dependents, owned by the PGAdmin, and sets
      [observedGeneration]; a second pass is a no-op; retried after each
      error, [Reconcile] returns nil within [length faults + 1] passes.  The
      proofs rest on a preservation principle: a server property kept by
      every call is kept by every step, the pipeline and [Reconcile].
    - The watch mapper: a cluster event enqueues exactly the PGAdmins that select the event's object,
      which are exactly those whose resolution contains it; an update is
      mapped with its new object only, so a PGAdmin that selected only the
      old version is not requeued.
    - Faults and footprint: a pass that returns nil on a server with
      transient faults leaves what the fault-free pass leaves; a pass
      touches only the dependents and the status of its own PGAdmin; it
      sends at most [6 + groups] requests.
    - The status write: read back after a pass, the status is exactly
      what the pass computed; a concurrent writer's conditions survive.
    - The manager: along every run whose
      changes the watches cover, every stored PGAdmin is queued or fresh
      ([levelTriggered_reachable], by rule induction over [rtc]); with
      transient faults and resolvable images the worker empties the queue
      within the queue length plus the number of faults, and everything is
      then fresh ([drain_fresh]).  An edit of a dependent breaks the invariant: no
      handler sees it ([dependent_edit_missed]).  Passes on
      different PGAdmins commute, so the order in which the worker takes
      their requests does not matter ([Reconcile_passes_commute]).  The
      invariant also survives a pass whose calls interleave with watched
      writes of clusters and PGAdmins, along every run of [istep], by rule
      induction ([levelTriggered_interleaved]): a
      cluster write before the pass's read of it is seen by the pass; one
      after it that concerns the PGAdmin, and any write of the PGAdmin
      itself, queues it again.  The proof reuses the preservation principle and the
      frame of [Footprint], both stated over any [Client].
    - Configuration, owner references, certificates: [VerifyImageValues]
      is nil exactly when every needed image resolves;
      [setControllerReference] on every branch (a namespaced owner of a
      cluster-scoped or foreign object is refused, an object controlled by
      another is refused, otherwise the owner becomes its controller);
      [TestClientCommonName] passes for every UUID.

    Modelling choices.  Strings are [String.string]; maps are stdpp's [gmap];
    Go's [error] is [option error] with [None] for [nil]; generations and
    resource versions are [Z] (int64 in the code; the modelled code copies
    the generation and the API server bumps a resource version by one, far
    from the int64 bound in any run of the model).  Code not under [src/]
    (the v1beta1 types, the reconcile steps and builders, the resolver,
    [findPGAdminsForPostgresCluster], [certFile], [clientCommonName], the
    scheduler's retry) is modelled from the specification and marked so in
    the manifest.  Logging is a list of emitted messages.  No fuel is needed
    in the reconciler: the pipeline is straight-line code.  The retry loop of
    the external scheduler, [retryReconcile], takes the number of passes as
    fuel; [length faults] is enough because every pass consumes at least one
    scripted answer (its [Get]) until the script is empty, and a pass on a
    server with an empty script succeeds.  The worker loop [drain] takes
    the number of passes as fuel too; the queue length plus the length of
    the fault script is enough because each pass either succeeds, which
    shortens the queue, or fails, which is possible only on a server with
    faults, where the pass consumes at least one scripted answer and its
    request goes back to the queue.  Freshness compares resolutions up to the
    order of each group's clusters ([resEquiv]): the server lists a group's
    clusters in map order, which stdpp fixes only up to permutation.

    Not modelled.  The field-level templating of the builders (objects are
    string maps), the scheme lookup of [SetControllerReference] (taken to
    succeed), the event recorder and logging sinks, context cancellation and
    deadlines, optimistic locking of the status patch (the code sends none:
    [client.MergeFrom] without [MergeFromWithOptimisticLock]), and the
    concurrency of workers on different requests at the granularity of
    single calls: the manager ([Manager]) has one worker that takes the
    head of the queue (whole passes on different PGAdmins are shown to
    commute, [Commute]), and rate limiting and backoff delays are not
    timed.  Writes by other actors in the middle of a pass are modelled for
    clusters and PGAdmins ([Interleave]), on a server without faults (the
    serial theorems cover transient faults); an edit of a dependent during
    a pass is not, as no handler watches one ([dependent_edit_missed]).
    controller-runtime itself is not code of the repository; its contract
    is modelled from the specification. *)

From stdpp Require Export base list strings gmap.

(** ** Results and the state/result monad of client calls *)

(** A Go call returning [(T, error)]: either a value or an error. *)
Inductive result (E A : Type) : Type :=
| Ok (a : A)
| Err (e : E).
Arguments Ok {E A} a.
Arguments Err {E A} e.

#[export] Instance result_eq_dec {E A} `{!EqDecision E, !EqDecision A} :
  EqDecision (result E A).
Proof. solve_decision. Defined.

(** A computation against a mutable world [S] that may fail with [E]. *)
Definition StM (S E A : Type) : Type := S -> S * result E A.

Definition st_ret {S E A} (a : A) : StM S E A := fun s => (s, Ok a).

Definition st_fail {S E A} (e : E) : StM S E A := fun s => (s, Err e).

Definition st_bind {S E A B} (m : StM S E A) (k : A -> StM S E B) : StM S E B :=
  fun s => match m s with
           | (s', Ok a) => k a s'
           | (s', Err e) => (s', Err e)
           end.

Declare Scope go_scope.
Delimit Scope go_scope with go.
Notation "x <- m ;; k" := (st_bind m (fun x => k))
  (at level 100, m at next level, right associativity) : go_scope.
Notation "m ;; k" := (st_bind m (fun _ => k))
  (at level 100, right associativity) : go_scope.

(** Forget the value of a call, keeping Go's [err]. *)
Definition err_of {E A} (r : result E A) : option E :=
  match r with Ok _ => None | Err e => Some e end.

(** ** The hint database of the development *)

Create HintDb pgo discriminated.
Create Rewrite HintDb pgo_rw.

Section MonadLaws.
Context {S E : Type}.

(** Running a bind whose first computation is known. *)
Lemma st_bind_run_ok {A B} (m : StM S E A) (k : A -> StM S E B) s s' a :
  m s = (s', Ok a) -> st_bind m k s = k a s'.
Proof. unfold st_bind. by intros ->. Qed.

Lemma st_bind_run_err {A B} (m : StM S E A) (k : A -> StM S E B) s s' e :
  m s = (s', Err e) -> st_bind m k s = (s', Err e).
Proof. unfold st_bind. by intros ->. Qed.
End MonadLaws.

#[export] Hint Resolve st_bind_run_ok st_bind_run_err : pgo.

(** ** Shared list lemmas *)

Lemma existsb_true_iff {A} (f : A -> bool) (l : list A) :
  existsb f l = true <-> exists x, x ∈ l /\ f x = true.
Proof.
  rewrite existsb_exists. setoid_rewrite list_elem_of_In. done.
Qed.

Lemma forallb_true_iff {A} (f : A -> bool) (l : list A) :
  forallb f l = true <-> forall x, x ∈ l -> f x = true.
Proof.
  rewrite forallb_forall. setoid_rewrite list_elem_of_In. done.
Qed.

(** Go's [for ... range] collecting the elements a test accepts. *)
Lemma elem_of_filter_bool {A} (f : A -> bool) (l : list A) x :
  x ∈ List.filter f l <-> x ∈ l /\ f x = true.
Proof.
  rewrite !list_elem_of_In, filter_In. done.
Qed.

(** Go's [if cond { xs = append(xs, x) }] leaves [xs] empty only when the
    condition is false and [xs] was empty. *)
Lemma snoc_if_nil {A} (b : bool) (l : list A) x :
  (if b then l ++ [x] else l) = [] <-> b = false /\ l = [].
Proof.
  destruct b; split; try naive_solver.
  intros H. by apply app_nil in H as [_ ?].
Qed.

Lemma if_snoc {A} (b : bool) (l : list A) x y :
  (if b then l ++ [x] else l ++ [y]) = l ++ [if b then x else y].
Proof. by destruct b. Qed.

(** Two elements of a list whose images are distinct are equal when their
    images are. *)
Lemma NoDup_fmap_eq {A B} (f : A -> B) (l : list A) x y :
  NoDup (f <$> l) -> x ∈ l -> y ∈ l -> f x = f y -> x = y.
Proof.
  induction l as [|a l IH]; simpl; [by intros _ ?%not_elem_of_nil|].
  intros [Hnot Hnd]%NoDup_cons. rewrite !elem_of_cons.
  intros [->|Hx] [->|Hy] Hf; auto; exfalso; apply Hnot;
    [rewrite Hf | rewrite <-Hf]; apply list_elem_of_fmap; eauto.
Qed.

(** [List.find] by a key finds nothing when the key is absent. *)
Lemma find_key_none {A} (key : A -> string) (l : list A) k :
  k ∉ key <$> l -> List.find (fun x => String.eqb (key x) k) l = None.
Proof.
  intros Hk. destruct (List.find _ l) as [x|] eqn:Hf; [|done].
  apply find_some in Hf as [Hin Heq]. apply String.eqb_eq in Heq. subst k.
  exfalso. apply Hk, list_elem_of_fmap. exists x. split; [done|]. by apply list_elem_of_In.
Qed.

#[export] Hint Rewrite @existsb_true_iff @forallb_true_iff
  @elem_of_filter_bool : pgo_rw.

(** Close a decidable goal on concrete data by evaluating its decision in
    the virtual machine: only the boolean is read back. *)
Ltac vm_decide := match goal with |- ?P => apply (bool_decide_eq_true_1 P) end; vm_compute; reflexivity.

(** [List.filter] with a boolean test respects permutations. *)
Lemma filterb_perm {A} (f : A -> bool) (l l' : list A) :
  l ≡ₚ l' -> List.filter f l ≡ₚ List.filter f l'.
Proof.
  induction 1 as [|x l l' _ IH|x y l|l1 l2 l3 _ IH1 _ IH2]; simpl.
  - done.
  - destruct (f x); [by apply perm_skip|done].
  - destruct (f x), (f y); [apply perm_swap|done..].
  - by etrans.
Qed.

(** ** Strings *)

Local Open Scope string_scope.

(** [String.append] is [simpl never] under stdpp: its two equations, and
    the facts on it the development uses. *)
Lemma string_app_nil (s : string) : "" ++ s = s.
Proof. reflexivity. Qed.

Lemma string_app_cons c (s1 s2 : string) : String c s1 ++ s2 = String c (s1 ++ s2).
Proof. reflexivity. Qed.

#[export] Hint Rewrite string_app_nil string_app_cons : pgo_rw.

Lemma string_app_nil_r (s : string) : s ++ "" = s.
Proof. induction s as [|c s IH]; autorewrite with pgo_rw; congruence. Qed.

Lemma string_app_assoc (a b c : string) : (a ++ b) ++ c = a ++ (b ++ c).
Proof. induction a as [|x a IH]; autorewrite with pgo_rw; congruence. Qed.

Lemma string_app_cancel_l (p a b : string) : p ++ a = p ++ b -> a = b.
Proof.
  induction p as [|c p IH]; autorewrite with pgo_rw; [done|]. intros [= Heq]. by apply IH.
Qed.

Lemma length_string_app (s1 s2 : string) :
  String.length (s1 ++ s2) = (String.length s1 + String.length s2)%nat.
Proof. induction s1 as [|c s1 IH]; autorewrite with pgo_rw; simpl; congruence. Qed.
