(* ===== verification/Api.v ===== *)
(** * Kubernetes and v1beta1 data used by the controller

    The object metadata, owner references and label selectors of
    apimachinery, the [PostgresCluster] and [PGAdmin] types of the
    [v1beta1] API package (not under [src/]: the fields are those the code
    under [src/] reads or writes), the API errors with [IsNotFound] and
    [IgnoreNotFound], and the request type of the work queue.  Go pointers
    are [option]s; Go maps are [gmap]s; [int64] is [Z]. *)

From S2P Require Import Prelude.
From Stdlib Require Import ZArith.

Open Scope string_scope.

(** ** apimachinery *)

Record NamespacedName := { nn_namespace : string; nn_name : string }.

#[export] Instance NamespacedName_eq_dec : EqDecision NamespacedName.
Proof. solve_decision. Defined.

#[export] Instance NamespacedName_countable : Countable NamespacedName.
Proof.
  apply (inj_countable' (fun k => (nn_namespace k, nn_name k))
                        (fun p => {| nn_namespace := p.1; nn_name := p.2 |})).
  by intros [].
Defined.

Record TypeMeta := { apiVersion : string; kind : string }.

Record OwnerReference := {
  or_apiVersion : string;
  or_kind : string;
  or_name : string;
  or_uid : string;
  or_controller : bool;
  or_blockOwnerDeletion : bool }.

Record ObjectMeta := {
  namespace : string;
  name : string;
  uid : string;
  generation : Z;
  resourceVersion : Z;
  labels : gmap string string;
  ownerReferences : list OwnerReference }.

#[export] Instance TypeMeta_eq_dec : EqDecision TypeMeta.
Proof. solve_decision. Defined.
#[export] Instance OwnerReference_eq_dec : EqDecision OwnerReference.
Proof. solve_decision. Defined.
#[export] Instance ObjectMeta_eq_dec : EqDecision ObjectMeta.
Proof. solve_decision. Defined.

(** [client.ObjectKeyFromObject]. *)
Definition ObjectKeyFromMeta (m : ObjectMeta) : NamespacedName :=
  {| nn_namespace := namespace m; nn_name := name m |}.

(** [metav1.LabelSelector] with its [matchLabels]; the empty selector
    matches every object. *)
Record LabelSelector := { matchLabels : gmap string string }.

#[export] Instance LabelSelector_eq_dec : EqDecision LabelSelector.
Proof. solve_decision. Defined.

(** [selector.Matches(labels.Set(obj.GetLabels()))]. *)
Definition selector_matches (sel : LabelSelector) (lbls : gmap string string) : bool :=
  forallb (fun kv => bool_decide (lbls !! kv.1 = Some kv.2))
          (map_to_list (matchLabels sel)).

(** ** Errors (apimachinery [StatusError] and the other errors met) *)

Inductive StatusReason :=
| NotFound | Conflict | Invalid | AlreadyExists | ServiceUnavailable | Timeout.

#[export] Instance StatusReason_eq_dec : EqDecision StatusReason.
Proof. solve_decision. Defined.

Inductive error :=
| StatusError (reason : StatusReason) (message : string)
| AlreadyOwnedError (owner : string)
| ValidationError (message : string).

#[export] Instance error_eq_dec : EqDecision error.
Proof. solve_decision. Defined.

(** [apierrors.IsNotFound]. *)
Definition IsNotFound (e : error) : bool :=
  match e with StatusError NotFound _ => true | _ => false end.

(** [client.IgnoreNotFound]: [nil] for a NotFound error, the error otherwise. *)
Definition IgnoreNotFound (err : option error) : option error :=
  match err with
  | Some e => if IsNotFound e then None else Some e
  | None => None
  end.

(** ** v1beta1: PostgresCluster (the fields config.go reads) *)

Record PGBackRestArchive := { pgbackrest_image : string }.
Record Backups := { pgBackRest : PGBackRestArchive }.
Record PGAdminPodSpec := { pgadmin_image : string }.
Record UserInterfaceSpec := { ui_pgAdmin : option PGAdminPodSpec }.
Record PGBouncerPodSpec := { pgbouncer_image : string }.
Record PostgresProxySpec := { proxy_pgBouncer : option PGBouncerPodSpec }.
Record ExporterSpec := { exporter_image : string }.
Record PGMonitorSpec := { pgm_exporter : option ExporterSpec }.
Record MonitoringSpec := { mon_pgMonitor : option PGMonitorSpec }.

Record PostgresClusterSpec := {
  pc_image : string;
  pc_postgresVersion : Z;
  pc_postGISVersion : string;
  pc_backups : Backups;
  pc_userInterface : option UserInterfaceSpec;
  pc_proxy : option PostgresProxySpec;
  pc_monitoring : option MonitoringSpec }.

Record RegistrationRequirementStatus := { pgoVersion : string }.
Record PostgresClusterStatus :=
  { pc_registrationRequired : option RegistrationRequirementStatus }.

Record PostgresCluster := {
  pc_meta : ObjectMeta;
  pc_spec : PostgresClusterSpec;
  pc_status : PostgresClusterStatus }.

#[export] Instance PGBackRestArchive_eq_dec : EqDecision PGBackRestArchive.
Proof. solve_decision. Defined.
#[export] Instance Backups_eq_dec : EqDecision Backups.
Proof. solve_decision. Defined.
#[export] Instance PGAdminPodSpec_eq_dec : EqDecision PGAdminPodSpec.
Proof. solve_decision. Defined.
#[export] Instance UserInterfaceSpec_eq_dec : EqDecision UserInterfaceSpec.
Proof. solve_decision. Defined.
#[export] Instance PGBouncerPodSpec_eq_dec : EqDecision PGBouncerPodSpec.
Proof. solve_decision. Defined.
#[export] Instance PostgresProxySpec_eq_dec : EqDecision PostgresProxySpec.
Proof. solve_decision. Defined.
#[export] Instance ExporterSpec_eq_dec : EqDecision ExporterSpec.
Proof. solve_decision. Defined.
#[export] Instance PGMonitorSpec_eq_dec : EqDecision PGMonitorSpec.
Proof. solve_decision. Defined.
#[export] Instance MonitoringSpec_eq_dec : EqDecision MonitoringSpec.
Proof. solve_decision. Defined.
#[export] Instance PostgresClusterSpec_eq_dec : EqDecision PostgresClusterSpec.
Proof. solve_decision. Defined.
#[export] Instance RegistrationRequirementStatus_eq_dec : EqDecision RegistrationRequirementStatus.
Proof. solve_decision. Defined.
#[export] Instance PostgresClusterStatus_eq_dec : EqDecision PostgresClusterStatus.
Proof. solve_decision. Defined.
#[export] Instance PostgresCluster_eq_dec : EqDecision PostgresCluster.
Proof. solve_decision. Defined.

(** ** v1beta1: PGAdmin *)

(** A server group selects clusters by name, or else by label selector. *)
Record ServerGroup := {
  sg_name : string;
  sg_postgresClusterName : string;
  sg_postgresClusterSelector : LabelSelector }.

Record PGAdminSpec := {
  pa_image : option string;
  pa_serverGroups : list ServerGroup;
  pa_dataVolumeClaimSpec : string }.

Record Condition := {
  cond_type : string;
  cond_status : string;
  cond_reason : string;
  cond_observedGeneration : Z }.

Record PGAdminStatus := {
  observedGeneration : Z;
  conditions : list Condition }.

Record PGAdmin := {
  pa_typeMeta : TypeMeta;
  pa_meta : ObjectMeta;
  pa_spec : PGAdminSpec;
  pa_status : PGAdminStatus }.

#[export] Instance ServerGroup_eq_dec : EqDecision ServerGroup.
Proof. solve_decision. Defined.
#[export] Instance PGAdminSpec_eq_dec : EqDecision PGAdminSpec.
Proof. solve_decision. Defined.
#[export] Instance Condition_eq_dec : EqDecision Condition.
Proof. solve_decision. Defined.
#[export] Instance PGAdminStatus_eq_dec : EqDecision PGAdminStatus.
Proof. solve_decision. Defined.
#[export] Instance PGAdmin_eq_dec : EqDecision PGAdmin.
Proof. solve_decision. Defined.

(** [GroupVersion.String()] of the v1beta1 package. *)
Definition GroupVersionString : string := "postgres-operator.crunchydata.com/v1beta1".

(** [PGAdmin.Default] (a pointer method): fill the unset type metadata. *)
Definition Default (p : PGAdmin) : PGAdmin :=
  let tm := pa_typeMeta p in
  {| pa_typeMeta :=
       {| apiVersion := if String.eqb (apiVersion tm) "" then GroupVersionString
                        else apiVersion tm;
          kind := if String.eqb (kind tm) "" then "PGAdmin" else kind tm |};
     pa_meta := pa_meta p; pa_spec := pa_spec p; pa_status := pa_status p |}.

(** Updating the status block in memory ([pgAdmin.Status.X = ...]). *)
Definition with_status (p : PGAdmin) (s : PGAdminStatus) : PGAdmin :=
  {| pa_typeMeta := pa_typeMeta p; pa_meta := pa_meta p;
     pa_spec := pa_spec p; pa_status := s |}.

Definition set_observedGeneration (s : PGAdminStatus) (g : Z) : PGAdminStatus :=
  {| observedGeneration := g; conditions := conditions s |}.

(** ** core/v1 and apps/v1 dependents

    The four kinds the reconciler applies.  Their bodies are modelled as a
    string map ([data] of a Secret or ConfigMap, the fields of the claim and
    of the pod template); the reconciler never reads them back. *)

Inductive ObjKind := Secret | ConfigMap | PersistentVolumeClaim | StatefulSet.

#[export] Instance ObjKind_eq_dec : EqDecision ObjKind.
Proof. solve_decision. Defined.

#[export] Instance ObjKind_countable : Countable ObjKind.
Proof.
  refine (inj_countable'
    (fun k => match k with
              | Secret => 0 | ConfigMap => 1 | PersistentVolumeClaim => 2
              | StatefulSet => 3 end)%nat
    (fun n => match n with
              | 0 => Secret | 1 => ConfigMap | 2 => PersistentVolumeClaim
              | _ => StatefulSet end)%nat _).
  by intros [].
Defined.

Record Object := {
  obj_kind : ObjKind;
  obj_meta : ObjectMeta;
  obj_data : gmap string string }.

#[export] Instance Object_eq_dec : EqDecision Object.
Proof. solve_decision. Defined.

(** Objects are stored under their kind and namespaced name. *)
Definition ObjectKey (o : Object) : ObjKind * NamespacedName :=
  (obj_kind o, ObjectKeyFromMeta (obj_meta o)).

(** ** controller-runtime *)

(** [ctrl.Request]. *)
Record Request := { req_namespacedName : NamespacedName }.

#[export] Instance Request_eq_dec : EqDecision Request.
Proof. solve_decision. Defined.

(** [ctrl.Result{}]: no requeue. *)
Record Result := { requeue : bool; requeueAfter : Z }.
#[export] Instance Result_eq_dec : EqDecision Result.
Proof. solve_decision. Defined.

Definition EmptyResult : Result := {| requeue := false; requeueAfter := 0 |}.

(** ** Lemmas on the data *)

Lemma IgnoreNotFound_None_iff err :
  IgnoreNotFound err = None <-> forall e, err = Some e -> IsNotFound e = true.
Proof.
  destruct err as [e|]; simpl; [|split; [done | congruence]].
  destruct (IsNotFound e) eqn:He; split; intros H; try done.
  - intros e' [= <-]. done.
  - by rewrite (H e eq_refl) in He.
Qed.

Lemma Default_status p : pa_status (Default p) = pa_status p.
Proof. reflexivity. Qed.

Lemma Default_meta p : pa_meta (Default p) = pa_meta p.
Proof. reflexivity. Qed.

Lemma Default_spec p : pa_spec (Default p) = pa_spec p.
Proof. reflexivity. Qed.

Lemma with_status_status p s : pa_status (with_status p s) = s.
Proof. reflexivity. Qed.

Lemma with_status_meta p s : pa_meta (with_status p s) = pa_meta p.
Proof. reflexivity. Qed.

#[export] Hint Rewrite Default_status Default_meta Default_spec
  with_status_status with_status_meta : pgo_rw.

Lemma selector_matches_spec sel lbls :
  selector_matches sel lbls = true <->
  map_Forall (fun k v => lbls !! k = Some v) (matchLabels sel).
Proof.
  unfold selector_matches. rewrite forallb_true_iff, map_Forall_to_list.
  rewrite Forall_forall.
  split; intros H [k v] Hin; specialize (H _ Hin); simpl in *.
  - by apply bool_decide_eq_true in H.
  - by apply bool_decide_eq_true.
Qed.

(** The empty selector matches every label set. *)
Lemma selector_matches_empty lbls :
  selector_matches {| matchLabels := ∅ |} lbls = true.
Proof. reflexivity. Qed.
