(* ===== verification/Config.v ===== *)
(** * Image and environment configuration ([src/internal/config/config.go])

    Every function of config.go, in Module [config].  The process
    environment is a finite map [Env]; [os.Getenv] returns [""] for an unset
    variable; [fmt.Sprint] of the PostgreSQL version is stdpp's decimal
    [pretty].  Module [config_facts] shows that [VerifyImageValues] returns
    [nil] exactly when every image the cluster needs resolves, and that the
    environment variable [PostgresContainerImage] falls back to determines
    the PostgreSQL and PostGIS versions (no two versions share a
    variable). *)

From S2P Require Import Prelude Api.
From stdpp Require Import pretty.
From Stdlib Require Import ZArith Ascii.

Open Scope string_scope.

Abbreviation Env := (gmap string string).

Module config.

(** [os.Getenv]. *)
Definition Getenv (env : Env) (key : string) : string :=
  default "" (env !! key).

(** [defaultFromEnv]: the environment variable [key] when [value] is empty. *)
Definition defaultFromEnv (env : Env) (value key : string) : string :=
  if String.eqb value "" then Getenv env key else value.

Definition RegistrationRequired (env : Env) : bool :=
  String.eqb (Getenv env "REGISTRATION_REQUIRED") "true".

Definition RegistrationRequiredBy (cluster : PostgresCluster) : string :=
  match pc_registrationRequired (pc_status cluster) with
  | None => ""
  | Some r => pgoVersion r
  end.

Definition PGBackRestContainerImage (env : Env) (cluster : PostgresCluster) : string :=
  let image := pgbackrest_image (pgBackRest (pc_backups (pc_spec cluster))) in
  defaultFromEnv env image "RELATED_IMAGE_PGBACKREST".

Definition PGAdminContainerImage (env : Env) (cluster : PostgresCluster) : string :=
  let image :=
    match pc_userInterface (pc_spec cluster) with
    | Some ui => match ui_pgAdmin ui with Some p => pgadmin_image p | None => "" end
    | None => ""
    end in
  defaultFromEnv env image "RELATED_IMAGE_PGADMIN".

Definition StandalonePGAdminContainerImage (env : Env) (pgadmin : PGAdmin) : string :=
  let image := match pa_image (pa_spec pgadmin) with Some i => i | None => "" end in
  defaultFromEnv env image "RELATED_IMAGE_STANDALONE_PGADMIN".

Definition PGBouncerContainerImage (env : Env) (cluster : PostgresCluster) : string :=
  let image :=
    match pc_proxy (pc_spec cluster) with
    | Some p => match proxy_pgBouncer p with Some b => pgbouncer_image b | None => "" end
    | None => ""
    end in
  defaultFromEnv env image "RELATED_IMAGE_PGBOUNCER".

Definition PGExporterContainerImage (env : Env) (cluster : PostgresCluster) : string :=
  let image :=
    match pc_monitoring (pc_spec cluster) with
    | Some m =>
        match mon_pgMonitor m with
        | Some pm => match pgm_exporter pm with Some e => exporter_image e | None => "" end
        | None => ""
        end
    | None => ""
    end in
  defaultFromEnv env image "RELATED_IMAGE_PGEXPORTER".

(** [fmt.Sprint] of the [int] PostgresVersion: its decimal form. *)
Definition Sprint_int (z : Z) : string := pretty z.

(** The environment variable PostgresContainerImage falls back to. *)
Definition postgresImageKey (cluster : PostgresCluster) : string :=
  let key := "RELATED_IMAGE_POSTGRES_" ++ Sprint_int (pc_postgresVersion (pc_spec cluster)) in
  let version := pc_postGISVersion (pc_spec cluster) in
  if negb (String.eqb version "") then key ++ "_GIS_" ++ version else key.

Definition PostgresContainerImage (env : Env) (cluster : PostgresCluster) : string :=
  defaultFromEnv env (pc_image (pc_spec cluster)) (postgresImageKey cluster).

Definition PGONamespace (env : Env) : string := Getenv env "PGO_NAMESPACE".

(** The [images] slice VerifyImageValues accumulates, in append order. *)
Definition missingImages (env : Env) (cluster : PostgresCluster) : list string :=
  let spec := pc_spec cluster in
  let images : list string := [] in
  let images :=
    if String.eqb (PGBackRestContainerImage env cluster) "" then
      (images ++ ["crunchy-pgbackrest"])%list else images in
  let images :=
    if String.eqb (PGAdminContainerImage env cluster) "" &&
       match pc_userInterface spec with
       | Some ui => bool_decide (is_Some (ui_pgAdmin ui))
       | None => false
       end
    then (images ++ ["crunchy-pgadmin4"])%list else images in
  let images :=
    if String.eqb (PGBouncerContainerImage env cluster) "" &&
       match pc_proxy spec with
       | Some p => bool_decide (is_Some (proxy_pgBouncer p))
       | None => false
       end
    then (images ++ ["crunchy-pgbouncer"])%list else images in
  let images :=
    if String.eqb (PGExporterContainerImage env cluster) "" &&
       match pc_monitoring spec with
       | Some m => match mon_pgMonitor m with
                   | Some pm => bool_decide (is_Some (pgm_exporter pm))
                   | None => false
                   end
       | None => false
       end
    then (images ++ ["crunchy-postgres-exporter"])%list else images in
  let images :=
    if String.eqb (PostgresContainerImage env cluster) "" then
      if negb (String.eqb (pc_postGISVersion spec) "") then
        (images ++ ["crunchy-postgres-gis"])%list
      else (images ++ ["crunchy-postgres"])%list
    else images in
  images.

(** [fmt.Sprintf("%s", images)] of a [[]string]. *)
Definition Sprint_strings (l : list string) : string :=
  "[" ++ String.concat " " l ++ "]".

Definition VerifyImageValues (env : Env) (cluster : PostgresCluster) : option error :=
  let images := missingImages env cluster in
  if bool_decide (0 < length images)%nat then
    Some (ValidationError ("Missing image(s): " ++ Sprint_strings images))
  else None.

End config.

Module config_facts.
Import config.

(** The clusters that declare a component needing its own image. *)
Definition needsPGAdmin (c : PostgresCluster) : Prop :=
  exists ui p, pc_userInterface (pc_spec c) = Some ui /\ ui_pgAdmin ui = Some p.
Definition needsPGBouncer (c : PostgresCluster) : Prop :=
  exists px b, pc_proxy (pc_spec c) = Some px /\ proxy_pgBouncer px = Some b.
Definition needsExporter (c : PostgresCluster) : Prop :=
  exists m pm e, pc_monitoring (pc_spec c) = Some m /\ mon_pgMonitor m = Some pm /\
                 pgm_exporter pm = Some e.

Lemma VerifyImageValues_None_missing env c :
  VerifyImageValues env c = None <-> missingImages env c = [].
Proof.
  unfold VerifyImageValues. case_bool_decide as Hlen; split; try done.
  - intros Hnil. rewrite Hnil in Hlen. simpl in Hlen. lia.
  - intros _. by destruct (missingImages env c); [|simpl in Hlen; lia].
Qed.

Lemma eqb_empty_false (s : string) : String.eqb s "" = false <-> s <> "".
Proof. apply String.eqb_neq. Qed.

Lemma needs_bool_pgadmin c :
  match pc_userInterface (pc_spec c) with
  | Some ui => bool_decide (is_Some (ui_pgAdmin ui)) | None => false end = true <->
  needsPGAdmin c.
Proof.
  unfold needsPGAdmin. destruct (pc_userInterface _) as [ui|].
  - rewrite bool_decide_eq_true. split; [intros [p ?]; eauto|].
    intros (ui' & p & [= <-] & Hp). by exists p.
  - split; [done|]. by intros (? & ? & ? & _).
Qed.

Lemma needs_bool_pgbouncer c :
  match pc_proxy (pc_spec c) with
  | Some p => bool_decide (is_Some (proxy_pgBouncer p)) | None => false end = true <->
  needsPGBouncer c.
Proof.
  unfold needsPGBouncer. destruct (pc_proxy _) as [px|].
  - rewrite bool_decide_eq_true. split; [intros [b ?]; eauto|].
    intros (px' & b & [= <-] & Hb). by exists b.
  - split; [done|]. by intros (? & ? & ? & _).
Qed.

Lemma needs_bool_exporter c :
  match pc_monitoring (pc_spec c) with
  | Some m => match mon_pgMonitor m with
              | Some pm => bool_decide (is_Some (pgm_exporter pm)) | None => false end
  | None => false end = true <->
  needsExporter c.
Proof.
  unfold needsExporter. destruct (pc_monitoring _) as [m|].
  - destruct (mon_pgMonitor m) as [pm|] eqn:Hm.
    + rewrite bool_decide_eq_true. split; [intros [e ?]; eauto 7|].
      intros (m' & pm' & e & [= <-] & Hpm & He). rewrite Hm in Hpm.
      injection Hpm as <-. by exists e.
    + split; [done|]. intros (m' & ? & ? & [= <-] & Hpm & _). congruence.
  - split; [done|]. by intros (? & ? & ? & ? & _).
Qed.

(** A guard [a && b] of the code is false exactly when [b] implies [¬a]. *)
Lemma andb_false_impl (a b : bool) P :
  (b = true <-> P) -> (a && b = false <-> (P -> a = false)).
Proof. intros HP. destruct a, b; rewrite <-HP; intuition congruence. Qed.

(** C13: [VerifyImageValues] returns [nil] exactly when every image the
    cluster needs resolves to a non-empty reference: pgBackRest and
    PostgreSQL always, pgAdmin, PgBouncer and the exporter when the
    cluster declares them. *)
Theorem VerifyImageValues_nil_iff env c :
  VerifyImageValues env c = None <->
  PGBackRestContainerImage env c <> "" /\
  (needsPGAdmin c -> PGAdminContainerImage env c <> "") /\
  (needsPGBouncer c -> PGBouncerContainerImage env c <> "") /\
  (needsExporter c -> PGExporterContainerImage env c <> "") /\
  PostgresContainerImage env c <> "".
Proof.
  rewrite VerifyImageValues_None_missing. unfold missingImages. cbv zeta.
  rewrite if_snoc, !snoc_if_nil.
  rewrite (andb_false_impl _ _ _ (needs_bool_pgadmin c)),
          (andb_false_impl _ _ _ (needs_bool_pgbouncer c)),
          (andb_false_impl _ _ _ (needs_bool_exporter c)), !eqb_empty_false.
  naive_solver.
Qed.


(** ** The environment variables of the PostgreSQL image *)

(** A string with no underscore: the decimal form of a number. *)
Definition noUnderscore (s : string) : Prop :=
  forall s1 s2, s <> s1 ++ String "_"%char s2.

Lemma noUnderscore_nil : noUnderscore "".
Proof. by intros [|??] ?. Qed.

Lemma noUnderscore_cons c s : c <> "_"%char -> noUnderscore s -> noUnderscore (String c s).
Proof.
  intros Hc Hs [|c1 s1] s2; autorewrite with pgo_rw; intros [= ??]; [done|].
  subst. by apply (Hs s1 s2).
Qed.

Lemma pretty_N_go_noUnderscore x s : noUnderscore s -> noUnderscore (pretty_N_go x s).
Proof.
  revert s. induction (N.lt_wf_0 x) as [x _ IH]; intros s Hs.
  destruct (decide (x = 0)%N) as [->|Hx]; [by rewrite pretty_N_go_0|].
  rewrite pretty_N_go_step by lia. apply IH; [apply N.div_lt; lia|].
  apply noUnderscore_cons; [|done]. unfold pretty_N_char. by repeat case_match.
Qed.

Lemma Sprint_int_noUnderscore (z : Z) : noUnderscore (Sprint_int z).
Proof.
  assert (HN : forall n : N, noUnderscore (pretty n)).
  { intros n. unfold pretty, pretty_N. case_decide.
    - by apply noUnderscore_cons, noUnderscore_nil.
    - by apply pretty_N_go_noUnderscore, noUnderscore_nil. }
  unfold Sprint_int. destruct z as [|p|p]; simpl.
  - by apply noUnderscore_cons, noUnderscore_nil.
  - apply HN.
  - apply noUnderscore_cons; [done|apply HN].
Qed.

(** Two strings without underscore, each followed by nothing or by a
    string that starts with an underscore, are cut apart at that point. *)
Definition emptyOrUnderscore (r : string) : Prop := r = "" \/ exists t, r = String "_"%char t.

Lemma app_underscore_cancel a b r1 r2 :
  noUnderscore a -> noUnderscore b -> emptyOrUnderscore r1 -> emptyOrUnderscore r2 ->
  a ++ r1 = b ++ r2 -> a = b /\ r1 = r2.
Proof.
  revert b. induction a as [|c a IH]; intros [|d b] Ha Hb Hr1 Hr2;
    autorewrite with pgo_rw; intros Heq; [done|exfalso..|].
  - destruct Hr1 as [->|[t ->]]; [discriminate|]. injection Heq as <- _. by apply (Hb "" b).
  - destruct Hr2 as [->|[t ->]]; [discriminate|]. injection Heq as -> _. by apply (Ha "" a).
  - injection Heq as -> Heq. destruct (IH b) as [-> ->]; try done.
    + intros s1 s2 Hs. apply (Ha (String d s1) s2). by rewrite Hs.
    + intros s1 s2 Hs. apply (Hb (String d s1) s2). by rewrite Hs.
Qed.

(** The part of the key after the version. *)
Definition gisSuffix (version : string) : string :=
  if negb (String.eqb version "") then "_GIS_" ++ version else "".

Lemma gisSuffix_emptyOrUnderscore g : emptyOrUnderscore (gisSuffix g).
Proof. unfold gisSuffix. destruct (negb _); [right; by eexists|by left]. Qed.

Lemma postgresImageKey_split c :
  postgresImageKey c =
    "RELATED_IMAGE_POSTGRES_" ++ (Sprint_int (pc_postgresVersion (pc_spec c)) ++
                                  gisSuffix (pc_postGISVersion (pc_spec c))).
Proof.
  unfold postgresImageKey, gisSuffix. cbv zeta.
  destruct (negb _); [by rewrite string_app_assoc|by rewrite string_app_nil_r].
Qed.

(** C16: the environment variable [PostgresContainerImage] falls back to
    determines the PostgreSQL major version and the PostGIS version: two
    clusters that differ in either never read the same variable (the
    decimal form of the version has no underscore, so ["_GIS_"] cannot be
    confused with part of it). *)
Theorem postgresImageKey_inj c1 c2 :
  postgresImageKey c1 = postgresImageKey c2 ->
  pc_postgresVersion (pc_spec c1) = pc_postgresVersion (pc_spec c2) /\
  pc_postGISVersion (pc_spec c1) = pc_postGISVersion (pc_spec c2).
Proof.
  rewrite !postgresImageKey_split. intros Heq%string_app_cancel_l.
  apply app_underscore_cancel in Heq as [Hv Hg];
    auto using Sprint_int_noUnderscore, gisSuffix_emptyOrUnderscore.
  split; [by apply (inj pretty)|].
  revert Hg. unfold gisSuffix.
  destruct (String.eqb_spec (pc_postGISVersion (pc_spec c1)) "") as [H1|H1];
  destruct (String.eqb_spec (pc_postGISVersion (pc_spec c2)) "") as [H2|H2]; simpl;
    [congruence|discriminate|discriminate|].
  apply string_app_cancel_l.
Qed.

(** PostgreSQL 16 with PostGIS 3.4, no image set in the spec. *)
Definition gisCluster : PostgresCluster :=
  {| pc_meta := {| namespace := "ns"; name := "gis"; uid := "uid-gis"; generation := 1;
                   resourceVersion := 1; labels := ∅; ownerReferences := [] |};
     pc_spec := {| pc_image := ""; pc_postgresVersion := 16; pc_postGISVersion := "3.4";
                   pc_backups := {| pgBackRest := {| pgbackrest_image := "" |} |};
                   pc_userInterface := None; pc_proxy := None; pc_monitoring := None |};
     pc_status := {| pc_registrationRequired := None |} |}.

Lemma postgresImageKey_inj_witness :
  postgresImageKey gisCluster = "RELATED_IMAGE_POSTGRES_16_GIS_3.4" /\
  pc_postgresVersion (pc_spec gisCluster) = pc_postgresVersion (pc_spec gisCluster) /\
  pc_postGISVersion (pc_spec gisCluster) = pc_postGISVersion (pc_spec gisCluster).
Proof.
  split; [reflexivity|].
  apply (postgresImageKey_inj gisCluster gisCluster). reflexivity.
Defined.

End config_facts.
