(* ===== verification/Client.v ===== *)
(** * The Kubernetes client: interface and in-memory API server

    The reconciler embeds [client.Client] (controller.go, [PGAdminReconciler])
    and reaches the cluster only through it.  [Client] is that interface,
    restricted to the calls the controller makes: [Get] of a [PGAdmin] or a
    [PostgresCluster], [List] of either kind in a namespace, server-side
    apply ([Patch] with [client.Apply] and a field owner), and the merge
    patch of the status subresource.  Every call is a computation in
    [StM S error] over the client's world [S].

    [ApiServer] implements it: the stored objects, and a fault script that
    makes the next calls fail (a conflict, an unavailable server, ...),
    consumed one entry per call.  Server-side apply of an object identical
    to the stored one writes nothing; a change bumps [resourceVersion].  The
    status merge patch writes only the status fields that differ between
    the [before] and [after] copies, and carries no resource version
    ([client.MergeFrom] without the optimistic lock option).

    [wf] (every object stored under its own namespaced name) is kept by
    every call ([run_call_wf]); on a healthy server (no fault pending) the
    calls are the plain operations on the stored objects. *)

From S2P Require Import Prelude Api.
From Stdlib Require Import ZArith.

Open Scope string_scope.

(** A [client.FieldOwner]. *)
Abbreviation FieldOwner := string (only parsing).

Class Client (S : Type) := {
  Get : NamespacedName -> StM S error PGAdmin;
  GetCluster : NamespacedName -> StM S error PostgresCluster;
  ListClusters : string -> LabelSelector -> StM S error (list PostgresCluster);
  ListPGAdmins : string -> StM S error (list PGAdmin);
  PatchApply : FieldOwner -> Object -> StM S error unit;
  StatusPatch : FieldOwner -> PGAdmin -> PGAdmin -> StM S error unit }.

Module apiserver.

Record ApiServer := {
  pgadmins : gmap NamespacedName PGAdmin;
  clusters : gmap NamespacedName PostgresCluster;
  objects : gmap (ObjKind * NamespacedName) Object;
  faults : list (option error) }.

#[export] Instance ApiServer_eq_dec : EqDecision ApiServer.
Proof. solve_decision. Defined.

Definition set_faults (s : ApiServer) (f : list (option error)) : ApiServer :=
  {| pgadmins := pgadmins s; clusters := clusters s; objects := objects s;
     faults := f |}.

Definition set_pgadmins (s : ApiServer) (m : gmap NamespacedName PGAdmin) : ApiServer :=
  {| pgadmins := m; clusters := clusters s; objects := objects s; faults := faults s |}.

Definition set_objects (s : ApiServer) (m : gmap (ObjKind * NamespacedName) Object)
  : ApiServer :=
  {| pgadmins := pgadmins s; clusters := clusters s; objects := m; faults := faults s |}.

(** Every request first consumes the next entry of the fault script. *)
Definition request {A} (body : ApiServer -> ApiServer * result error A)
  : StM ApiServer error A :=
  fun s => match faults s with
           | Some e :: rest => (set_faults s rest, Err e)
           | None :: rest => body (set_faults s rest)
           | [] => body s
           end.

Definition notFound (what : string) : error :=
  StatusError NotFound (what ++ " not found").

Definition get_pgadmin (k : NamespacedName) (s : ApiServer) : ApiServer * result error PGAdmin :=
  match pgadmins s !! k with
  | Some p => (s, Ok p)
  | None => (s, Err (notFound "pgadmins"))
  end.

Definition get_cluster (k : NamespacedName) (s : ApiServer)
  : ApiServer * result error PostgresCluster :=
  match clusters s !! k with
  | Some c => (s, Ok c)
  | None => (s, Err (notFound "postgresclusters"))
  end.

(** A list in a namespace, in key order as the server returns it. *)
Definition list_clusters (ns : string) (sel : LabelSelector) (s : ApiServer)
  : ApiServer * result error (list PostgresCluster) :=
  (s, Ok (List.filter (fun c => String.eqb (namespace (pc_meta c)) ns &&
                                selector_matches sel (labels (pc_meta c)))
                      (map snd (map_to_list (clusters s))))).

Definition list_pgadmins (ns : string) (s : ApiServer)
  : ApiServer * result error (list PGAdmin) :=
  (s, Ok (List.filter (fun p => String.eqb (namespace (pa_meta p)) ns)
                      (map snd (map_to_list (pgadmins s))))).

Definition with_resourceVersion (m : ObjectMeta) (rv : Z) : ObjectMeta :=
  {| namespace := namespace m; name := name m; uid := uid m;
     generation := generation m; resourceVersion := rv; labels := labels m;
     ownerReferences := ownerReferences m |}.

Definition with_meta (o : Object) (m : ObjectMeta) : Object :=
  {| obj_kind := obj_kind o; obj_meta := m; obj_data := obj_data o |}.

(** The content of an object, the server-maintained version aside. *)
Definition content (o : Object) : Object :=
  with_meta o (with_resourceVersion (obj_meta o) 0).

(** Server-side apply: create, or replace the applied fields. *)
Definition apply_object (o : Object) (s : ApiServer) : ApiServer * result error unit :=
  let k := ObjectKey o in
  match objects s !! k with
  | Some cur =>
      if bool_decide (content cur = content o) then (s, Ok tt)
      else (set_objects s (<[k := with_meta o (with_resourceVersion (obj_meta o)
                                   (resourceVersion (obj_meta cur) + 1))]> (objects s)),
            Ok tt)
  | None =>
      (set_objects s (<[k := with_meta o (with_resourceVersion (obj_meta o) 1)]> (objects s)),
       Ok tt)
  end.

(** The JSON merge patch computed by [client.MergeFrom(before)] against
    [after], applied to the stored status [cur]: a field is written only
    when [before] and [after] differ on it; lists are replaced whole. *)
Definition merge_status (before after cur : PGAdminStatus) : PGAdminStatus :=
  {| observedGeneration :=
       if bool_decide (observedGeneration before = observedGeneration after)
       then observedGeneration cur else observedGeneration after;
     conditions :=
       if bool_decide (conditions before = conditions after)
       then conditions cur else conditions after |}.

Definition patch_status (before after : PGAdmin) (s : ApiServer)
  : ApiServer * result error unit :=
  let k := ObjectKeyFromMeta (pa_meta after) in
  match pgadmins s !! k with
  | None => (s, Err (notFound "pgadmins"))
  | Some cur =>
      let st := merge_status (pa_status before) (pa_status after) (pa_status cur) in
      if bool_decide (st = pa_status cur) then (s, Ok tt)
      else
        let cur' := {| pa_typeMeta := pa_typeMeta cur;
                       pa_meta := with_resourceVersion (pa_meta cur)
                                    (resourceVersion (pa_meta cur) + 1);
                       pa_spec := pa_spec cur; pa_status := st |} in
        (set_pgadmins s (<[k := cur']> (pgadmins s)), Ok tt)
  end.

#[export] Instance ApiServer_client : Client ApiServer := {
  Get k := request (get_pgadmin k);
  GetCluster k := request (get_cluster k);
  ListClusters ns sel := request (list_clusters ns sel);
  ListPGAdmins ns := request (list_pgadmins ns);
  PatchApply _ o := request (apply_object o);
  StatusPatch _ before after := request (patch_status before after) }.

(** Any call a client can make, for statements over sequences of calls. *)
Inductive Call :=
| CGet (k : NamespacedName)
| CGetCluster (k : NamespacedName)
| CListClusters (ns : string) (sel : LabelSelector)
| CListPGAdmins (ns : string)
| CApply (owner : FieldOwner) (o : Object)
| CStatusPatch (owner : FieldOwner) (before after : PGAdmin).

(** The server state after a call. *)
Definition run_call (c : Call) (s : ApiServer) : ApiServer :=
  match c with
  | CGet k => fst (Get k s)
  | CGetCluster k => fst (GetCluster k s)
  | CListClusters ns sel => fst (ListClusters ns sel s)
  | CListPGAdmins ns => fst (ListPGAdmins ns s)
  | CApply o obj => fst (PatchApply o obj s)
  | CStatusPatch o b a => fst (StatusPatch o b a s)
  end.

(** The state after a call, on any client. *)
Definition crun {S} `{!Client S} (c : Call) (s : S) : S :=
  match c with
  | CGet k => fst (Get k s)
  | CGetCluster k => fst (GetCluster k s)
  | CListClusters ns sel => fst (ListClusters ns sel s)
  | CListPGAdmins ns => fst (ListPGAdmins ns s)
  | CApply o obj => fst (PatchApply o obj s)
  | CStatusPatch o b a => fst (StatusPatch o b a s)
  end.

(** Well-formedness: every object is stored under its own key. *)
Definition wf (s : ApiServer) : Prop :=
  map_Forall (fun k p => ObjectKeyFromMeta (pa_meta p) = k) (pgadmins s) /\
  map_Forall (fun k c => ObjectKeyFromMeta (pc_meta c) = k) (clusters s) /\
  map_Forall (fun k o => ObjectKey o = k) (objects s).

#[export] Instance wf_dec (s : ApiServer) : Decision (wf s).
Proof. unfold wf. apply _. Defined.

(** A healthy server has no fault pending. *)
Definition healthy (s : ApiServer) : Prop := faults s = [].

(** ** Facts on the server operations *)

Lemma request_healthy {A} (body : ApiServer -> ApiServer * result error A) s :
  healthy s -> request body s = body s.
Proof. unfold healthy, request. by intros ->. Qed.

(** A request either fails on a scripted fault, leaving the objects alone,
    or runs its body on the state with the fault script advanced. *)
Lemma request_cases {A} (body : ApiServer -> ApiServer * result error A) s :
  (exists e rest, faults s = Some e :: rest /\ request body s = (set_faults s rest, Err e)) \/
  (exists rest, (faults s = None :: rest \/ (faults s = [] /\ rest = [])) /\
                request body s = body (set_faults s rest)).
Proof.
  unfold request. destruct (faults s) as [|[e|] rest] eqn:Hf.
  - right. exists []. split; [by right|]. by destruct s; simpl in *; subst.
  - left. eauto.
  - right. eauto.
Qed.

Lemma wf_set_faults s f : wf (set_faults s f) <-> wf s.
Proof. done. Qed.

Lemma ObjectKeyFromMeta_with_resourceVersion m rv :
  ObjectKeyFromMeta (with_resourceVersion m rv) = ObjectKeyFromMeta m.
Proof. reflexivity. Qed.

Lemma ObjectKey_with_meta_rv o rv :
  ObjectKey (with_meta o (with_resourceVersion (obj_meta o) rv)) = ObjectKey o.
Proof. reflexivity. Qed.

#[export] Hint Rewrite wf_set_faults ObjectKeyFromMeta_with_resourceVersion
  ObjectKey_with_meta_rv : pgo_rw.

Lemma apply_object_wf o s : wf s -> wf (fst (apply_object o s)).
Proof.
  intros (Hp & Hc & Ho). unfold apply_object.
  destruct (objects s !! ObjectKey o) as [cur|];
    [case_bool_decide; [done|]|];
    (split_and!; [done|done|]); simpl; by apply map_Forall_insert_2.
Qed.

Lemma patch_status_wf b a s : wf s -> wf (fst (patch_status b a s)).
Proof.
  intros (Hp & Hc & Ho). unfold patch_status.
  destruct (pgadmins s !! _) as [cur|] eqn:Hcur; [|done].
  case_bool_decide; [done|]. split_and!; [|done|done]. simpl.
  apply map_Forall_insert_2; [|done]. simpl.
  rewrite ObjectKeyFromMeta_with_resourceVersion. by apply Hp in Hcur.
Qed.

Lemma request_wf {A} (body : ApiServer -> ApiServer * result error A) s :
  (forall s', wf s' -> wf (fst (body s'))) -> wf s -> wf (fst (request body s)).
Proof.
  intros Hbody Hwf.
  destruct (request_cases body s) as [(e & rest & _ & ->)|(rest & _ & ->)];
    [done|by apply Hbody].
Qed.

(** ** Server-side apply and status patch, field by field *)

Lemma apply_object_result o s : snd (apply_object o s) = Ok tt.
Proof. unfold apply_object. by repeat case_match. Qed.

Lemma apply_object_faults o s : faults (fst (apply_object o s)) = faults s.
Proof. unfold apply_object. by repeat case_match. Qed.

Lemma apply_object_pgadmins o s : pgadmins (fst (apply_object o s)) = pgadmins s.
Proof. unfold apply_object. by repeat case_match. Qed.

Lemma apply_object_clusters o s : clusters (fst (apply_object o s)) = clusters s.
Proof. unfold apply_object. by repeat case_match. Qed.

Lemma content_with_meta_rv o rv : content (with_meta o (with_resourceVersion (obj_meta o) rv)) = content o.
Proof. reflexivity. Qed.

(** After an apply the object's key holds the applied content. *)
Lemma apply_object_lookup o s :
  exists o', objects (fst (apply_object o s)) !! ObjectKey o = Some o' /\ content o' = content o.
Proof.
  unfold apply_object. destruct (objects s !! ObjectKey o) as [cur|] eqn:Hcur.
  - case_bool_decide as Heq; simpl.
    + by exists cur.
    + rewrite lookup_insert_eq. by eexists.
  - simpl. rewrite lookup_insert_eq. by eexists.
Qed.

Lemma apply_object_other o s k :
  k <> ObjectKey o -> objects (fst (apply_object o s)) !! k = objects s !! k.
Proof.
  intros Hk. unfold apply_object.
  destruct (objects s !! ObjectKey o); [case_bool_decide|]; simpl; [done| |];
    by rewrite lookup_insert_ne.
Qed.

(** Applying what is stored writes nothing. *)
Lemma apply_object_noop o o' s :
  objects s !! ObjectKey o = Some o' -> content o' = content o -> apply_object o s = (s, Ok tt).
Proof. intros Hk Heq. unfold apply_object. rewrite Hk. by rewrite bool_decide_eq_true_2. Qed.

Lemma patch_status_faults b a s : faults (fst (patch_status b a s)) = faults s.
Proof. unfold patch_status. by repeat case_match. Qed.

Lemma patch_status_objects b a s : objects (fst (patch_status b a s)) = objects s.
Proof. unfold patch_status. by repeat case_match. Qed.

Lemma patch_status_clusters b a s : clusters (fst (patch_status b a s)) = clusters s.
Proof. unfold patch_status. by repeat case_match. Qed.

#[export] Hint Resolve apply_object_wf patch_status_wf : pgo.
#[export] Hint Rewrite apply_object_faults apply_object_pgadmins apply_object_clusters
  patch_status_faults patch_status_objects patch_status_clusters : pgo_rw.

(** Every call of the API server preserves well-formedness: whatever
    the fault script, objects stay stored under their own namespaced name. *)
Theorem run_call_wf c s : wf s -> wf (run_call c s).
Proof.
  intros Hwf. destruct c; cbn [run_call]; apply request_wf; try done;
    intros s' Hs'.
  - unfold get_pgadmin. by destruct (_ !! _).
  - unfold get_cluster. by destruct (_ !! _).
  - eauto with pgo.
  - eauto with pgo.
Qed.

End apiserver.
