(* ===== verification/Scenarios.v ===== *)
(** * Concrete objects and server states

    The scenario of the specification (sect. 8): the PGAdmin [ns/alpha]
    names the clusters [db1] and [db2] in two server groups and selects the
    clusters labelled [team=a] in a third; [db3] lives in another namespace.
    The states below are the inputs at which the theorems of the other
    files are applied. *)

From S2P Require Import Prelude Api Config Client.
From Stdlib Require Import ZArith.

Open Scope string_scope.

Module scenarios.
Import apiserver.

Definition meta (ns nm : string) (gen : Z) (lbls : gmap string string) : ObjectMeta :=
  {| namespace := ns; name := nm; uid := "uid-" ++ nm; generation := gen;
     resourceVersion := 1; labels := lbls; ownerReferences := [] |}.

Definition byName (group cluster : string) : ServerGroup :=
  {| sg_name := group; sg_postgresClusterName := cluster;
     sg_postgresClusterSelector := {| matchLabels := ∅ |} |}.

Definition bySelector (group : string) (sel : gmap string string) : ServerGroup :=
  {| sg_name := group; sg_postgresClusterName := "";
     sg_postgresClusterSelector := {| matchLabels := sel |} |}.

Definition alpha : PGAdmin :=
  {| pa_typeMeta := {| apiVersion := ""; kind := "" |};
     pa_meta := meta "ns" "alpha" 2 ∅;
     pa_spec := {| pa_image := None;
                   pa_serverGroups := [byName "first" "db1"; byName "second" "db2";
                                       bySelector "team" {["team" := "a"]}];
                   pa_dataVolumeClaimSpec := "1Gi" |};
     pa_status := {| observedGeneration := 1; conditions := [] |} |}.

Definition emptyClusterSpec : PostgresClusterSpec :=
  {| pc_image := ""; pc_postgresVersion := 16; pc_postGISVersion := "";
     pc_backups := {| pgBackRest := {| pgbackrest_image := "" |} |};
     pc_userInterface := None; pc_proxy := None; pc_monitoring := None |}.

Definition cluster (ns nm : string) (lbls : gmap string string) : PostgresCluster :=
  {| pc_meta := meta ns nm 1 lbls; pc_spec := emptyClusterSpec;
     pc_status := {| pc_registrationRequired := None |} |}.

Definition db1 := cluster "ns" "db1" ∅.
Definition db2 := cluster "ns" "db2" ∅.
Definition db4 := cluster "ns" "db4" {["team" := "a"]}.
Definition db3 := cluster "other" "db3" {["team" := "a"]}.

(** db4 after its [team] label changed from [a] to [b]. *)
Definition db4relabelled := cluster "ns" "db4" {["team" := "b"]}.

Definition keyOf (c : PostgresCluster) : NamespacedName := ObjectKeyFromMeta (pc_meta c).

Definition alphaKey : NamespacedName := ObjectKeyFromMeta (pa_meta alpha).

Definition alphaRequest : Request := {| req_namespacedName := alphaKey |}.

(** A server holding the PGAdmins [ps] and the four clusters, with a fault
    script. *)
Definition serverWith (ps : list PGAdmin) (fs : list (option error)) : ApiServer :=
  {| pgadmins := list_to_map ((fun p => (ObjectKeyFromMeta (pa_meta p), p)) <$> ps);
     clusters := list_to_map [(keyOf db1, db1); (keyOf db2, db2);
                              (keyOf db3, db3); (keyOf db4, db4)];
     objects := ∅; faults := fs |}.

Definition server (fs : list (option error)) : ApiServer := serverWith [alpha] fs.

(** alpha once its generation has been observed. *)
Definition alphaObserved : PGAdmin :=
  with_status alpha {| observedGeneration := 2; conditions := [] |}.

(** The environment of an operator image built for disconnected installs. *)
Definition env0 : Env := {["RELATED_IMAGE_STANDALONE_PGADMIN" := "pgadmin4:8"]}.

Definition conflict : error := StatusError Conflict "the object has been modified".

End scenarios.
