(* ===== verification/Resolver.v ===== *)
(** * Which clusters a PGAdmin selects

    A [PGAdmin] lists server groups; a group names one [PostgresCluster] of
    the PGAdmin's namespace, or else selects the clusters of that namespace
    whose labels match its selector (the empty selector matches all).
    [serverGroupSelects] and [pgadminSelects] are that predicate; the
    resolver [getClustersForPGAdmin] loads the clusters of every group
    through the client, and the watch mapper (file [Watch]) evaluates the
    same predicate on the cluster of an event.  The resolver is not under
    [src/]: it is modelled from the specification, sect. 4.1 and 4.2. *)

From S2P Require Import Prelude Api Client Scenarios.
From Stdlib Require Import ZArith.

Open Scope string_scope.

Module resolver.

Definition serverGroupSelects (sg : ServerGroup) (c : PostgresCluster) : bool :=
  if String.eqb (sg_postgresClusterName sg) "" then
    selector_matches (sg_postgresClusterSelector sg) (labels (pc_meta c))
  else String.eqb (sg_postgresClusterName sg) (name (pc_meta c)).

Definition pgadminSelects (p : PGAdmin) (c : PostgresCluster) : bool :=
  String.eqb (namespace (pa_meta p)) (namespace (pc_meta c)) &&
  existsb (fun sg => serverGroupSelects sg c) (pa_serverGroups (pa_spec p)).

Section Resolve.
Context {S : Type} `{!Client S}.

(** The clusters of one server group: a Get of the named cluster (a
    missing one gives no cluster), or a List with the group's selector. *)
Definition clustersForServerGroup (p : PGAdmin) (sg : ServerGroup)
  : StM S error (list PostgresCluster) :=
  let ns := namespace (pa_meta p) in
  if String.eqb (sg_postgresClusterName sg) "" then
    ListClusters ns (sg_postgresClusterSelector sg)
  else fun s =>
    match GetCluster {| nn_namespace := ns; nn_name := sg_postgresClusterName sg |} s with
    | (s', Ok c) => (s', Ok [c])
    | (s', Err e) => if IsNotFound e then (s', Ok []) else (s', Err e)
    end.

(** [map[string]*PostgresClusterList] keyed by server group name, filled
    group by group; the first failing call aborts the resolution. *)
Fixpoint getClustersForGroups (p : PGAdmin) (groups : list ServerGroup)
         (acc : gmap string (list PostgresCluster))
  : StM S error (gmap string (list PostgresCluster)) :=
  match groups with
  | [] => st_ret acc
  | sg :: rest =>
      st_bind (clustersForServerGroup p sg) (fun l =>
      getClustersForGroups p rest (<[sg_name sg := l]> acc))
  end.

Definition getClustersForPGAdmin (p : PGAdmin)
  : StM S error (gmap string (list PostgresCluster)) :=
  getClustersForGroups p (pa_serverGroups (pa_spec p)) ∅.
End Resolve.

(** ** The resolver on a healthy API server *)

Import apiserver.

(** What the calls of one server group return on a healthy server. *)
Definition resolveGroup (s : ApiServer) (p : PGAdmin) (sg : ServerGroup)
  : list PostgresCluster :=
  let ns := namespace (pa_meta p) in
  if String.eqb (sg_postgresClusterName sg) "" then
    List.filter (fun c => String.eqb (namespace (pc_meta c)) ns &&
                          selector_matches (sg_postgresClusterSelector sg) (labels (pc_meta c)))
                (map snd (map_to_list (clusters s)))
  else match clusters s !! {| nn_namespace := ns; nn_name := sg_postgresClusterName sg |} with
       | Some c => [c]
       | None => []
       end.

Definition resolution (s : ApiServer) (p : PGAdmin) (groups : list ServerGroup)
           (acc : gmap string (list PostgresCluster)) : gmap string (list PostgresCluster) :=
  fold_left (fun acc sg => <[sg_name sg := resolveGroup s p sg]> acc) groups acc.

Lemma clustersForServerGroup_healthy s p sg :
  healthy s -> clustersForServerGroup p sg s = (s, Ok (resolveGroup s p sg)).
Proof.
  intros Hh. unfold clustersForServerGroup, resolveGroup.
  destruct (String.eqb _ "").
  - simpl. by rewrite request_healthy.
  - simpl. rewrite request_healthy by done. unfold get_cluster.
    by destruct (clusters s !! _).
Qed.

Lemma getClustersForGroups_healthy s p groups acc :
  healthy s ->
  getClustersForGroups p groups acc s = (s, Ok (resolution s p groups acc)).
Proof.
  intros Hh. revert acc. induction groups as [|sg rest IH]; intros acc; [done|].
  simpl. unfold st_bind. rewrite clustersForServerGroup_healthy by done. apply IH.
Qed.

(** Clusters found by a server group are stored, in the PGAdmin's
    namespace, and selected by the group. *)
Lemma elem_of_resolveGroup s p sg c :
  wf s ->
  c ∈ resolveGroup s p sg <->
  clusters s !! ObjectKeyFromMeta (pc_meta c) = Some c /\
  namespace (pc_meta c) = namespace (pa_meta p) /\ serverGroupSelects sg c = true.
Proof.
  intros (_ & Hc & _). unfold resolveGroup, serverGroupSelects.
  destruct (String.eqb_spec (sg_postgresClusterName sg) "") as [Hn|Hn].
  - rewrite elem_of_filter_bool, andb_true_iff, String.eqb_eq.
    rewrite list_elem_of_In, in_map_iff. setoid_rewrite <-list_elem_of_In. split.
    + intros [([k c'] & Heq & Hk) [Hns Hsel]]. simpl in Heq. subst c'.
      apply elem_of_map_to_list in Hk.
      pose proof (Hc _ _ Hk) as Hkey. simpl in Hkey. subst k. done.
    + intros (Hk & Hns & Hsel). split; [|done]. exists (ObjectKeyFromMeta (pc_meta c), c).
      split; [done|]. by apply elem_of_map_to_list.
  - rewrite String.eqb_eq.
    destruct (clusters s !! _) as [c'|] eqn:Hk.
    + pose proof (Hc _ _ Hk) as Hkey. unfold ObjectKeyFromMeta in Hkey.
      injection Hkey as Hns Hnm. rewrite list_elem_of_singleton. split.
      * intros Heq. subst c. split_and!; [|done|done].
        unfold ObjectKeyFromMeta. by rewrite Hns, Hnm.
      * intros (Hc' & Hns' & Hnm'). unfold ObjectKeyFromMeta in Hc'.
        rewrite Hns', <-Hnm', Hk in Hc'. congruence.
    + split; [by intros ?%not_elem_of_nil|].
      intros (Hc' & Hns' & Hnm'). unfold ObjectKeyFromMeta in Hc'.
      rewrite Hns', <-Hnm', Hk in Hc'. congruence.
Qed.

Lemma resolution_lookup s p groups acc g :
  NoDup (sg_name <$> groups) ->
  resolution s p groups acc !! g =
    match List.find (fun sg => String.eqb (sg_name sg) g) groups with
    | Some sg => Some (resolveGroup s p sg)
    | None => acc !! g
    end.
Proof.
  unfold resolution. revert acc. induction groups as [|sg rest IH]; intros acc; [done|].
  simpl. intros [Hnot Hnd]%NoDup_cons. rewrite IH by done.
  destruct (String.eqb_spec (sg_name sg) g) as [<-|Hne].
  - by rewrite find_key_none, lookup_insert_eq.
  - destruct (List.find _ rest); [done|]. by rewrite lookup_insert_ne.
Qed.

(** The clusters of the resolution of the server groups of [p] are the
    stored clusters [p] selects, when the groups have distinct names. *)
Lemma elem_of_resolution s p c :
  wf s -> NoDup (sg_name <$> pa_serverGroups (pa_spec p)) ->
  (exists g cs, resolution s p (pa_serverGroups (pa_spec p)) ∅ !! g = Some cs /\ c ∈ cs) <->
  clusters s !! ObjectKeyFromMeta (pc_meta c) = Some c /\ pgadminSelects p c = true.
Proof.
  intros Hwf Hnd.
  unfold pgadminSelects. rewrite andb_true_iff, String.eqb_eq, existsb_true_iff. split.
  - intros (g & cs & Hg & Hc). rewrite resolution_lookup in Hg by done.
    destruct (List.find _ _) as [sg|] eqn:Hf; [|done]. injection Hg as <-.
    apply find_some in Hf as [Hsg _]. apply elem_of_resolveGroup in Hc as (Hk & Hns & Hsel);
      [|done].
    split_and!; [done|done|]. exists sg. split; [by apply list_elem_of_In|done].
  - intros (Hk & Hns & sg & Hsg & Hsel).
    exists (sg_name sg), (resolveGroup s p sg).
    split; [|by apply elem_of_resolveGroup].
    rewrite resolution_lookup by done.
    destruct (List.find (fun sg' => String.eqb (sg_name sg') (sg_name sg)) _) as [sg'|] eqn:Hf.
    + apply find_some in Hf as [Hsg' Heq%String.eqb_eq]. apply list_elem_of_In in Hsg'.
      by rewrite (NoDup_fmap_eq _ _ _ _ Hnd Hsg' Hsg Heq).
    + exfalso. apply find_none with (x := sg) in Hf; [|by apply list_elem_of_In].
      by rewrite String.eqb_refl in Hf.
Qed.

(** C15: on a healthy, well-formed server, and when the server groups have
    distinct names, the clusters [getClustersForPGAdmin] resolves for [p] are
    exactly the stored clusters that [p] selects. *)
Theorem getClustersForPGAdmin_selects s p c :
  healthy s -> wf s -> NoDup (sg_name <$> pa_serverGroups (pa_spec p)) ->
  (exists clusters g cs,
     getClustersForPGAdmin p s = (s, Ok clusters) /\ clusters !! g = Some cs /\ c ∈ cs) <->
  clusters s !! ObjectKeyFromMeta (pc_meta c) = Some c /\ pgadminSelects p c = true.
Proof.
  intros Hh Hwf Hnd. unfold getClustersForPGAdmin.
  rewrite getClustersForGroups_healthy, <-elem_of_resolution by done. split.
  - intros (cl & g & cs & [= <-] & Hg & Hc). eauto.
  - intros (g & cs & Hg & Hc). by exists (resolution s p (pa_serverGroups (pa_spec p)) ∅), g, cs.
Qed.

Import scenarios.

Lemma getClustersForPGAdmin_selects_witness :
  healthy (server []) /\ wf (server []) /\
  NoDup (sg_name <$> pa_serverGroups (pa_spec alpha)) /\
  ((exists clusters g cs,
      getClustersForPGAdmin alpha (server []) = (server [], Ok clusters) /\
      clusters !! g = Some cs /\ db4 ∈ cs) <->
   clusters (server []) !! ObjectKeyFromMeta (pc_meta db4) = Some db4 /\
   pgadminSelects alpha db4 = true).
Proof.
  assert (Hh : healthy (server [])) by reflexivity.
  assert (Hwf : wf (server [])) by (apply (bool_decide_eq_true (wf _)); vm_compute; reflexivity).
  assert (Hnd : NoDup (sg_name <$> pa_serverGroups (pa_spec alpha)))
    by (apply (bool_decide_eq_true (NoDup _)); vm_compute; reflexivity).
  split_and!; [exact Hh | exact Hwf | exact Hnd |].
  exact (getClustersForPGAdmin_selects (server []) alpha db4 Hh Hwf Hnd).
Defined.

End resolver.
