(* ===== verification/Builders.v ===== *)
(** * Dependent resources: owner references, builders and apply steps

    [setControllerReference] (controller.go) delegates to
    controller-runtime's [controllerutil.SetControllerReference], modelled
    here as that function behaves: the owner must be cluster-scoped or in
    the object's namespace, an object already controlled by another owner is
    refused with an [AlreadyOwnedError], and otherwise the controller
    reference is inserted or replaces the reference to the same owner.

    The builders and the four reconcile steps are not under [src/]; they are
    modelled from the specification (sect. 2, 3 and 4.1): each builder is a
    pure function of the [PGAdmin] (and of the resolved clusters, for the
    config map), and each step sets the controller reference on the built
    intent and applies it with one server-side apply.  The pgAdmin image
    ([StandalonePGAdminContainerImage]) is resolved before any dependent
    is built, as spec sect. 6 requires: the first step, the Secret's,
    fails with a validation error when it is empty, and the stateful set
    step runs the resolved image. *)

From S2P Require Import Prelude Api Config Client Resolver.

Open Scope string_scope.

Module builders.

(** ** controllerutil.SetControllerReference *)

(** The group [schema.ParseGroupVersion] reads from an [apiVersion]: [""]
    for a string without a slash (the core group), the part before the
    slash for ["group/version"], and an error ([None]) for a string with
    more than one slash. *)
Definition groupOf (apiVersion : string) : option string :=
  match String.index 0 "/" apiVersion with
  | None => Some ""
  | Some i =>
      match String.index (S i) "/" apiVersion with
      | Some _ => None
      | None => Some (String.substring 0 i apiVersion)
      end
  end.

(** [referSameObject]: an [apiVersion] that does not parse refers to no
    object. *)
Definition referSameObject (a b : OwnerReference) : bool :=
  match groupOf (or_apiVersion a), groupOf (or_apiVersion b) with
  | Some ga, Some gb =>
      String.eqb ga gb && String.eqb (or_kind a) (or_kind b) && String.eqb (or_name a) (or_name b)
  | _, _ => false
  end.

(** [metav1.GetControllerOf]. *)
Definition GetControllerOf (m : ObjectMeta) : option OwnerReference :=
  List.find or_controller (ownerReferences m).

(** [upsertOwnerRef]: replace the first reference to the same object, or
    append. *)
Fixpoint upsertOwnerRef (ref : OwnerReference) (owners : list OwnerReference)
  : list OwnerReference :=
  match owners with
  | [] => [ref]
  | o :: rest => if referSameObject o ref then ref :: rest
                 else o :: upsertOwnerRef ref rest
  end.

(** The reference the scheme yields for a [PGAdmin] owner. *)
Definition ownerReference (owner : PGAdmin) : OwnerReference :=
  {| or_apiVersion := GroupVersionString; or_kind := "PGAdmin";
     or_name := name (pa_meta owner); or_uid := uid (pa_meta owner);
     or_controller := true; or_blockOwnerDeletion := true |}.

Definition with_ownerReferences (o : Object) (refs : list OwnerReference) : Object :=
  let m := obj_meta o in
  {| obj_kind := obj_kind o;
     obj_meta := {| namespace := namespace m; name := name m; uid := uid m;
                    generation := generation m; resourceVersion := resourceVersion m;
                    labels := labels m; ownerReferences := refs |};
     obj_data := obj_data o |}.

Definition setControllerReference (owner : PGAdmin) (controlled : Object) : result error Object :=
  let ownerNs := namespace (pa_meta owner) in
  let objNs := namespace (obj_meta controlled) in
  if negb (String.eqb ownerNs "") && String.eqb objNs "" then
    Err (ValidationError "cluster-scoped resource must not have a namespace-scoped owner")
  else if negb (String.eqb ownerNs "") && negb (String.eqb ownerNs objNs) then
    Err (ValidationError "cross-namespace owner references are disallowed")
  else
    let ref := ownerReference owner in
    match GetControllerOf (obj_meta controlled) with
    | Some existing =>
        if negb (referSameObject existing ref) then Err (AlreadyOwnedError (or_name existing))
        else Ok (with_ownerReferences controlled
                   (upsertOwnerRef ref (ownerReferences (obj_meta controlled))))
    | None =>
        Ok (with_ownerReferences controlled
              (upsertOwnerRef ref (ownerReferences (obj_meta controlled))))
    end.

(** ** Builders *)

Definition pgadminLabel : string := "postgres-operator.crunchydata.com/pgadmin".

(** The metadata every dependent of [p] is built with. *)
Definition dependentMeta (p : PGAdmin) : ObjectMeta :=
  {| namespace := namespace (pa_meta p); name := "pgadmin-" ++ name (pa_meta p);
     uid := ""; generation := 0; resourceVersion := 0;
     labels := {[pgadminLabel := name (pa_meta p)]}; ownerReferences := [] |}.

Definition pgadminSecret (p : PGAdmin) : Object :=
  {| obj_kind := Secret; obj_meta := dependentMeta p;
     obj_data := {["owner-uid" := uid (pa_meta p)]} |}.

(** The entry of a cluster in the server list of a group. *)
Definition serverKey (group : string) (c : PostgresCluster) : string :=
  group ++ "/" ++ name (pc_meta c).

Definition serverHost (c : PostgresCluster) : string :=
  name (pc_meta c) ++ "-primary." ++ namespace (pc_meta c) ++ ".svc".

Definition serverEntries (clusters : gmap string (list PostgresCluster))
  : list (string * string) :=
  map_to_list clusters ≫= (fun gcs => (fun c => (serverKey gcs.1 c, serverHost c)) <$> gcs.2).

Definition pgadminConfigMap (p : PGAdmin) (clusters : gmap string (list PostgresCluster))
  : Object :=
  {| obj_kind := ConfigMap; obj_meta := dependentMeta p;
     obj_data := list_to_map (serverEntries clusters) |}.

Definition pgadminDataVolume (p : PGAdmin) : Object :=
  {| obj_kind := PersistentVolumeClaim; obj_meta := dependentMeta p;
     obj_data := {["storage" := pa_dataVolumeClaimSpec (pa_spec p)]} |}.

Definition pgadminStatefulSet (p : PGAdmin) (image : string) (configmap dataVolume : Object)
  : Object :=
  {| obj_kind := StatefulSet; obj_meta := dependentMeta p;
     obj_data := <["image" := image]> (<["configmap" := name (obj_meta configmap)]>
                   {["pvc" := name (obj_meta dataVolume)]}) |}.

(** ** The reconcile steps *)

Section Steps.
Context {S : Type} `{!Client S}.
Variable env : Env.
Variable owner : FieldOwner.

(** Set the controller reference on an intent and apply it. *)
Definition applyIntent (p : PGAdmin) (intent : Object) : StM S error Object :=
  match setControllerReference p intent with
  | Err e => st_fail e
  | Ok obj => st_bind (PatchApply owner obj) (fun _ => st_ret obj)
  end.

(** The first step.  The pgAdmin image is resolved before any dependent
    is built (spec sect. 6 and 7): when it does not resolve, the step fails
    with a validation error and nothing is applied. *)
Definition reconcilePGAdminSecret (p : PGAdmin) : StM S error Object :=
  if String.eqb (config.StandalonePGAdminContainerImage env p) "" then
    st_fail (ValidationError "Missing image: crunchy-pgadmin4")
  else applyIntent p (pgadminSecret p).

Definition reconcilePGAdminConfigMap (p : PGAdmin)
           (clusters : gmap string (list PostgresCluster)) : StM S error Object :=
  applyIntent p (pgadminConfigMap p clusters).

Definition reconcilePGAdminDataVolume (p : PGAdmin) : StM S error Object :=
  applyIntent p (pgadminDataVolume p).

(** The workload set runs the resolved pgAdmin image. *)
Definition reconcilePGAdminStatefulSet (p : PGAdmin) (configmap dataVolume : Object)
  : StM S error unit :=
  st_bind (applyIntent p (pgadminStatefulSet p (config.StandalonePGAdminContainerImage env p)
                            configmap dataVolume))
          (fun _ => st_ret tt).
End Steps.

(** ** Facts on owner references *)

Lemma upsertOwnerRef_controller ref owners :
  or_controller ref = true ->
  (forall o, List.find or_controller owners = Some o -> referSameObject o ref = true) ->
  List.find or_controller (upsertOwnerRef ref owners) = Some ref.
Proof.
  intros Hc. induction owners as [|o rest IH]; intros Hsame; simpl.
  - by rewrite Hc.
  - destruct (referSameObject o ref) eqn:Hs; simpl; [by rewrite Hc|].
    destruct (or_controller o) eqn:Ho.
    + by rewrite (Hsame o) in Hs by (simpl; by rewrite Ho).
    + apply IH. intros o' Ho'. apply Hsame. simpl. by rewrite Ho.
Qed.

Lemma ObjectKey_with_ownerReferences o refs :
  ObjectKey (with_ownerReferences o refs) = ObjectKey o.
Proof. reflexivity. Qed.

(** The namespace check of [SetControllerReference]: a namespaced owner
    may own only objects of its own namespace. *)
Definition ownerNamespaceOk (owner : PGAdmin) (o : Object) : bool :=
  String.eqb (namespace (pa_meta owner)) "" ||
  String.eqb (namespace (obj_meta o)) (namespace (pa_meta owner)).

Lemma setControllerReference_namespace owner o :
  ownerNamespaceOk owner o = true ->
  setControllerReference owner o =
    match GetControllerOf (obj_meta o) with
    | Some ex =>
        if negb (referSameObject ex (ownerReference owner)) then Err (AlreadyOwnedError (or_name ex))
        else Ok (with_ownerReferences o (upsertOwnerRef (ownerReference owner) (ownerReferences (obj_meta o))))
    | None => Ok (with_ownerReferences o (upsertOwnerRef (ownerReference owner) (ownerReferences (obj_meta o))))
    end.
Proof.
  unfold ownerNamespaceOk, setControllerReference.
  destruct (String.eqb_spec (namespace (pa_meta owner)) "") as [->|Hown]; [done|].
  destruct (String.eqb_spec (namespace (obj_meta o)) (namespace (pa_meta owner))) as [Heq|]; [|done].
  intros _. rewrite Heq, String.eqb_refl. simpl. destruct (String.eqb_spec (namespace (pa_meta owner)) "");
    [done|reflexivity].
Qed.

(** C14: [setControllerReference] on every branch.  A namespaced owner and
    a cluster-scoped object, or an object of another namespace, are
    refused with a validation error; otherwise an object whose controller
    is another object is refused with [AlreadyOwnedError] naming it; and
    otherwise the call succeeds, the owner becomes the object's
    controller, and the object keeps its key and its body. *)
Theorem setControllerReference_spec owner o :
  (namespace (pa_meta owner) <> "" -> namespace (obj_meta o) = "" ->
   setControllerReference owner o =
     Err (ValidationError "cluster-scoped resource must not have a namespace-scoped owner")) /\
  (namespace (pa_meta owner) <> "" -> namespace (obj_meta o) <> "" ->
   namespace (obj_meta o) <> namespace (pa_meta owner) ->
   setControllerReference owner o = Err (ValidationError "cross-namespace owner references are disallowed")) /\
  (ownerNamespaceOk owner o = true -> forall ex, GetControllerOf (obj_meta o) = Some ex ->
   referSameObject ex (ownerReference owner) = false ->
   setControllerReference owner o = Err (AlreadyOwnedError (or_name ex))) /\
  (ownerNamespaceOk owner o = true ->
   (forall ex, GetControllerOf (obj_meta o) = Some ex -> referSameObject ex (ownerReference owner) = true) ->
   exists o', setControllerReference owner o = Ok o' /\
     GetControllerOf (obj_meta o') = Some (ownerReference owner) /\
     ObjectKey o' = ObjectKey o /\ obj_data o' = obj_data o).
Proof.
  split_and!.
  - intros Hown Hobj. unfold setControllerReference. rewrite Hobj.
    by destruct (String.eqb_spec (namespace (pa_meta owner)) "").
  - intros Hown Hobj Hne. unfold setControllerReference.
    destruct (String.eqb_spec (namespace (pa_meta owner)) ""); [done|].
    destruct (String.eqb_spec (namespace (obj_meta o)) ""); [done|].
    by destruct (String.eqb_spec (namespace (pa_meta owner)) (namespace (obj_meta o))).
  - intros Hns ex Hex Hs. rewrite setControllerReference_namespace, Hex, Hs by done. done.
  - intros Hns Hsame. rewrite setControllerReference_namespace by done.
    eexists; split; [destruct (GetControllerOf (obj_meta o)) as [ex|] eqn:Hex;
                     [by rewrite (Hsame ex eq_refl)|done]|].
    split_and!; [|done|done]. apply upsertOwnerRef_controller; [done|].
    intros ex Hex. apply Hsame. exact Hex.
Qed.

(** A PGAdmin in namespace ns and a ConfigMap of another namespace. *)
Lemma setControllerReference_spec_witness :
  setControllerReference
    {| pa_typeMeta := {| apiVersion := ""; kind := "" |};
       pa_meta := {| namespace := "ns"; name := "alpha"; uid := "u"; generation := 1;
                     resourceVersion := 1; labels := ∅; ownerReferences := [] |};
       pa_spec := {| pa_image := None; pa_serverGroups := []; pa_dataVolumeClaimSpec := "" |};
       pa_status := {| observedGeneration := 0; conditions := [] |} |}
    {| obj_kind := ConfigMap;
       obj_meta := {| namespace := "other"; name := "cm"; uid := ""; generation := 0;
                      resourceVersion := 0; labels := ∅; ownerReferences := [] |};
       obj_data := ∅ |} =
  Err (ValidationError "cross-namespace owner references are disallowed").
Proof. apply (proj1 (proj2 (setControllerReference_spec _ _))); discriminate. Defined.

(** The intents the builders produce have no owner reference yet and live
    in the owner's namespace, so the controller reference is always set. *)
Lemma setControllerReference_intent owner intent :
  ownerReferences (obj_meta intent) = [] ->
  namespace (obj_meta intent) = namespace (pa_meta owner) ->
  setControllerReference owner intent =
    Ok (with_ownerReferences intent [ownerReference owner]).
Proof.
  intros Hrefs Hns. unfold setControllerReference, GetControllerOf.
  rewrite Hrefs, Hns, String.eqb_refl. simpl.
  by destruct (String.eqb (namespace (pa_meta owner)) "").
Qed.

(** ** Facts on the config map *)

Lemma elem_of_serverEntries clusters k v :
  (k, v) ∈ serverEntries clusters <->
  exists g cs c, clusters !! g = Some cs /\ c ∈ cs /\ k = serverKey g c /\ v = serverHost c.
Proof.
  unfold serverEntries. rewrite list_elem_of_bind. split.
  - intros ([g cs] & Hkv & Hgcs). apply elem_of_map_to_list in Hgcs.
    apply list_elem_of_fmap in Hkv as (c & [= -> ->] & Hc). eauto 8.
  - intros (g & cs & c & Hg & Hc & -> & ->). exists (g, cs). split.
    + apply list_elem_of_fmap. by exists c.
    + by apply elem_of_map_to_list.
Qed.

(** The config map lists exactly the resolved clusters: every resolved
    cluster of every server group has an entry, and every entry is the host
    of a resolved cluster of some group. *)
Theorem pgadminConfigMap_servers p clusters :
  (forall g cs c, clusters !! g = Some cs -> c ∈ cs ->
     is_Some (obj_data (pgadminConfigMap p clusters) !! serverKey g c)) /\
  (forall k v, obj_data (pgadminConfigMap p clusters) !! k = Some v ->
     exists g cs c, clusters !! g = Some cs /\ c ∈ cs /\
                    k = serverKey g c /\ v = serverHost c).
Proof.
  simpl. split.
  - intros g cs c Hg Hc. apply not_eq_None_Some. intros Hnone.
    apply not_elem_of_list_to_map in Hnone. apply Hnone.
    apply list_elem_of_fmap. exists (serverKey g c, serverHost c). split; [done|].
    apply elem_of_serverEntries. eauto 8.
  - intros k v Hkv. apply elem_of_list_to_map_2, elem_of_serverEntries in Hkv. done.
Qed.

End builders.
