(* ===== verification/Reconcile.v ===== *)
(** * The reconciler ([Reconcile] in controller.go)

    [Reconcile] is translated line by line: the [Get] whose error is passed
    through [IgnoreNotFound]; the [before] copy; the deferred function that
    compares the statuses and issues [Status().Patch]; [Default]; the chain
    of [if err == nil] steps; the update of [ObservedGeneration]; and the
    [return ctrl.Result{}, err].  The function's results are unnamed, so
    the [return] statement fixes the returned error before the deferred
    function runs: the deferred assignment [err = statusErr] changes only
    the local variable.  [deferStatusPatch] returns that local variable,
    and [Reconcile] does not use it.

    [pipeline] is the reference definition: the five steps composed with
    the bind of the state/result monad.  The theorems, proved for every
    implementation of the [Client] interface, show that [Reconcile] is the
    pipeline followed by the status write (an equivalence), how a failed
    [Get] is answered, that a failing pass patches nothing and returns its
    first error, that a successful pass writes [observedGeneration], that no
    patch is issued when the status did not change, and that a failed status
    patch after a successful pipeline is logged but not returned. *)

From S2P Require Import Prelude Api Config Client Scenarios Resolver Builders.

Open Scope string_scope.

Module standalone_pgadmin.
Import builders resolver.

(** [PGAdminReconciler]; [Reconcile] uses its client and its [Owner]
    (the [Recorder] and [Scheme] fields are not read on this path). *)
Record PGAdminReconciler := { Owner : FieldOwner }.

Definition reconciler0 : PGAdminReconciler := {| Owner := "postgres-operator" |}.

Inductive LogEntry :=
| LogInfo (msg : string)
| LogError (err : error) (msg : string).

#[export] Instance LogEntry_eq_dec : EqDecision LogEntry.
Proof. solve_decision. Defined.

(** What [Reconcile] returns, with the messages it logged. *)
Record Outcome := {
  out_result : Result;
  out_err : option error;
  out_log : list LogEntry }.

#[export] Instance Outcome_eq_dec : EqDecision Outcome.
Proof. solve_decision. Defined.

Definition ok_value {E A} (r : result E A) : option A :=
  match r with Ok a => Some a | Err _ => None end.

Section Reconciler.
Context {S : Type} `{!Client S}.
Variable env : Env.
Variable r : PGAdminReconciler.

(** The deferred function of [Reconcile]: it returns the new value of the
    local [err] and the messages it logged. *)
Definition deferStatusPatch (before pgAdmin : PGAdmin) (err : option error) (s : S)
  : S * (option error * list LogEntry) :=
  if bool_decide (pa_status before = pa_status pgAdmin) then (s, (err, []))
  else
    let '(s', res) := StatusPatch (Owner r) before pgAdmin s in
    let statusErr := err_of res in
    let log := match statusErr with
               | Some e => [LogError e "Patching PGAdmin status"]
               | None => []
               end in
    let err := match err with None => statusErr | Some _ => err end in
    (s', (err, log)).

Definition Reconcile (req : Request) (s : S) : S * Outcome :=
  match Get (req_namespacedName req) s with
  | (s, Err e) =>
      (s, {| out_result := EmptyResult; out_err := IgnoreNotFound (Some e);
             out_log := [] |})
  | (s, Ok fetched) =>
      let before := fetched in
      let log := [LogInfo "Reconciling pgAdmin"] in
      let pgAdmin := Default fetched in
      let '(s, r1) := reconcilePGAdminSecret env (Owner r) pgAdmin s in
      let err := err_of r1 in
      let '(s, clusters, err) :=
        match err with
        | None => let '(s, r2) := getClustersForPGAdmin pgAdmin s in
                  (s, default ∅ (ok_value r2), err_of r2)
        | Some _ => (s, ∅, err)
        end in
      let '(s, configmap, err) :=
        match err with
        | None => let '(s, r3) := reconcilePGAdminConfigMap (Owner r) pgAdmin clusters s in
                  (s, ok_value r3, err_of r3)
        | Some _ => (s, None, err)
        end in
      let '(s, dataVolume, err) :=
        match err with
        | None => let '(s, r4) := reconcilePGAdminDataVolume (Owner r) pgAdmin s in
                  (s, ok_value r4, err_of r4)
        | Some _ => (s, None, err)
        end in
      (* [configmap] and [dataVolume] are set whenever [err] is nil here *)
      let '(s, err) :=
        match err, configmap, dataVolume with
        | None, Some cm, Some dv =>
            let '(s, r5) := reconcilePGAdminStatefulSet env (Owner r) pgAdmin cm dv s in
            (s, err_of r5)
        | _, _, _ => (s, err)
        end in
      let '(pgAdmin, log) :=
        match err with
        | None =>
            (with_status pgAdmin (set_observedGeneration (pa_status pgAdmin)
                                    (generation (pa_meta pgAdmin))),
             (log ++ [LogInfo "reconciled cluster"])%list)
        | Some _ => (pgAdmin, log)
        end in
      (* return ctrl.Result{}, err; then the deferred function runs *)
      let returned := err in
      let '(s, (_, deferred_log)) := deferStatusPatch before pgAdmin err s in
      (s, {| out_result := EmptyResult; out_err := returned;
             out_log := (log ++ deferred_log)%list |})
  end.

(** ** Reference definition: the steps in the state/result monad *)

Local Open Scope go_scope.

Definition pipeline (pgAdmin : PGAdmin) : StM S error unit :=
  _ <- reconcilePGAdminSecret env (Owner r) pgAdmin ;;
  clusters <- getClustersForPGAdmin pgAdmin ;;
  configmap <- reconcilePGAdminConfigMap (Owner r) pgAdmin clusters ;;
  dataVolume <- reconcilePGAdminDataVolume (Owner r) pgAdmin ;;
  reconcilePGAdminStatefulSet env (Owner r) pgAdmin configmap dataVolume.

(** The in-memory object at the end of a pass that ended with [err]. *)
Definition finalPGAdmin (fetched : PGAdmin) (err : option error) : PGAdmin :=
  let pgAdmin := Default fetched in
  match err with
  | None => with_status pgAdmin (set_observedGeneration (pa_status pgAdmin)
                                   (generation (pa_meta pgAdmin)))
  | Some _ => pgAdmin
  end.

Definition passLog (err : option error) : list LogEntry :=
  ([LogInfo "Reconciling pgAdmin"] ++
  match err with None => [LogInfo "reconciled cluster"] | Some _ => [] end)%list.
End Reconciler.

(** ** Reconcile against any client *)

Section Properties.
Context {S : Type} `{!Client S}.
Context (env : Env) (r : PGAdminReconciler).

(** The equation of [Reconcile]: the [Get], then the pipeline on the
    defaulted object and the deferred status write. *)
Lemma Reconcile_unfold req s :
  Reconcile env r req s =
    match Get (req_namespacedName req) s with
    | (s1, Err e) =>
        (s1, {| out_result := EmptyResult; out_err := IgnoreNotFound (Some e); out_log := [] |})
    | (s1, Ok fetched) =>
        let '(s2, res) := pipeline env r (Default fetched) s1 in
        let err := err_of res in
        let '(s3, (_, dlog)) := deferStatusPatch r fetched (finalPGAdmin fetched err) err s2 in
        (s3, {| out_result := EmptyResult; out_err := err;
                out_log := (passLog err ++ dlog)%list |})
    end.
Proof.
  unfold Reconcile, pipeline, st_bind.
  destruct (Get (req_namespacedName req) s) as [s1 [fetched|e]]; [|reflexivity].
  destruct (reconcilePGAdminSecret env (Owner r) (Default fetched) s1) as [s2 [o1|e1]];
    [|reflexivity].
  simpl.
  destruct (getClustersForPGAdmin (Default fetched) s2) as [s3 [cl|e2]]; [|reflexivity].
  simpl.
  destruct (reconcilePGAdminConfigMap (Owner r) (Default fetched) cl s3) as [s4 [cm|e3]];
    [|reflexivity].
  simpl.
  destruct (reconcilePGAdminDataVolume (Owner r) (Default fetched) s4) as [s5 [dv|e4]];
    [|reflexivity].
  simpl.
  destruct (reconcilePGAdminStatefulSet env (Owner r) (Default fetched) cm dv s5)
    as [s6 [[]|e5]]; reflexivity.
Qed.

(** C1: on every client, once the [Get] succeeded, [Reconcile] runs the
    fail-fast pipeline of the five steps on the defaulted object, returns
    the pipeline's error, and then runs the deferred status write on the
    object whose [observedGeneration] was set exactly when the pipeline
    succeeded. *)
Theorem Reconcile_pipeline req s s1 fetched :
  Get (req_namespacedName req) s = (s1, Ok fetched) ->
  Reconcile env r req s =
    let '(s2, res) := pipeline env r (Default fetched) s1 in
    let err := err_of res in
    let '(s3, (_, dlog)) := deferStatusPatch r fetched (finalPGAdmin fetched err) err s2 in
    (s3, {| out_result := EmptyResult; out_err := err;
            out_log := (passLog err ++ dlog)%list |}).
Proof. intros HG. rewrite Reconcile_unfold, HG. reflexivity. Qed.

Lemma deferStatusPatch_unchanged before p err s :
  pa_status before = pa_status p ->
  deferStatusPatch r before p err s = (s, (err, [])).
Proof. intros Heq. unfold deferStatusPatch. by rewrite bool_decide_eq_true_2. Qed.

Lemma deferStatusPatch_changed before p err s :
  pa_status before <> pa_status p ->
  deferStatusPatch r before p err s =
    let '(s', res) := StatusPatch (Owner r) before p s in
    (s', (match err with None => err_of res | Some _ => err end,
          match err_of res with
          | Some e => [LogError e "Patching PGAdmin status"] | None => [] end)).
Proof. intros Hne. unfold deferStatusPatch. by rewrite bool_decide_eq_false_2. Qed.

Lemma finalPGAdmin_status_failed fetched e :
  pa_status (finalPGAdmin fetched (Some e)) = pa_status fetched.
Proof. reflexivity. Qed.

Lemma finalPGAdmin_status_ok fetched :
  pa_status (finalPGAdmin fetched None) =
  set_observedGeneration (pa_status fetched) (generation (pa_meta fetched)).
Proof. reflexivity. Qed.

Lemma set_observedGeneration_same st g :
  set_observedGeneration st g = st <-> observedGeneration st = g.
Proof.
  destruct st as [og cs]; unfold set_observedGeneration; simpl.
  split; [by intros [= ->] | by intros ->].
Qed.

(** C2: a pass whose pipeline fails returns that error, writes no status
    (so [observedGeneration] keeps its stored value), and issues no
    client call after the failing one. *)
Theorem Reconcile_failed_pass req s s1 s2 fetched e :
  Get (req_namespacedName req) s = (s1, Ok fetched) ->
  pipeline env r (Default fetched) s1 = (s2, Err e) ->
  Reconcile env r req s =
    (s2, {| out_result := EmptyResult; out_err := Some e;
            out_log := [LogInfo "Reconciling pgAdmin"] |}).
Proof.
  intros HG HP. rewrite Reconcile_unfold, HG, HP. cbn [err_of].
  rewrite deferStatusPatch_unchanged by done. reflexivity.
Qed.

(** C3: a pass whose pipeline succeeds returns [nil] and, when the stored
    [observedGeneration] differs from the generation, ends with exactly one
    status patch from the fetched copy to the copy whose
    [observedGeneration] is the generation read at entry. *)
Theorem Reconcile_successful_pass req s s1 s2 fetched :
  Get (req_namespacedName req) s = (s1, Ok fetched) ->
  pipeline env r (Default fetched) s1 = (s2, Ok tt) ->
  observedGeneration (pa_status fetched) <> generation (pa_meta fetched) ->
  fst (Reconcile env r req s) =
    fst (StatusPatch (Owner r) fetched
           (with_status (Default fetched)
              (set_observedGeneration (pa_status fetched) (generation (pa_meta fetched))))
           s2) /\
  out_err (snd (Reconcile env r req s)) = None.
Proof.
  intros HG HP Hne. rewrite Reconcile_unfold, HG, HP. cbn [err_of].
  rewrite deferStatusPatch_changed.
  - simpl. by destruct (StatusPatch _ _ _ _).
  - rewrite finalPGAdmin_status_ok. intros Heq. symmetry in Heq.
    by apply set_observedGeneration_same in Heq.
Qed.

(** C4: no spurious status write: when the pipeline succeeds and the
    stored [observedGeneration] already equals the generation, the pass
    ends in the state the pipeline left and returns [nil]. *)
Theorem Reconcile_converged_no_patch req s s1 s2 fetched :
  Get (req_namespacedName req) s = (s1, Ok fetched) ->
  pipeline env r (Default fetched) s1 = (s2, Ok tt) ->
  observedGeneration (pa_status fetched) = generation (pa_meta fetched) ->
  Reconcile env r req s =
    (s2, {| out_result := EmptyResult; out_err := None; out_log := passLog None |}).
Proof.
  intros HG HP Heq. rewrite Reconcile_unfold, HG, HP. cbn [err_of].
  rewrite deferStatusPatch_unchanged; [by rewrite app_nil_r|].
  rewrite finalPGAdmin_status_ok. symmetry. by apply set_observedGeneration_same.
Qed.

(** C5: a status patch that fails after a successful pipeline is logged
    and not returned: [Reconcile] reports [nil] although the new
    [observedGeneration] was not written.  (The deferred function assigns
    the local [err], which the unnamed result of [Reconcile] no longer
    reads.) *)
Theorem Reconcile_status_error_dropped req s s1 s2 s3 fetched e :
  Get (req_namespacedName req) s = (s1, Ok fetched) ->
  pipeline env r (Default fetched) s1 = (s2, Ok tt) ->
  observedGeneration (pa_status fetched) <> generation (pa_meta fetched) ->
  StatusPatch (Owner r) fetched (finalPGAdmin fetched None) s2 = (s3, Err e) ->
  Reconcile env r req s =
    (s3, {| out_result := EmptyResult; out_err := None;
            out_log := (passLog None ++ [LogError e "Patching PGAdmin status"])%list |}).
Proof.
  intros HG HP Hne HS. rewrite Reconcile_unfold, HG, HP. cbn [err_of].
  rewrite deferStatusPatch_changed, HS; [reflexivity|].
  rewrite finalPGAdmin_status_ok. intros Heq. symmetry in Heq.
  by apply set_observedGeneration_same in Heq.
Qed.

(** C12: a failed [Get] ends the pass before any other call: a NotFound
    error is answered with success and no requeue, any other error is
    returned for a retry. *)
Theorem Reconcile_get_failed req s s1 e :
  Get (req_namespacedName req) s = (s1, Err e) ->
  Reconcile env r req s =
    (s1, {| out_result := EmptyResult;
            out_err := if IsNotFound e then None else Some e; out_log := [] |}).
Proof. intros HG. unfold Reconcile. by rewrite HG. Qed.

End Properties.

(** ** The theorems at the scenario of the specification *)

Import scenarios apiserver.

Definition unavailable : error := StatusError ServiceUnavailable "etcd leader changed".

(** The states of a pass on [server] whose status patch fails. *)
Definition faultyStatus : list (option error) := replicate 8 None ++ [Some unavailable].
Definition faultyAfterGet : ApiServer := fst (Get alphaKey (server faultyStatus)).
Definition faultyAfterPipeline : ApiServer :=
  fst (pipeline env0 reconciler0 (Default alpha) faultyAfterGet).
Definition healthyAfterPipeline : ApiServer :=
  fst (pipeline env0 reconciler0 (Default alpha) (server [])).
Definition observedAfterPipeline : ApiServer :=
  fst (pipeline env0 reconciler0 (Default alphaObserved) (serverWith [alphaObserved] [])).

Lemma Reconcile_pipeline_witness :
  Get alphaKey (server []) = (server [], Ok alpha) /\
  Reconcile env0 reconciler0 alphaRequest (server []) =
    let '(s2, res) := pipeline env0 reconciler0 (Default alpha) (server []) in
    let err := err_of res in
    let '(s3, (_, dlog)) := deferStatusPatch reconciler0 alpha (finalPGAdmin alpha err) err s2 in
    (s3, {| out_result := EmptyResult; out_err := err;
            out_log := (passLog err ++ dlog)%list |}).
Proof.
  split; [vm_decide|].
  apply (Reconcile_pipeline env0 reconciler0 alphaRequest (server []) (server []) alpha).
  vm_decide.
Defined.

Lemma Reconcile_failed_pass_witness :
  Get alphaKey (server [None; Some conflict]) = (server [Some conflict], Ok alpha) /\
  pipeline env0 reconciler0 (Default alpha) (server [Some conflict]) = (server [], Err conflict) /\
  Reconcile env0 reconciler0 alphaRequest (server [None; Some conflict]) =
    (server [], {| out_result := EmptyResult; out_err := Some conflict;
                   out_log := [LogInfo "Reconciling pgAdmin"] |}).
Proof.
  split; [vm_decide|]. split; [vm_decide|].
  apply (Reconcile_failed_pass env0 reconciler0 alphaRequest (server [None; Some conflict])
           (server [Some conflict]) (server []) alpha conflict);
    [vm_decide | vm_decide].
Defined.

Lemma Reconcile_successful_pass_witness :
  Get alphaKey (server []) = (server [], Ok alpha) /\
  pipeline env0 reconciler0 (Default alpha) (server []) = (healthyAfterPipeline, Ok tt) /\
  observedGeneration (pa_status alpha) <> generation (pa_meta alpha) /\
  fst (Reconcile env0 reconciler0 alphaRequest (server [])) =
    fst (StatusPatch (Owner reconciler0) alpha
           (with_status (Default alpha)
              (set_observedGeneration (pa_status alpha) (generation (pa_meta alpha))))
           healthyAfterPipeline) /\
  out_err (snd (Reconcile env0 reconciler0 alphaRequest (server []))) = None.
Proof.
  assert (HP : pipeline env0 reconciler0 (Default alpha) (server []) =
               (healthyAfterPipeline, Ok tt)) by (vm_decide).
  assert (Hne : observedGeneration (pa_status alpha) <> generation (pa_meta alpha))
    by (simpl; lia).
  split; [vm_decide|]. split; [exact HP|]. split; [exact Hne|].
  apply (Reconcile_successful_pass env0 reconciler0 alphaRequest (server []) (server []));
    [vm_decide | exact HP | exact Hne].
Defined.

Lemma Reconcile_converged_no_patch_witness :
  Get alphaKey (serverWith [alphaObserved] []) =
    (serverWith [alphaObserved] [], Ok alphaObserved) /\
  pipeline env0 reconciler0 (Default alphaObserved) (serverWith [alphaObserved] []) =
    (observedAfterPipeline, Ok tt) /\
  Reconcile env0 reconciler0 alphaRequest (serverWith [alphaObserved] []) =
    (observedAfterPipeline, {| out_result := EmptyResult; out_err := None;
                               out_log := passLog None |}).
Proof.
  assert (HP : pipeline env0 reconciler0 (Default alphaObserved) (serverWith [alphaObserved] []) =
               (observedAfterPipeline, Ok tt)) by (vm_decide).
  split; [vm_decide|]. split; [exact HP|].
  apply (Reconcile_converged_no_patch env0 reconciler0 alphaRequest
           (serverWith [alphaObserved] []) (serverWith [alphaObserved] [])
           observedAfterPipeline alphaObserved);
    [vm_decide | exact HP | vm_decide].
Defined.

Lemma Reconcile_status_error_dropped_witness :
  Get alphaKey (server faultyStatus) = (faultyAfterGet, Ok alpha) /\
  pipeline env0 reconciler0 (Default alpha) faultyAfterGet = (faultyAfterPipeline, Ok tt) /\
  StatusPatch (Owner reconciler0) alpha (finalPGAdmin alpha None) faultyAfterPipeline =
    (set_faults faultyAfterPipeline [], Err unavailable) /\
  Reconcile env0 reconciler0 alphaRequest (server faultyStatus) =
    (set_faults faultyAfterPipeline [],
     {| out_result := EmptyResult; out_err := None;
        out_log := (passLog None ++ [LogError unavailable "Patching PGAdmin status"])%list |}).
Proof.
  assert (HG : Get alphaKey (server faultyStatus) = (faultyAfterGet, Ok alpha))
    by (vm_decide).
  assert (HP : pipeline env0 reconciler0 (Default alpha) faultyAfterGet =
               (faultyAfterPipeline, Ok tt)) by (vm_decide).
  assert (HS : StatusPatch (Owner reconciler0) alpha (finalPGAdmin alpha None) faultyAfterPipeline =
               (set_faults faultyAfterPipeline [], Err unavailable)).
  { vm_decide. }
  split; [exact HG|]. split; [exact HP|]. split; [exact HS|].
  apply (Reconcile_status_error_dropped env0 reconciler0 alphaRequest (server faultyStatus)
           faultyAfterGet faultyAfterPipeline _ alpha);
    [exact HG | exact HP | simpl; lia | exact HS].
Defined.

Lemma Reconcile_get_failed_witness :
  Get alphaKey (serverWith [] []) = (serverWith [] [], Err (notFound "pgadmins")) /\
  Reconcile env0 reconciler0 alphaRequest (serverWith [] []) =
    (serverWith [] [], {| out_result := EmptyResult; out_err := None; out_log := [] |}).
Proof.
  split; [vm_decide|].
  apply (Reconcile_get_failed env0 reconciler0 alphaRequest (serverWith [] [])
           (serverWith [] []) (notFound "pgadmins")).
  vm_decide.
Defined.

End standalone_pgadmin.
