(* ===== verification/Watch.v ===== *)
(** * Watches and the work queue ([SetupWithManager], [watchPostgresClusters])

    [SetupWithManager] registers two sources: [For(&PGAdmin{})], whose events
    enqueue the request of the PGAdmin itself, and [Watches] of
    [PostgresCluster] objects through the handler [watchPostgresClusters].
    No [Owns] is registered: events on the secret, config map, claim or
    stateful set of a PGAdmin reach no handler.  [SetupWithManager] models
    that routing.

    The handler's [handle] lists the PGAdmins that select the cluster of the
    event ([findPGAdminsForPostgresCluster], not under [src/], modelled from
    the specification, sect. 4.2, with the selection predicate of the
    resolver) and adds one request per PGAdmin to the queue.  Create and
    delete events pass their object, update events the new object only.
    [Add] of [workqueue] does not add a request already pending.

    The theorems show that the queue never holds a request twice, that a
    cluster event enqueues exactly the PGAdmins selecting the event's
    cluster (which, on a healthy server, are exactly the PGAdmins whose
    resolution contains the cluster), and what is lost: the PGAdmins that
    selected only the old version of an updated cluster, and every event on a
    dependent. *)

From S2P Require Import Prelude Api Config Client Scenarios Resolver.
From Stdlib Require Import ZArith.

Open Scope string_scope.

Module watch.
Import resolver.

(** [event.CreateEvent], [event.UpdateEvent], [event.DeleteEvent] on a
    [PostgresCluster]. *)
Inductive ClusterEvent :=
| CreateEvent (obj : PostgresCluster)
| UpdateEvent (objOld objNew : PostgresCluster)
| DeleteEvent (obj : PostgresCluster).

(** The events the manager delivers to this controller's sources. *)
Inductive WatchEvent :=
| PGAdminEvent (p : PGAdmin)
| ClusterWatchEvent (e : ClusterEvent)
| DependentEvent (o : Object).

(** [q.Add]: a request already pending is not added again. *)
Definition Add (q : list Request) (req : Request) : list Request :=
  if bool_decide (req ∈ q) then q else q ++ [req].

(** [ctrl.Request{NamespacedName: client.ObjectKeyFromObject(pgadmin)}]. *)
Definition requestFor (p : PGAdmin) : Request :=
  {| req_namespacedName := ObjectKeyFromMeta (pa_meta p) |}.

Section Handlers.
Context {S : Type} `{!Client S}.

(** The PGAdmins of the cluster's namespace that select it; a failed list
    yields none (the function has no error result). *)
Definition findPGAdminsForPostgresCluster (cluster : PostgresCluster) (s : S)
  : S * list PGAdmin :=
  match ListPGAdmins (namespace (pc_meta cluster)) s with
  | (s', Ok pgadmins) => (s', List.filter (fun p => pgadminSelects p cluster) pgadmins)
  | (s', Err _) => (s', [])
  end.

(** [handle] of [watchPostgresClusters]. *)
Definition handle (cluster : PostgresCluster) (q : list Request) (s : S)
  : S * list Request :=
  let '(s', pgadmins) := findPGAdminsForPostgresCluster cluster s in
  (s', fold_left (fun q pgadmin => Add q (requestFor pgadmin)) pgadmins q).

(** The [handler.Funcs] returned by [watchPostgresClusters]. *)
Definition watchPostgresClusters (e : ClusterEvent) (q : list Request) (s : S)
  : S * list Request :=
  match e with
  | CreateEvent obj => handle obj q s
  | UpdateEvent _ objNew => handle objNew q s
  | DeleteEvent obj => handle obj q s
  end.

(** The sources [SetupWithManager] registers. *)
Definition SetupWithManager (ev : WatchEvent) (q : list Request) (s : S)
  : S * list Request :=
  match ev with
  | PGAdminEvent p => (s, Add q (requestFor p))
  | ClusterWatchEvent e => watchPostgresClusters e q s
  | DependentEvent _ => (s, q)
  end.
End Handlers.

(** The cluster whose selectors [watchPostgresClusters] evaluates. *)
Definition eventObject (e : ClusterEvent) : PostgresCluster :=
  match e with
  | CreateEvent obj => obj
  | UpdateEvent _ objNew => objNew
  | DeleteEvent obj => obj
  end.

(** ** The queue *)

Lemma elem_of_Add q r x : x ∈ Add q r <-> x ∈ q \/ x = r.
Proof.
  unfold Add. case_bool_decide; rewrite ?elem_of_app, ?list_elem_of_singleton;
    naive_solver.
Qed.

Lemma Add_NoDup q r : NoDup q -> NoDup (Add q r).
Proof.
  intros Hq. unfold Add. case_bool_decide; [done|].
  apply NoDup_app. split_and!; [done| |apply NoDup_singleton].
  intros x Hx ->%list_elem_of_singleton. done.
Qed.

Lemma elem_of_fold_Add {A} (f : A -> Request) (l : list A) q x :
  x ∈ fold_left (fun q a => Add q (f a)) l q <-> x ∈ q \/ exists a, a ∈ l /\ x = f a.
Proof.
  revert q. induction l as [|a l IH]; intros q; simpl.
  - split; [auto|]. intros [?|(? & ?%not_elem_of_nil & _)]; done.
  - rewrite IH, elem_of_Add. setoid_rewrite elem_of_cons. naive_solver.
Qed.

Lemma fold_Add_NoDup {A} (f : A -> Request) (l : list A) q :
  NoDup q -> NoDup (fold_left (fun q a => Add q (f a)) l q).
Proof.
  revert q. induction l as [|a l IH]; intros q Hq; simpl; [done|].
  by apply IH, Add_NoDup.
Qed.

(** ** The handler on a healthy server *)

Import apiserver.

Lemma findPGAdmins_healthy s c :
  healthy s ->
  findPGAdminsForPostgresCluster c s =
    (s, List.filter (fun p => pgadminSelects p c)
          (List.filter (fun p => String.eqb (namespace (pa_meta p)) (namespace (pc_meta c)))
             (map snd (map_to_list (pgadmins s))))).
Proof.
  intros Hh. unfold findPGAdminsForPostgresCluster. simpl.
  by rewrite request_healthy.
Qed.

Lemma elem_of_stored_pgadmins s p :
  wf s ->
  p ∈ map snd (map_to_list (pgadmins s)) <-> pgadmins s !! ObjectKeyFromMeta (pa_meta p) = Some p.
Proof.
  intros (Hp & _ & _). rewrite list_elem_of_In, in_map_iff. split.
  - intros ([k p'] & Heq & Hin). simpl in Heq. subst p'.
    apply list_elem_of_In, elem_of_map_to_list in Hin.
    by rewrite (Hp _ _ Hin).
  - intros Hk. exists (ObjectKeyFromMeta (pa_meta p), p). split; [done|].
    by apply list_elem_of_In, elem_of_map_to_list.
Qed.

(** The handler of each event evaluates [handle] on the event's object. *)
Lemma watchPostgresClusters_handle {S} `{!Client S} e q (s : S) :
  watchPostgresClusters e q s = handle (eventObject e) q s.
Proof. by destruct e. Qed.

(** The queue after [handle] on a healthy, well-formed server: the pending
    requests and those of the stored PGAdmins selecting the cluster. *)
Lemma elem_of_handle s c q req :
  healthy s -> wf s ->
  req ∈ snd (handle c q s) <->
  req ∈ q \/ exists p, pgadmins s !! ObjectKeyFromMeta (pa_meta p) = Some p /\
                       pgadminSelects p c = true /\ req = requestFor p.
Proof.
  intros Hh Hwf. unfold handle. rewrite findPGAdmins_healthy by done. simpl.
  rewrite elem_of_fold_Add. apply or_iff_compat_l. split.
  - intros (p & Hp & ->).
    apply elem_of_filter_bool in Hp as [Hp Hsel].
    apply elem_of_filter_bool in Hp as [Hp _].
    apply elem_of_stored_pgadmins in Hp; [|done]. eauto.
  - intros (p & Hp & Hsel & ->). exists p. split; [|done].
    apply elem_of_filter_bool. split; [|done].
    apply elem_of_filter_bool. split; [by apply elem_of_stored_pgadmins|].
    unfold pgadminSelects in Hsel. apply andb_true_iff in Hsel as [Hns _].
    apply String.eqb_eq in Hns. by apply String.eqb_eq.
Qed.

(** C10: on a healthy, well-formed server, a create, update or delete event
    enqueues exactly the requests of the stored PGAdmins that select the
    event's cluster (the new object of an update), and nothing else. *)
Theorem watchPostgresClusters_spec s e req :
  healthy s -> wf s ->
  req ∈ snd (watchPostgresClusters e [] s) <->
  exists p, pgadmins s !! ObjectKeyFromMeta (pa_meta p) = Some p /\
            pgadminSelects p (eventObject e) = true /\ req = requestFor p.
Proof.
  intros Hh Hwf. rewrite watchPostgresClusters_handle, elem_of_handle by done.
  split; [by intros [?%not_elem_of_nil|?] | by right].
Qed.

Lemma requestFor_stored_inj s p p' :
  wf s ->
  pgadmins s !! ObjectKeyFromMeta (pa_meta p) = Some p ->
  pgadmins s !! ObjectKeyFromMeta (pa_meta p') = Some p' ->
  requestFor p = requestFor p' -> p = p'.
Proof.
  intros _ Hp Hp' Heq.
  assert (ObjectKeyFromMeta (pa_meta p) = ObjectKeyFromMeta (pa_meta p')) as Hk
    by (unfold requestFor in Heq; congruence).
  rewrite Hk, Hp' in Hp. congruence.
Qed.

(** C9: the watch mapper cannot drift from the resolver: on a healthy,
    well-formed server, a stored PGAdmin whose server groups have distinct
    names is enqueued by an event on a stored cluster exactly when
    [getClustersForPGAdmin] resolves that cluster for it. *)
Theorem watch_consistent_with_resolver s e p :
  healthy s -> wf s ->
  pgadmins s !! ObjectKeyFromMeta (pa_meta p) = Some p ->
  clusters s !! ObjectKeyFromMeta (pc_meta (eventObject e)) = Some (eventObject e) ->
  NoDup (sg_name <$> pa_serverGroups (pa_spec p)) ->
  requestFor p ∈ snd (watchPostgresClusters e [] s) <->
  exists clusters g cs, getClustersForPGAdmin p s = (s, Ok clusters) /\
                        clusters !! g = Some cs /\ eventObject e ∈ cs.
Proof.
  intros Hh Hwf Hp Hc Hnd.
  rewrite watchPostgresClusters_handle, elem_of_handle by done.
  unfold getClustersForPGAdmin. rewrite getClustersForGroups_healthy by done. split.
  - intros [?%not_elem_of_nil|(p' & Hp' & Hsel & Heq)]; [done|].
    rewrite <-(requestFor_stored_inj s p p' Hwf Hp Hp' Heq) in Hsel.
    destruct (proj2 (elem_of_resolution s p _ Hwf Hnd) (conj Hc Hsel)) as (g & cs & Hg & Hin).
    by exists (resolution s p (pa_serverGroups (pa_spec p)) ∅), g, cs.
  - intros (cl & g & cs & [= <-] & Hg & Hin). right. exists p. split_and!; [done| |done].
    apply (elem_of_resolution s p _ Hwf Hnd). eauto.
Qed.

(** C11: an update event is mapped with its new object only: a stored
    PGAdmin that selected the old version of the cluster and does not select
    the new one is not enqueued, so its config map keeps listing the cluster
    until an unrelated event requeues it. *)
Theorem watch_update_drops_old_selectors s p objOld objNew :
  healthy s -> wf s ->
  pgadmins s !! ObjectKeyFromMeta (pa_meta p) = Some p ->
  pgadminSelects p objOld = true -> pgadminSelects p objNew = false ->
  requestFor p ∉ snd (watchPostgresClusters (UpdateEvent objOld objNew) [] s).
Proof.
  intros Hh Hwf Hp _ Hnew Hin.
  rewrite watchPostgresClusters_handle, elem_of_handle in Hin by done.
  destruct Hin as [?%not_elem_of_nil|(p' & Hp' & Hsel & Heq)]; [done|].
  simpl in Hsel. rewrite <-(requestFor_stored_inj s p p' Hwf Hp Hp' Heq) in Hsel.
  congruence.
Qed.

(** ** The theorems at the scenario of the specification *)

Import scenarios.

Lemma server_healthy_wf : healthy (server []) /\ wf (server []).
Proof.
  split; [reflexivity|]. apply (bool_decide_eq_true (wf _)). vm_compute. reflexivity.
Qed.

Lemma watchPostgresClusters_spec_witness :
  healthy (server []) /\ wf (server []) /\
  (requestFor alpha ∈ snd (watchPostgresClusters (DeleteEvent db2) [] (server [])) <->
   exists p, pgadmins (server []) !! ObjectKeyFromMeta (pa_meta p) = Some p /\
             pgadminSelects p (eventObject (DeleteEvent db2)) = true /\
             requestFor alpha = requestFor p).
Proof.
  destruct server_healthy_wf as [Hh Hwf].
  split_and!; [exact Hh | exact Hwf |].
  exact (watchPostgresClusters_spec (server []) (DeleteEvent db2) (requestFor alpha) Hh Hwf).
Defined.

Lemma watch_consistent_with_resolver_witness :
  healthy (server []) /\ wf (server []) /\
  pgadmins (server []) !! ObjectKeyFromMeta (pa_meta alpha) = Some alpha /\
  clusters (server []) !! ObjectKeyFromMeta (pc_meta (eventObject (CreateEvent db4))) =
    Some (eventObject (CreateEvent db4)) /\
  NoDup (sg_name <$> pa_serverGroups (pa_spec alpha)) /\
  (requestFor alpha ∈ snd (watchPostgresClusters (CreateEvent db4) [] (server [])) <->
   exists clusters g cs, getClustersForPGAdmin alpha (server []) = (server [], Ok clusters) /\
                         clusters !! g = Some cs /\ eventObject (CreateEvent db4) ∈ cs).
Proof.
  destruct server_healthy_wf as [Hh Hwf].
  assert (Hp : pgadmins (server []) !! ObjectKeyFromMeta (pa_meta alpha) = Some alpha)
    by reflexivity.
  assert (Hc : clusters (server []) !! ObjectKeyFromMeta (pc_meta (eventObject (CreateEvent db4))) =
               Some (eventObject (CreateEvent db4))) by reflexivity.
  assert (Hnd : NoDup (sg_name <$> pa_serverGroups (pa_spec alpha)))
    by (apply (bool_decide_eq_true (NoDup _)); vm_compute; reflexivity).
  split_and!; try assumption.
  exact (watch_consistent_with_resolver (server []) (CreateEvent db4) alpha Hh Hwf Hp Hc Hnd).
Defined.

Lemma watch_update_drops_old_selectors_witness :
  healthy (server []) /\ wf (server []) /\
  pgadmins (server []) !! ObjectKeyFromMeta (pa_meta alpha) = Some alpha /\
  pgadminSelects alpha db4 = true /\ pgadminSelects alpha db4relabelled = false /\
  requestFor alpha ∉ snd (watchPostgresClusters (UpdateEvent db4 db4relabelled) [] (server [])).
Proof.
  destruct server_healthy_wf as [Hh Hwf].
  assert (Hp : pgadmins (server []) !! ObjectKeyFromMeta (pa_meta alpha) = Some alpha)
    by reflexivity.
  assert (Hold : pgadminSelects alpha db4 = true) by reflexivity.
  assert (Hnew : pgadminSelects alpha db4relabelled = false) by reflexivity.
  split_and!; try assumption.
  exact (watch_update_drops_old_selectors (server []) alpha db4 db4relabelled Hh Hwf Hp Hold Hnew).
Defined.

End watch.
