(* ===== verification/Certificates.v ===== *)
(** * pgBackRest certificate helpers ([certificates_test.go])

    [certFile] and [clientCommonName] live in [internal/pgbackrest], whose
    code is not under [src/]; only their test is.  They are modelled from
    the test and the package's contract: [certFile] appends the text of
    each marshaler in order and returns a nil slice with the first error;
    [clientCommonName] prefixes the object's UID with ["pgbackrest@"].  Go
    slices keep the difference between nil and empty ([option]), as the
    test's [DeepEqual] against [[]byte(nil)] does.

    [TestCertFile] and [TestClientCommonName] translate the two test
    functions as the conjunction of their assertions, the second for an
    arbitrary UID in place of the one [uuid.NewUUID()] returns.  The theorems
    show that the model passes both tests for every input the tests range
    over, and the behaviour of [certFile] on every error path. *)

From S2P Require Import Prelude.
From Stdlib Require Import Ascii.
From Stdlib Require Strings.Byte.

Open Scope string_scope.

Module pgbackrest.

#[export] Instance byte_eq_dec : EqDecision Byte.byte := Byte.byte_eq_dec.

(** A Go [[]byte]: [None] is the nil slice. *)
Abbreviation bytes := (option (list Byte.byte)).

(** [encoding.TextMarshaler]: the result of its [MarshalText]. *)
Inductive TextMarshaler (E : Type) :=
| Marshaled (b : bytes)
| Failed (e : E).
Arguments Marshaled {E} b.
Arguments Failed {E} e.

(** [append(out, b...)]: appending nothing keeps a nil slice nil. *)
Definition appendBytes (out b : bytes) : bytes :=
  match b with
  | None | Some [] => out
  | Some l => Some (default [] out ++ l)%list
  end.

Section CertFile.
Context {E : Type}.

Fixpoint certFileLoop (out : bytes) (texts : list (TextMarshaler E)) : bytes * option E :=
  match texts with
  | [] => (out, None)
  | Marshaled b :: rest => certFileLoop (appendBytes out b) rest
  | Failed e :: _ => (None, Some e)
  end.

Definition certFile (texts : list (TextMarshaler E)) : bytes * option E :=
  certFileLoop None texts.
End CertFile.

(** [clientCommonName]. *)
Definition clientCommonName (uid : string) : string := "pgbackrest@" ++ uid.

(** ** The two test functions *)

Definition bytesOf (s : string) : bytes := Some (String.list_byte_of_string s).

Definition TestCertFile : bool :=
  let short : TextMarshaler string := Marshaled (bytesOf "one") in
  let fail : TextMarshaler string := Failed "boom" in
  let '(text, err) := certFile [short; short; short] in
  let ok1 := bool_decide (err = None) && bool_decide (text = bytesOf "oneoneone") in
  let '(text, err) := certFile [short; fail; short] in
  let ok2 := bool_decide (err = Some "boom") && bool_decide (text = None) in
  ok1 && ok2.

Fixpoint string_forallb (f : ascii -> bool) (s : string) : bool :=
  match s with
  | EmptyString => true
  | String c rest => f c && string_forallb f rest
  end.

Definition isXDigit (c : ascii) : bool :=
  let n := nat_of_ascii c in
  (((48 <=? n) && (n <=? 57)) || ((65 <=? n) && (n <=? 70)) ||
   ((97 <=? n) && (n <=? 102)))%nat.

(** [^[-[:xdigit:]]{36}$]. *)
Definition isUUIDString (s : string) : bool :=
  (String.length s =? 36)%nat &&
  string_forallb (fun c => isXDigit c || Ascii.eqb c "-"%char) s.

Definition isPrint (c : ascii) : bool :=
  let n := nat_of_ascii c in ((32 <=? n) && (n <=? 126))%nat.

(** [TestClientCommonName] run with the UID [uid] in place of
    [uuid.NewUUID()]: the three assertions, in order: the UID is a UUID
    string, the common name is 1 to 64 printable characters, and it begins
    with ["pgbackrest@"]. *)
Definition TestClientCommonName (uid : string) : bool :=
  let cn := clientCommonName uid in
  isUUIDString uid &&
  ((1 <=? String.length cn) && (String.length cn <=? 64))%nat &&
  string_forallb isPrint cn && String.prefix "pgbackrest@" cn.

(** ** certFile *)

Lemma certFileLoop_app_ok {E} out (bs : list bytes) (rest : list (TextMarshaler E)) :
  certFileLoop out ((Marshaled <$> bs) ++ rest) =
  certFileLoop (fold_left appendBytes bs out) rest.
Proof. revert out. induction bs as [|b bs IH]; intros out; [done|]. apply IH. Qed.

Lemma appendBytes_content out b :
  default [] (appendBytes out b) = (default [] out ++ default [] b)%list.
Proof. destruct b as [[|x l]|]; simpl; rewrite ?app_nil_r; done. Qed.

Lemma fold_appendBytes_content out (bs : list bytes) :
  default [] (fold_left appendBytes bs out) = (default [] out ++ mjoin (default [] <$> bs))%list.
Proof.
  revert out. induction bs as [|b bs IH]; intros out; simpl; [by rewrite app_nil_r|].
  by rewrite IH, appendBytes_content, app_assoc.
Qed.

(** C27: [certFile] stops at the first marshaler that fails and returns
    that error with a nil slice; when none fails it returns [nil] and the
    concatenation of the texts in order. *)
Theorem certFile_spec {E} (bs : list bytes) (e : E) (rest : list (TextMarshaler E)) :
  certFile ((Marshaled <$> bs) ++ Failed e :: rest) = (None, Some e) /\
  snd (certFile (@Marshaled E <$> bs)) = None /\
  default [] (fst (certFile (@Marshaled E <$> bs))) = mjoin (default [] <$> bs).
Proof.
  unfold certFile. rewrite certFileLoop_app_ok. split; [done|].
  rewrite <-(app_nil_r (@Marshaled E <$> bs)), certFileLoop_app_ok. simpl.
  split; [done|]. by rewrite fold_appendBytes_content.
Qed.

(** The test's two calls, evaluated. *)
Example TestCertFile_passes : TestCertFile = true.
Proof. reflexivity. Qed.

(** ** clientCommonName *)

Lemma string_forallb_app f (s1 s2 : string) :
  string_forallb f (s1 ++ s2) = string_forallb f s1 && string_forallb f s2.
Proof.
  induction s1 as [|c s1 IH]; autorewrite with pgo_rw; simpl; [done|].
  by rewrite IH, andb_assoc.
Qed.

Lemma prefix_string_app (s t : string) : String.prefix s (s ++ t) = true.
Proof.
  induction s as [|c s IH]; autorewrite with pgo_rw.
  - by destruct t.
  - simpl. by destruct (ascii_dec c c).
Qed.

Lemma string_forallb_impl (f g : ascii -> bool) s :
  (forall c, f c = true -> g c = true) ->
  string_forallb f s = true -> string_forallb g s = true.
Proof.
  intros Hfg. induction s as [|c s IH]; simpl; [done|].
  rewrite !andb_true_iff. intros [Hc Hs]. auto.
Qed.

Lemma uuid_char_print c :
  (isXDigit c || Ascii.eqb c "-"%char) = true -> isPrint c = true.
Proof.
  intros H. destruct (Ascii.eqb_spec c "-"%char) as [Heq|_]; [by rewrite Heq|].
  unfold isXDigit, isPrint in *. rewrite orb_false_r in H.
  repeat (rewrite ?orb_true_iff, ?andb_true_iff, ?Nat.leb_le in H).
  apply andb_true_iff. rewrite !Nat.leb_le. lia.
Qed.

(** C17: [TestClientCommonName] passes for every UID [uuid.NewUUID()]
    can return, that is every UUID string: all three assertions hold, the
    common name being 1 to 64 printable ASCII characters that begin with
    ["pgbackrest@"]. *)
Theorem TestClientCommonName_all_uuids uid :
  isUUIDString uid = true -> TestClientCommonName uid = true.
Proof.
  intros Huuid. unfold TestClientCommonName, clientCommonName. rewrite Huuid.
  unfold isUUIDString in Huuid. apply andb_true_iff in Huuid as [Hlen Hchars].
  apply Nat.eqb_eq in Hlen. rewrite length_string_app, Hlen, string_forallb_app.
  rewrite (string_forallb_impl _ isPrint uid uuid_char_print Hchars), prefix_string_app.
  reflexivity.
Qed.

Lemma TestClientCommonName_all_uuids_witness :
  isUUIDString "123e4567-e89b-12d3-a456-426614174000" = true /\
  TestClientCommonName "123e4567-e89b-12d3-a456-426614174000" = true.
Proof. split; [reflexivity|apply TestClientCommonName_all_uuids; reflexivity]. Defined.

End pgbackrest.
