(* ===== verification/Convergence.v ===== *)
(** * Reconcile on the API server: success, idempotence, retries

    On [ApiServer] the properties of a whole pass of [Reconcile]:
    - what a pass on a healthy server writes: the four dependents, each
      with the PGAdmin as controller, the config map listing the clusters
      the PGAdmin selects, and [observedGeneration] equal to the generation;
    - a second pass on the state the first one left changes nothing;
    - retried by the external scheduler after each error, [Reconcile]
      returns [nil] within one pass more than the faults the server has
      scripted: every pass consumes at least one scripted answer.

    The proofs rest on one principle: a property of the server that every
    client call preserves is preserved by each step, by the pipeline and by
    [Reconcile] ([Preservation]). *)

From S2P Require Import Prelude Api Config Client Scenarios Resolver Builders Reconcile Watch.
From Stdlib Require Import ZArith.

Open Scope string_scope.

Module convergence.
Import apiserver resolver builders standalone_pgadmin.

(** A property of the server that no call breaks. *)
Definition preserved (P : ApiServer -> Prop) : Prop :=
  forall c s, P s -> P (run_call c s).

(** The objects a healthy pass applies, in order. *)
Definition owned (p : PGAdmin) (intent : Object) : Object :=
  with_ownerReferences intent [ownerReference p].

Definition resolved (s : ApiServer) (p : PGAdmin) : gmap string (list PostgresCluster) :=
  resolution s p (pa_serverGroups (pa_spec p)) ∅.

Definition intents (env : Env) (s : ApiServer) (p : PGAdmin) : list Object :=
  let cm := owned p (pgadminConfigMap p (resolved s p)) in
  let dv := owned p (pgadminDataVolume p) in
  [owned p (pgadminSecret p); cm; dv;
   owned p (pgadminStatefulSet p (config.StandalonePGAdminContainerImage env p) cm dv)].

Definition applyAll (os : list Object) (s : ApiServer) : ApiServer :=
  fold_left (fun s o => fst (apply_object o s)) os s.

(** Two copies of a PGAdmin the builders cannot tell apart. *)
Definition sameIdentity (p p' : PGAdmin) : Prop :=
  namespace (pa_meta p) = namespace (pa_meta p') /\ name (pa_meta p) = name (pa_meta p') /\
  uid (pa_meta p) = uid (pa_meta p') /\ generation (pa_meta p) = generation (pa_meta p') /\
  pa_spec p = pa_spec p'.

(** [s] is a fixed point of reconciling [k]: a pass changes nothing,
    returns [nil] and does not ask for a requeue. *)
Definition converged (env : Env) (r : PGAdminReconciler) (k : NamespacedName) (s : ApiServer)
  : Prop :=
  Reconcile env r {| req_namespacedName := k |} s =
    (s, {| out_result := EmptyResult; out_err := None; out_log := passLog None |}).

(** The external scheduler: requeue after an error, at most [fuel] more
    passes. *)
Fixpoint retryReconcile (fuel : nat) (env : Env) (r : PGAdminReconciler) (req : Request)
         (s : ApiServer) : ApiServer * option error :=
  let '(s', out) := Reconcile env r req s in
  match out_err out, fuel with
  | None, _ => (s', None)
  | Some e, O => (s', Some e)
  | Some _, S fuel' => retryReconcile fuel' env r req s'
  end.

(** ** Preservation *)

Section Preservation.
Context {S : Type} `{!Client S}.
Variable P : S -> Prop.
Hypothesis HP : forall c s, P s -> P (crun c s).

Lemma call_pres {A} (m : StM S error A) c s :
  (forall s, fst (m s) = crun c s) -> P s -> P (fst (m s)).
Proof. intros Hm Hs. rewrite Hm. by apply HP. Qed.

(** Running a bind keeps [P] when both parts do. *)
Lemma bind_pres {A B} (m : StM S error A) (k : A -> StM S error B) s :
  (forall s, P s -> P (fst (m s))) -> (forall a s, P s -> P (fst (k a s))) ->
  P s -> P (fst (st_bind m k s)).
Proof.
  intros Hm Hk Hs. unfold st_bind. pose proof (Hm s Hs) as Hs'.
  destruct (m s) as [s' [a|e]]; simpl in *; auto.
Qed.

Lemma applyIntent_pres owner p intent s : P s -> P (fst (applyIntent owner p intent s)).
Proof.
  unfold applyIntent. destruct (setControllerReference p intent) as [o|e]; [|done].
  intros Hs. apply bind_pres; [intros s' Hs'; by apply (HP (CApply owner o)) |
                               intros _ s' Hs'; exact Hs' | exact Hs].
Qed.

Lemma clustersForServerGroup_pres p sg s : P s -> P (fst (clustersForServerGroup p sg s)).
Proof.
  unfold clustersForServerGroup. destruct (String.eqb _ "").
  - apply (HP (CListClusters _ _)).
  - intros Hs.
    set (k := {| nn_namespace := namespace (pa_meta p); nn_name := sg_postgresClusterName sg |}).
    pose proof (HP (CGetCluster k) s Hs) as H. cbn [crun] in H.
    destruct (GetCluster k s) as [s' [c|e]]; simpl in *; [done|]. by destruct (IsNotFound e).
Qed.

Lemma getClustersForGroups_pres p groups acc s :
  P s -> P (fst (getClustersForGroups p groups acc s)).
Proof.
  revert acc s. induction groups as [|sg rest IH]; intros acc s Hs; [done|].
  simpl. apply bind_pres; [apply clustersForServerGroup_pres | intros; by apply IH | done].
Qed.

Lemma pipeline_pres env r p s : P s -> P (fst (pipeline env r p s)).
Proof.
  unfold pipeline, reconcilePGAdminSecret, reconcilePGAdminConfigMap,
    reconcilePGAdminDataVolume, reconcilePGAdminStatefulSet, getClustersForPGAdmin.
  destruct (String.eqb _ ""); [intros Hs; exact Hs|].
  repeat (apply bind_pres; [intros; first [apply applyIntent_pres | apply getClustersForGroups_pres]; done|intros ? ?]).
  done.
Qed.

Lemma deferStatusPatch_pres r before p err s : P s -> P (fst (deferStatusPatch r before p err s)).
Proof.
  unfold deferStatusPatch. case_bool_decide as Heq; [done|]. intros Hs.
  pose proof (HP (CStatusPatch (Owner r) before p) s Hs) as H. cbn [crun] in H.
  by destruct (StatusPatch (Owner r) before p s).
Qed.

(** Everything a pass does after its [Get] keeps [P]. *)
Lemma Reconcile_pres_after_get env r req s :
  P (fst (Get (req_namespacedName req) s)) -> P (fst (Reconcile env r req s)).
Proof.
  destruct (Get (req_namespacedName req) s) as [s1 [fetched|e]] eqn:HG; simpl; intros Hs1.
  - rewrite Reconcile_unfold, HG.
    pose proof (pipeline_pres env r (Default fetched) s1 Hs1) as H2.
    destruct (pipeline env r (Default fetched) s1) as [s2 res]. simpl in H2.
    cbv beta iota zeta.
    pose proof (deferStatusPatch_pres r fetched (finalPGAdmin fetched (err_of res))
                  (err_of res) s2 H2) as H3.
    destruct (deferStatusPatch _ _ _ _ _) as [s3 [? ?]]. done.
  - unfold Reconcile. by rewrite HG.
Qed.

Lemma Reconcile_pres env r req s : P s -> P (fst (Reconcile env r req s)).
Proof. intros Hs. apply Reconcile_pres_after_get. apply (HP (CGet _) s Hs). Qed.
End Preservation.

Lemma wf_preserved : preserved wf.
Proof. intros c s. apply run_call_wf. Qed.

(** ** A pass on a healthy server *)

Lemma resolution_clusters s s' p p' groups acc :
  clusters s = clusters s' -> namespace (pa_meta p) = namespace (pa_meta p') ->
  resolution s p groups acc = resolution s' p' groups acc.
Proof. intros Hc Hns. unfold resolution, resolveGroup. by rewrite Hc, Hns. Qed.

Lemma applyIntent_healthy owner p intent s :
  healthy s -> ownerReferences (obj_meta intent) = [] ->
  namespace (obj_meta intent) = namespace (pa_meta p) ->
  applyIntent owner p intent s = (fst (apply_object (owned p intent) s), Ok (owned p intent)).
Proof.
  intros Hh Hrefs Hns. unfold applyIntent. rewrite setControllerReference_intent by done.
  unfold st_bind. simpl. rewrite request_healthy by done.
  pose proof (apply_object_result (owned p intent) s) as Hr.
  destruct (apply_object _ s) as [s' r']. simpl in Hr. by subst r'.
Qed.

Lemma healthy_apply o s : healthy s -> healthy (fst (apply_object o s)).
Proof. unfold healthy. by rewrite apply_object_faults. Qed.

(** One healthy apply step of the pipeline. *)
Local Ltac apply_step :=
  erewrite st_bind_run_ok;
  [| apply applyIntent_healthy;
     [repeat (apply healthy_apply); assumption | reflexivity | reflexivity]].

Lemma pipeline_healthy env r p s :
  healthy s -> config.StandalonePGAdminContainerImage env p <> "" ->
  pipeline env r p s = (applyAll (intents env s p) s, Ok tt).
Proof.
  intros Hh Himg. unfold pipeline, reconcilePGAdminSecret, reconcilePGAdminConfigMap,
    reconcilePGAdminDataVolume, reconcilePGAdminStatefulSet, getClustersForPGAdmin.
  apply String.eqb_neq in Himg. rewrite Himg.
  apply_step.
  erewrite st_bind_run_ok; [|apply getClustersForGroups_healthy, healthy_apply, Hh].
  apply_step. apply_step. apply_step.
  rewrite (resolution_clusters (fst (apply_object (owned p (pgadminSecret p)) s)) s p p)
    by (rewrite ?apply_object_clusters; done).
  reflexivity.
Qed.

Lemma applyAll_faults os s : faults (applyAll os s) = faults s.
Proof. revert s. induction os as [|o os IH]; intros s; [done|]. simpl. by rewrite IH; autorewrite with pgo_rw. Qed.

Lemma applyAll_pgadmins os s : pgadmins (applyAll os s) = pgadmins s.
Proof. revert s. induction os as [|o os IH]; intros s; [done|]. simpl. by rewrite IH; autorewrite with pgo_rw. Qed.

Lemma applyAll_clusters os s : clusters (applyAll os s) = clusters s.
Proof. revert s. induction os as [|o os IH]; intros s; [done|]. simpl. by rewrite IH; autorewrite with pgo_rw. Qed.

Lemma applyAll_other os s k :
  k ∉ ObjectKey <$> os -> objects (applyAll os s) !! k = objects s !! k.
Proof.
  revert s. induction os as [|o os IH]; intros s Hk; [done|].
  simpl in *. apply not_elem_of_cons in Hk as [Hne Hk].
  rewrite IH by done. by apply apply_object_other.
Qed.

Lemma applyAll_wf os s : wf s -> wf (applyAll os s).
Proof.
  revert s. induction os as [|o os IH]; intros s Hwf; [done|]. simpl.
  by apply IH, apply_object_wf.
Qed.

(** An object stored with the content of [o]. *)
Definition holds (s : ApiServer) (o : Object) : Prop :=
  exists o', objects s !! ObjectKey o = Some o' /\ content o' = content o.

Lemma applyAll_holds os s :
  NoDup (ObjectKey <$> os) -> Forall (holds (applyAll os s)) os.
Proof.
  revert s. induction os as [|o os IH]; intros s Hnd; [done|].
  simpl in *. apply NoDup_cons in Hnd as [Hk Hnd]. constructor; [|by apply IH].
  unfold holds. rewrite applyAll_other by done. apply apply_object_lookup.
Qed.

Lemma applyAll_noop os s : Forall (holds s) os -> applyAll os s = s.
Proof.
  induction 1 as [|o os (o' & Hk & Heq) _ IH]; [done|]. simpl.
  by rewrite (apply_object_noop o o' s Hk Heq).
Qed.

Lemma intents_keys env s p : NoDup (ObjectKey <$> intents env s p).
Proof.
  simpl. repeat constructor; rewrite ?elem_of_cons; intros ?;
    repeat match goal with H : _ \/ _ |- _ => destruct H end;
    try match goal with H : _ ∈ [] |- _ => by apply not_elem_of_nil in H end;
    discriminate.
Qed.

Lemma intents_sameIdentity env s s' p p' :
  sameIdentity p p' -> clusters s = clusters s' -> intents env s p = intents env s' p'.
Proof.
  intros (Hns & Hnm & Huid & _ & Hspec) Hc. unfold intents, resolved.
  rewrite (resolution_clusters s s' p p') by done.
  unfold owned, ownerReference, pgadminSecret, pgadminConfigMap, pgadminDataVolume,
    pgadminStatefulSet, dependentMeta, config.StandalonePGAdminContainerImage.
  by rewrite Hns, Hnm, Huid, Hspec.
Qed.

Lemma Get_healthy s k p :
  healthy s -> pgadmins s !! k = Some p -> Get k s = (s, Ok p).
Proof. intros Hh Hk. simpl. rewrite request_healthy by done. unfold get_pgadmin. by rewrite Hk. Qed.

Lemma sameIdentity_refl p : sameIdentity p p.
Proof. done. Qed.

Lemma sameIdentity_trans p1 p2 p3 :
  sameIdentity p1 p2 -> sameIdentity p2 p3 -> sameIdentity p1 p3.
Proof. unfold sameIdentity. intros (?&?&?&?&?) (?&?&?&?&?). split_and!; congruence. Qed.

Lemma request_clusters {A} (body : ApiServer -> ApiServer * result error A) s :
  (forall s', clusters (fst (body s')) = clusters s') -> clusters (fst (request body s)) = clusters s.
Proof.
  intros Hb. by destruct (request_cases body s) as [(e & rest & _ & ->)|(rest & _ & ->)];
    [|rewrite Hb].
Qed.

Lemma clusters_preserved C : preserved (fun s => clusters s = C).
Proof.
  intros c s <-. destruct c; cbn [run_call]; apply request_clusters; intros s'.
  - unfold get_pgadmin. by destruct (_ !! _).
  - unfold get_cluster. by destruct (_ !! _).
  - done.
  - done.
  - apply apply_object_clusters.
  - apply patch_status_clusters.
Qed.

Lemma StatusPatch_apiserver owner b a s :
  StatusPatch owner b a s = request (patch_status b a) s.
Proof. reflexivity. Qed.

(** The status patch of a successful pass on a healthy server. *)
Lemma StatusPatch_healthy owner s k p :
  healthy s -> wf s -> pgadmins s !! k = Some p ->
  observedGeneration (pa_status p) <> generation (pa_meta p) ->
  exists s' p', StatusPatch owner p (finalPGAdmin p None) s = (s', Ok tt) /\
    pgadmins s' !! k = Some p' /\ sameIdentity p p' /\
    observedGeneration (pa_status p') = generation (pa_meta p) /\
    objects s' = objects s /\ clusters s' = clusters s /\ healthy s'.
Proof.
  intros Hh (Hp & _ & _) Hk Hne. rewrite StatusPatch_apiserver, request_healthy by done.
  unfold patch_status. cbv zeta.
  change (ObjectKeyFromMeta (pa_meta (finalPGAdmin p None))) with (ObjectKeyFromMeta (pa_meta p)).
  pose proof (Hp _ _ Hk) as Hkey. cbv beta in Hkey. rewrite Hkey, Hk.
  rewrite bool_decide_eq_false_2.
  - eexists _, _. split; [reflexivity|]. simpl. rewrite lookup_insert_eq.
    split_and!; try done. simpl. by rewrite bool_decide_eq_false_2.
  - unfold merge_status. simpl. rewrite bool_decide_eq_false_2 by done.
    intros Heq. apply Hne. by rewrite <-Heq.
Qed.

(** What a pass on a healthy, well-formed server returns and leaves. *)
Lemma healthy_pass env r s k p :
  healthy s -> wf s -> pgadmins s !! k = Some p ->
  config.StandalonePGAdminContainerImage env p <> "" ->
  out_err (snd (Reconcile env r {| req_namespacedName := k |} s)) = None /\
  healthy (fst (Reconcile env r {| req_namespacedName := k |} s)) /\
  (exists p', pgadmins (fst (Reconcile env r {| req_namespacedName := k |} s)) !! k = Some p' /\
              sameIdentity p p' /\ observedGeneration (pa_status p') = generation (pa_meta p)) /\
  Forall (holds (fst (Reconcile env r {| req_namespacedName := k |} s))) (intents env s p).
Proof.
  intros Hh Hwf Hk Himg.
  rewrite Reconcile_unfold. cbn [req_namespacedName]. rewrite (Get_healthy s k p Hh Hk).
  rewrite (pipeline_healthy env r (Default p) s Hh Himg). cbn [err_of].
  change (intents env s (Default p)) with (intents env s p).
  set (s2 := applyAll (intents env s p) s).
  assert (Hh2 : healthy s2) by (unfold healthy, s2; by rewrite applyAll_faults).
  assert (Hk2 : pgadmins s2 !! k = Some p) by (unfold s2; by rewrite applyAll_pgadmins).
  assert (Hwf2 : wf s2) by (by apply applyAll_wf).
  pose proof (applyAll_holds (intents env s p) s (intents_keys env s p)) as Hholds.
  destruct (decide (observedGeneration (pa_status p) = generation (pa_meta p))) as [Heq|Hne].
  - rewrite deferStatusPatch_unchanged
      by (rewrite finalPGAdmin_status_ok; symmetry; by apply set_observedGeneration_same).
    simpl. split_and!; [done|done| |done]. exists p. by split_and!.
  - rewrite deferStatusPatch_changed.
    2: { rewrite finalPGAdmin_status_ok. intros Heq. symmetry in Heq.
         by apply set_observedGeneration_same in Heq. }
    destruct (StatusPatch_healthy (Owner r) s2 k p Hh2 Hwf2 Hk2 Hne)
      as (s3 & p' & -> & Hk3 & Hid & Hog & Hobj & _ & Hh3).
    simpl. split_and!; [done|done| |].
    + by exists p'.
    + eapply Forall_impl; [exact Hholds|]. intros o (o' & Ho & Hc). exists o'. by rewrite Hobj.
Qed.

(** The objects a healthy pass applies are controlled by the PGAdmin, and
    what is stored with their content keeps that controller. *)
Lemma intents_controller env s p o :
  o ∈ intents env s p -> GetControllerOf (obj_meta o) = Some (ownerReference p).
Proof.
  unfold intents. intros Ho.
  repeat (apply elem_of_cons in Ho as [->|Ho]; [reflexivity|]).
  by apply not_elem_of_nil in Ho.
Qed.

Lemma content_controller o o' :
  content o' = content o -> GetControllerOf (obj_meta o') = GetControllerOf (obj_meta o).
Proof.
  intros Hc. unfold GetControllerOf.
  apply (f_equal (fun o => ownerReferences (obj_meta o))) in Hc. simpl in Hc.
  by rewrite Hc.
Qed.

(** C6: on a healthy, well-formed server, a pass on a stored PGAdmin whose
    pgAdmin image resolves returns [nil], keeps the server healthy, stores
    [observedGeneration] equal to the generation (leaving spec and identity
    alone), and leaves each of the four dependents (secret, config map
    listing the resolved clusters, data volume claim, stateful set) stored
    with the content the builders give it and the PGAdmin as its
    controller. *)
Theorem Reconcile_healthy_pass env r s k p :
  healthy s -> wf s -> pgadmins s !! k = Some p ->
  config.StandalonePGAdminContainerImage env p <> "" ->
  out_err (snd (Reconcile env r {| req_namespacedName := k |} s)) = None /\
  healthy (fst (Reconcile env r {| req_namespacedName := k |} s)) /\
  (exists p', pgadmins (fst (Reconcile env r {| req_namespacedName := k |} s)) !! k = Some p' /\
              sameIdentity p p' /\ observedGeneration (pa_status p') = generation (pa_meta p)) /\
  Forall (fun o => exists o',
            objects (fst (Reconcile env r {| req_namespacedName := k |} s)) !! ObjectKey o = Some o' /\
            content o' = content o /\ GetControllerOf (obj_meta o') = Some (ownerReference p))
         (intents env s p).
Proof.
  intros Hh Hwf Hk Himg.
  destruct (healthy_pass env r s k p Hh Hwf Hk Himg) as (Hok & Hh' & Hp' & Hholds).
  split_and!; [done|done|done|].
  apply Forall_forall. intros o Ho.
  destruct (proj1 (Forall_forall _ _) Hholds o Ho) as (o' & Ho' & Hc).
  exists o'. split_and!; [done|done|].
  rewrite (content_controller _ _ Hc). by apply (intents_controller env s).
Qed.

(** C7: reconciling is idempotent: on the state a pass left on a healthy,
    well-formed server, a second pass returns [nil] and leaves the server
    exactly as it was, resource versions included: nothing new is applied
    and no status is written.  (That no patch call is even sent when the
    status is current is [Reconcile_converged_no_patch], for any client.) *)
Theorem Reconcile_idempotent env r s k p :
  healthy s -> wf s -> pgadmins s !! k = Some p ->
  config.StandalonePGAdminContainerImage env p <> "" ->
  converged env r k (fst (Reconcile env r {| req_namespacedName := k |} s)).
Proof.
  intros Hh Hwf Hk Himg. unfold converged.
  destruct (healthy_pass env r s k p Hh Hwf Hk Himg)
    as (_ & Hh' & (p' & Hk' & Hid & Hog) & Hholds).
  set (s' := fst (Reconcile env r {| req_namespacedName := k |} s)) in *.
  assert (Hc : clusters s = clusters s') by (symmetry; by apply (Reconcile_pres _ (clusters_preserved _))).
  destruct Hid as (Hns & Hnm & Huid & Hgen & Hspec).
  assert (HP : pipeline env r (Default p') s' = (s', Ok tt)).
  { rewrite pipeline_healthy; [|done|].
    - f_equal. change (intents env s' (Default p')) with (intents env s' p').
      rewrite <-(intents_sameIdentity env s s' p p') by (done || by split_and!).
      by apply applyAll_noop.
    - change (config.StandalonePGAdminContainerImage env (Default p'))
        with (config.StandalonePGAdminContainerImage env p').
      unfold config.StandalonePGAdminContainerImage in *. by rewrite <-Hspec. }
  rewrite Reconcile_unfold. cbn [req_namespacedName].
  rewrite (Get_healthy s' k p' Hh' Hk'), HP. cbn [err_of].
  rewrite deferStatusPatch_unchanged; [by rewrite app_nil_r|].
  rewrite finalPGAdmin_status_ok. symmetry. apply set_observedGeneration_same.
  by rewrite Hog, Hgen.
Qed.

(** ** Retries *)

Lemma request_faults_le {A} (body : ApiServer -> ApiServer * result error A) s :
  (forall s', faults (fst (body s')) = faults s') ->
  length (faults (fst (request body s))) <= length (faults s).
Proof.
  intros Hb. destruct (request_cases body s) as [(e & rest & Hf & ->)|(rest & Hf & ->)].
  - cbn [fst faults set_faults]. rewrite Hf. simpl. lia.
  - rewrite Hb. cbn [faults set_faults]. destruct Hf as [Hf|[Hf ->]]; rewrite Hf; simpl; lia.
Qed.

Lemma faults_le_preserved n : preserved (fun s => length (faults s) <= n).
Proof.
  intros c s Hs. eapply Nat.le_trans; [|exact Hs].
  destruct c; cbn [run_call]; apply request_faults_le; intros s'.
  - unfold get_pgadmin. by destruct (_ !! _).
  - unfold get_cluster. by destruct (_ !! _).
  - done.
  - done.
  - apply apply_object_faults.
  - apply patch_status_faults.
Qed.

(** The [Get] that opens a pass consumes the next scripted answer. *)
Lemma Get_consumes k s :
  faults s <> [] -> length (faults (fst (Get k s))) < length (faults s).
Proof.
  intros Hne. simpl. unfold request.
  destruct (faults s) as [|[e|] rest] eqn:Hf; [done| |]; simpl; rewrite ?Hf.
  - simpl. lia.
  - unfold get_pgadmin. destruct (_ !! _); simpl; lia.
Qed.

Lemma Reconcile_consumes env r req s :
  faults s <> [] -> length (faults (fst (Reconcile env r req s))) < length (faults s).
Proof.
  intros Hne. pose proof (Get_consumes (req_namespacedName req) s Hne) as HG.
  assert (H : length (faults (fst (Reconcile env r req s))) <= length (faults s) - 1).
  { apply (Reconcile_pres_after_get (fun x => length (faults x) <= length (faults s) - 1));
      [apply faults_le_preserved | lia]. }
  lia.
Qed.

(** The PGAdmin stays stored under its key, with its identity and spec. *)
Definition storedAs (k : NamespacedName) (p : PGAdmin) (s : ApiServer) : Prop :=
  exists p', pgadmins s !! k = Some p' /\ sameIdentity p p'.

Lemma request_storedAs {A} (body : ApiServer -> ApiServer * result error A) k p s :
  (forall s', storedAs k p s' -> storedAs k p (fst (body s'))) ->
  storedAs k p s -> storedAs k p (fst (request body s)).
Proof.
  intros Hb Hs. by destruct (request_cases body s) as [(e & rest & _ & ->)|(rest & _ & ->)];
    [|apply Hb].
Qed.

Lemma patch_status_storedAs k p b a s :
  storedAs k p s -> storedAs k p (fst (patch_status b a s)).
Proof.
  intros (p' & Hk & Hid). unfold patch_status.
  destruct (pgadmins s !! ObjectKeyFromMeta (pa_meta a)) as [cur|] eqn:Hcur;
    [|by exists p'].
  case_bool_decide; [by exists p'|]. unfold storedAs. simpl.
  destruct (decide (ObjectKeyFromMeta (pa_meta a) = k)) as [<-|Hne].
  - rewrite lookup_insert_eq. eexists; split; [done|].
    rewrite Hk in Hcur. injection Hcur as ->. eapply sameIdentity_trans; [exact Hid|].
    unfold sameIdentity. simpl. by split_and!.
  - rewrite lookup_insert_ne by done. by exists p'.
Qed.

Lemma storedAs_preserved k p : preserved (storedAs k p).
Proof.
  intros c s Hs. destruct c; cbn [run_call]; apply request_storedAs; try done;
    intros s' Hs'.
  - unfold get_pgadmin. by destruct (_ !! _).
  - unfold get_cluster. by destruct (_ !! _).
  - destruct Hs' as (p' & Hk & Hid). exists p'. by rewrite apply_object_pgadmins.
  - by apply patch_status_storedAs.
Qed.

Lemma image_sameIdentity env p p' :
  sameIdentity p p' ->
  config.StandalonePGAdminContainerImage env p = config.StandalonePGAdminContainerImage env p'.
Proof. intros (_ & _ & _ & _ & Hspec). unfold config.StandalonePGAdminContainerImage. by rewrite Hspec. Qed.

(** C8: retried by the external scheduler, reconciliation converges: on a
    well-formed server whose fault script has [n] entries (conflicts,
    unavailability, ... on any calls), [Reconcile] of a stored PGAdmin whose
    image resolves returns [nil] within [n + 1] passes. *)
Theorem retryReconcile_converges env r s k p fuel :
  wf s -> pgadmins s !! k = Some p ->
  config.StandalonePGAdminContainerImage env p <> "" ->
  length (faults s) <= fuel ->
  snd (retryReconcile fuel env r {| req_namespacedName := k |} s) = None.
Proof.
  intros Hwf Hk Himg. assert (Hst : storedAs k p s) by (exists p; by split).
  clear Hk. revert s Hwf Hst. induction fuel as [|fuel IH]; intros s Hwf (p' & Hk & Hid) Hlen.
  - assert (Hh : healthy s) by (unfold healthy; destruct (faults s); simpl in *; [done|lia]).
    rewrite (image_sameIdentity env p p' Hid) in Himg.
    destruct (healthy_pass env r s k p' Hh Hwf Hk Himg) as (Hok & _).
    simpl. destruct (Reconcile _ _ _ s) as [s' out]. simpl in Hok. by rewrite Hok.
  - destruct (decide (faults s = [])) as [Hh|Hne].
    + rewrite (image_sameIdentity env p p' Hid) in Himg.
      destruct (healthy_pass env r s k p' Hh Hwf Hk Himg) as (Hok & _).
      simpl. destruct (Reconcile _ _ _ s) as [s' out]. simpl in Hok. by rewrite Hok.
    + pose proof (Reconcile_consumes env r {| req_namespacedName := k |} s Hne) as Hdec.
      pose proof (Reconcile_pres _ wf_preserved env r {| req_namespacedName := k |} s Hwf) as Hwf'.
      assert (Hst' : storedAs k p (fst (Reconcile env r {| req_namespacedName := k |} s))).
      { apply Reconcile_pres; [apply storedAs_preserved|]. by exists p'. }
      simpl. destruct (Reconcile _ _ _ s) as [s' out]. simpl in *.
      destruct (out_err out); [|done]. apply IH; [done|done|lia].
Qed.

(** ** The theorems at the scenario *)

Import scenarios watch.

Lemma server_facts : healthy (server []) /\ wf (server []) /\
  pgadmins (server []) !! alphaKey = Some alpha /\
  config.StandalonePGAdminContainerImage env0 alpha <> "".
Proof.
  split_and!; [reflexivity| |reflexivity|].
  - apply (bool_decide_eq_true (wf _)). vm_compute. reflexivity.
  - vm_compute. discriminate.
Qed.

Lemma Reconcile_healthy_pass_witness :
  healthy (server []) /\ wf (server []) /\ pgadmins (server []) !! alphaKey = Some alpha /\
  config.StandalonePGAdminContainerImage env0 alpha <> "" /\
  out_err (snd (Reconcile env0 reconciler0 alphaRequest (server []))) = None /\
  healthy (fst (Reconcile env0 reconciler0 alphaRequest (server []))) /\
  (exists p', pgadmins (fst (Reconcile env0 reconciler0 alphaRequest (server []))) !! alphaKey = Some p' /\
              sameIdentity alpha p' /\ observedGeneration (pa_status p') = generation (pa_meta alpha)) /\
  Forall (fun o => exists o',
            objects (fst (Reconcile env0 reconciler0 alphaRequest (server []))) !! ObjectKey o = Some o' /\
            content o' = content o /\ GetControllerOf (obj_meta o') = Some (ownerReference alpha))
         (intents env0 (server []) alpha).
Proof.
  destruct server_facts as (Hh & Hwf & Hk & Himg).
  split_and!; try assumption;
    apply (Reconcile_healthy_pass env0 reconciler0 (server []) alphaKey alpha Hh Hwf Hk Himg).
Defined.

Lemma Reconcile_idempotent_witness :
  healthy (server []) /\ wf (server []) /\ pgadmins (server []) !! alphaKey = Some alpha /\
  config.StandalonePGAdminContainerImage env0 alpha <> "" /\
  converged env0 reconciler0 alphaKey (fst (Reconcile env0 reconciler0 alphaRequest (server []))).
Proof.
  destruct server_facts as (Hh & Hwf & Hk & Himg).
  split_and!; try assumption.
  exact (Reconcile_idempotent env0 reconciler0 (server []) alphaKey alpha Hh Hwf Hk Himg).
Defined.

(** Three conflicts, on the secret, the config map and the status patch. *)
Definition conflicts : list (option error) :=
  [None; Some conflict; None; Some conflict; None; None; None; Some conflict].

Lemma retryReconcile_converges_witness :
  wf (server conflicts) /\ pgadmins (server conflicts) !! alphaKey = Some alpha /\
  config.StandalonePGAdminContainerImage env0 alpha <> "" /\
  length (faults (server conflicts)) <= 8 /\
  snd (retryReconcile 8 env0 reconciler0 alphaRequest (server conflicts)) = None.
Proof.
  assert (Hwf : wf (server conflicts)) by (apply (bool_decide_eq_true (wf _)); vm_compute; reflexivity).
  assert (Hk : pgadmins (server conflicts) !! alphaKey = Some alpha) by reflexivity.
  assert (Himg : config.StandalonePGAdminContainerImage env0 alpha <> "") by (vm_compute; discriminate).
  assert (Hlen : length (faults (server conflicts)) <= 8) by (simpl; lia).
  split_and!; try assumption.
  exact (retryReconcile_converges env0 reconciler0 (server conflicts) alphaKey alpha 8 Hwf Hk Himg Hlen).
Defined.

End convergence.
