(* ===== verification/Faults.v ===== *)
(** * Passes on a server with faults: refinement of the fault-free pass

    The fault script of [ApiServer] makes calls fail (a conflict, an
    unavailable server, ...).  A fault is transient when it is not a
    NotFound: a NotFound answered for an object that exists would make the
    resolver drop a cluster ([clustersForServerGroup] reads NotFound as
    "no cluster"), which no real server does for a stored object.

    The operations of the server read and write the stored objects only,
    never the fault script ([body_ok]).  From this, every computation the
    pipeline is built of simulates a run on the fault-free server: when it
    succeeds on a server with transient faults, the same computation on
    the server with the script removed succeeds with the same value and an
    end state that differs only in the script ([sim]).  The pipeline of
    [Reconcile] is such a computation, so a pass whose steps all succeed
    leaves exactly the objects the fault-free pass leaves: the four
    dependents as the builders give them. *)

From S2P Require Import Prelude Api Config Client Scenarios Resolver Builders Reconcile Convergence.

Open Scope string_scope.

Module faultsim.
Import apiserver resolver builders standalone_pgadmin convergence.

(** The server with its fault script removed. *)
Definition strip (s : ApiServer) : ApiServer := set_faults s [].

(** No scripted fault is a NotFound. *)
Definition transient (s : ApiServer) : Prop :=
  Forall (fun f => match f with Some e => IsNotFound e = false | None => True end) (faults s).

(** A body of a request reads and writes the stored objects only. *)
Definition body_ok {A} (b : ApiServer -> ApiServer * result error A) : Prop :=
  forall s f, b (set_faults s f) = (set_faults (fst (b s)) f, snd (b s)).

(** A computation keeps the faults transient and each of its successful
    runs is matched by a run on the fault-free server. *)
Definition sim {A} (m : StM ApiServer error A) : Prop :=
  (forall s, transient s -> transient (fst (m s))) /\
  (forall s s' a, transient s -> m s = (s', Ok a) -> m (strip s) = (strip s', Ok a)).

(** ** The operations of the server *)

Lemma set_faults_twice s f g : set_faults (set_faults s f) g = set_faults s g.
Proof. reflexivity. Qed.

Lemma set_faults_same s : set_faults s (faults s) = s.
Proof. by destruct s. Qed.

Lemma body_faults {A} (b : ApiServer -> ApiServer * result error A) s :
  body_ok b -> faults (fst (b s)) = faults s.
Proof.
  intros Hb. pose proof (Hb s (faults s)) as H. rewrite set_faults_same in H.
  rewrite H at 1. reflexivity.
Qed.

Lemma get_pgadmin_ok k : body_ok (get_pgadmin k).
Proof. intros s f. unfold get_pgadmin. simpl. by destruct (pgadmins s !! k). Qed.

Lemma get_cluster_ok k : body_ok (get_cluster k).
Proof. intros s f. unfold get_cluster. simpl. by destruct (clusters s !! k). Qed.

Lemma list_clusters_ok ns sel : body_ok (list_clusters ns sel).
Proof. done. Qed.

Lemma list_pgadmins_ok ns : body_ok (list_pgadmins ns).
Proof. done. Qed.

Lemma apply_object_ok o : body_ok (apply_object o).
Proof.
  intros s f. unfold apply_object. simpl.
  destruct (objects s !! ObjectKey o); [case_bool_decide|]; reflexivity.
Qed.

Lemma patch_status_ok b a : body_ok (patch_status b a).
Proof.
  intros s f. unfold patch_status. simpl.
  destruct (pgadmins s !! _); [case_bool_decide|]; reflexivity.
Qed.

#[export] Hint Resolve get_pgadmin_ok get_cluster_ok list_clusters_ok list_pgadmins_ok
  apply_object_ok patch_status_ok : pgo.

Lemma request_transient {A} (b : ApiServer -> ApiServer * result error A) s :
  body_ok b -> transient s -> transient (fst (request b s)).
Proof.
  intros Hb Hs. unfold transient in *.
  destruct (request_cases b s) as [(e & rest & Hf & ->)|(rest & Hf & ->)].
  - simpl. rewrite Hf in Hs. by apply Forall_inv_tail in Hs.
  - rewrite (body_faults b _ Hb). simpl.
    destruct Hf as [Hf|[Hf ->]]; rewrite Hf in Hs; [by apply Forall_inv_tail in Hs|done].
Qed.

Lemma transient_preserved : preserved transient.
Proof. intros c s Hs. destruct c; cbn [run_call]; apply request_transient; eauto with pgo. Qed.

(** A successful request ran its body on the state with the script
    advanced; on the fault-free server it runs the body directly. *)
Lemma request_sim {A} (b : ApiServer -> ApiServer * result error A) : body_ok b -> sim (request b).
Proof.
  intros Hb. split; [intros s; by apply request_transient|].
  intros s s' a _ Hrun. rewrite (request_healthy b (strip s)) by reflexivity.
  unfold strip. rewrite (Hb s []).
  unfold request in Hrun. destruct (faults s) as [|[e|] rest].
  - by rewrite Hrun.
  - discriminate.
  - rewrite Hb in Hrun. by injection Hrun as <- ->.
Qed.

(** A NotFound returned by a request on a server with transient faults
    comes from its body, which returns it on the fault-free server too. *)
Lemma request_notFound_sim {A} (b : ApiServer -> ApiServer * result error A) s s1 e :
  body_ok b -> transient s -> request b s = (s1, Err e) -> IsNotFound e = true ->
  request b (strip s) = (strip s1, Err e).
Proof.
  intros Hb Hs Hrun Hnf. rewrite (request_healthy b (strip s)) by reflexivity.
  unfold strip. rewrite (Hb s []).
  unfold request in Hrun. destruct (faults s) as [|[e'|] rest] eqn:Hf.
  - by rewrite Hrun.
  - injection Hrun as _ ->. unfold transient in Hs. rewrite Hf in Hs.
    apply Forall_inv in Hs. congruence.
  - rewrite Hb in Hrun. by injection Hrun as <- ->.
Qed.

(** ** Closure of [sim] *)

Lemma ret_sim {A} (a : A) : sim (st_ret a).
Proof. split; [done|]. intros s s' a' _ [= <- <-]. reflexivity. Qed.

Lemma fail_sim {A} (e : error) : sim (@st_fail ApiServer error A e).
Proof. split; [done|]. by intros s s' a' _ ?. Qed.

Lemma bind_sim {A B} (m : StM ApiServer error A) (k : A -> StM ApiServer error B) :
  sim m -> (forall a, sim (k a)) -> sim (st_bind m k).
Proof.
  intros [Hmt Hm] Hk. split.
  - intros s Hs. unfold st_bind. pose proof (Hmt s Hs) as Hs1.
    destruct (m s) as [s1 [a|e]]; simpl in *; [by apply Hk|done].
  - intros s s' b Hs. unfold st_bind. pose proof (Hmt s Hs) as Hs1.
    destruct (m s) as [s1 [a|e]] eqn:Hms; [|discriminate]. simpl in Hs1.
    intros Hrun. rewrite (Hm s s1 a Hs Hms). by apply Hk.
Qed.

#[export] Hint Resolve ret_sim fail_sim bind_sim : pgo.

(** ** The steps of the pipeline *)

Lemma applyIntent_sim owner p intent : sim (applyIntent owner p intent).
Proof.
  unfold applyIntent. destruct (setControllerReference p intent); [|apply fail_sim].
  apply bind_sim; [apply request_sim, apply_object_ok|intros; apply ret_sim].
Qed.

(** The NotFound branch of [clustersForServerGroup] is the reason faults
    must be transient. *)
Lemma clustersForServerGroup_sim p sg : sim (clustersForServerGroup p sg).
Proof.
  unfold clustersForServerGroup. destruct (String.eqb _ ""); [apply request_sim; eauto with pgo|].
  set (k := {| nn_namespace := namespace (pa_meta p); nn_name := sg_postgresClusterName sg |}).
  destruct (request_sim (get_cluster k) (get_cluster_ok k)) as [Ht Hr]. split.
  - intros s Hs. specialize (Ht s Hs). simpl in *.
    destruct (request (get_cluster k) s) as [s1 [c|e]]; simpl in *; [done|].
    by destruct (IsNotFound e).
  - intros s s' a Hs. simpl.
    destruct (request (get_cluster k) s) as [s1 [c|e]] eqn:Hrun.
    + intros [= <- <-]. by rewrite (Hr s s1 c Hs Hrun).
    + destruct (IsNotFound e) eqn:Hnf; [|discriminate]. intros [= <- <-].
      rewrite (request_notFound_sim (get_cluster k) s s1 e (get_cluster_ok k) Hs Hrun Hnf).
      by rewrite Hnf.
Qed.

Lemma getClustersForGroups_sim p groups acc : sim (getClustersForGroups p groups acc).
Proof.
  revert acc. induction groups as [|sg rest IH]; intros acc; simpl; [apply ret_sim|].
  apply bind_sim; [apply clustersForServerGroup_sim|intros; apply IH].
Qed.

Lemma pipeline_sim env r p : sim (pipeline env r p).
Proof.
  unfold pipeline, reconcilePGAdminSecret, reconcilePGAdminConfigMap,
    reconcilePGAdminDataVolume, reconcilePGAdminStatefulSet, getClustersForPGAdmin.
  apply bind_sim; [destruct (String.eqb _ ""); [apply fail_sim|apply applyIntent_sim]|intros ?].
  repeat (apply bind_sim; [first [apply applyIntent_sim | apply getClustersForGroups_sim]|intros ?]).
  apply ret_sim.
Qed.

(** ** Refinement *)

(** A pipeline that succeeds resolved the pgAdmin image. *)
Lemma pipeline_ok_image {S} `{!Client S} env r p (s s' : S) :
  pipeline env r p s = (s', Ok tt) -> config.StandalonePGAdminContainerImage env p <> "".
Proof.
  intros Hrun Himg. revert Hrun.
  unfold pipeline, reconcilePGAdminSecret, st_bind, st_fail. rewrite Himg. simpl. congruence.
Qed.

Lemma applyAll_set_faults os s f : applyAll os (set_faults s f) = set_faults (applyAll os s) f.
Proof.
  unfold applyAll. revert s. induction os as [|o os IH]; intros s; [done|]. simpl.
  rewrite (apply_object_ok o s f). apply IH.
Qed.

(** The objects a pipeline that succeeds on a server with transient faults
    leaves: those of the fault-free pipeline. *)
Lemma pipeline_ok_objects env r p s s' :
  transient s -> pipeline env r p s = (s', Ok tt) ->
  pgadmins s' = pgadmins s /\ clusters s' = clusters s /\
  objects s' = objects (applyAll (intents env s p) s).
Proof.
  intros Hs Hrun. pose proof (proj2 (pipeline_sim env r p) s s' tt Hs Hrun) as H0.
  rewrite pipeline_healthy in H0 by (done || by eapply pipeline_ok_image).
  apply (f_equal fst) in H0. cbn [fst] in H0.
  change (intents env (strip s) p) with (intents env s p) in H0.
  unfold strip in H0. rewrite applyAll_set_faults in H0.
  split_and!.
  - apply (f_equal pgadmins) in H0. cbn [pgadmins set_faults] in H0. by rewrite <-H0, applyAll_pgadmins.
  - apply (f_equal clusters) in H0. cbn [clusters set_faults] in H0. by rewrite <-H0, applyAll_clusters.
  - apply (f_equal objects) in H0. cbn [objects set_faults] in H0. by rewrite <-H0.
Qed.

(** The deferred status write changes no object and no cluster. *)
Lemma deferStatusPatch_keeps r b p err s :
  objects (fst (deferStatusPatch r b p err s)) = objects s /\
  clusters (fst (deferStatusPatch r b p err s)) = clusters s.
Proof.
  unfold deferStatusPatch. case_bool_decide; [done|]. rewrite StatusPatch_apiserver.
  destruct (request_cases (patch_status b p) s) as [(e & rest & _ & ->)|(rest & _ & ->)]; [done|].
  pose proof (patch_status_objects b p (set_faults s rest)) as Ho.
  pose proof (patch_status_clusters b p (set_faults s rest)) as Hc.
  destruct (patch_status b p (set_faults s rest)) as [s' x]. by simpl in *.
Qed.

(** C24: faults only delay: a pass that returns [nil] on a server whose
    scripted faults are transient leaves the objects the pass on the
    fault-free server leaves, and that pass returns [nil] too.  (A failed
    status patch does not count: it is logged, not returned.) *)
Theorem Reconcile_faults_refine env r req s s' out :
  transient s -> Reconcile env r req s = (s', out) -> out_err out = None ->
  objects s' = objects (fst (Reconcile env r req (strip s))) /\
  out_err (snd (Reconcile env r req (strip s))) = None.
Proof.
  intros Ht. rewrite !Reconcile_unfold. set (k := req_namespacedName req).
  change (Get k (strip s)) with (request (get_pgadmin k) (strip s)).
  destruct (Get k s) as [s1 [fetched|e]] eqn:HG.
  - rewrite (proj2 (request_sim _ (get_pgadmin_ok k)) s s1 fetched Ht HG).
    assert (Ht1 : transient s1).
    { pose proof (transient_preserved (CGet k) s Ht) as Ht1. cbn [run_call] in Ht1.
      by rewrite HG in Ht1. }
    destruct (pipeline env r (Default fetched) s1) as [s2 [[]|e]] eqn:HP; cbn [err_of];
      [|by destruct (deferStatusPatch _ _ _ _ _) as [? [? ?]]; intros [= _ <-]].
    rewrite (proj2 (pipeline_sim env r (Default fetched)) s1 s2 tt Ht1 HP). cbn [err_of].
    pose proof (deferStatusPatch_keeps r fetched (finalPGAdmin fetched None) None s2) as [Ho _].
    pose proof (deferStatusPatch_keeps r fetched (finalPGAdmin fetched None) None (strip s2)) as [Ho' _].
    destruct (deferStatusPatch r fetched _ None s2) as [s3 [? ?]].
    destruct (deferStatusPatch r fetched _ None (strip s2)) as [s3' [? ?]].
    simpl in *. intros [= <- _] _. by rewrite Ho, Ho'.
  - intros [= <- <-] Herr. cbn [out_err IgnoreNotFound] in Herr.
    destruct (IsNotFound e) eqn:Hnf; [|discriminate].
    rewrite (request_notFound_sim _ s s1 e (get_pgadmin_ok k) Ht HG Hnf). simpl. by rewrite Hnf.
Qed.

(** ** The theorem at the scenario *)

Import scenarios.

(** The eight requests of alpha's pipeline answered, then a conflict for
    the status patch. *)
Definition lateConflict : list (option error) := replicate 8 None ++ [Some conflict].

Lemma Reconcile_faults_refine_witness :
  transient (server lateConflict) /\
  out_err (snd (Reconcile env0 reconciler0 alphaRequest (server lateConflict))) = None /\
  objects (fst (Reconcile env0 reconciler0 alphaRequest (server lateConflict))) =
    objects (fst (Reconcile env0 reconciler0 alphaRequest (strip (server lateConflict)))) /\
  out_err (snd (Reconcile env0 reconciler0 alphaRequest (strip (server lateConflict)))) = None.
Proof.
  assert (Ht : transient (server lateConflict)) by (vm_compute; repeat constructor).
  assert (He : out_err (snd (Reconcile env0 reconciler0 alphaRequest (server lateConflict))) = None)
    by (vm_compute; reflexivity).
  split_and!; [exact Ht|exact He|..];
    apply (Reconcile_faults_refine env0 reconciler0 alphaRequest _ _ _ Ht (surjective_pairing _) He).
Defined.

End faultsim.
