(* ===== verification/Footprint.v ===== *)
(** * What a pass of [Reconcile] may change

    A pass on the request for the key [k] reads anything, applies only the
    dependents of the PGAdmin stored under [k] (named ["pgadmin-" ++ name]
    in its namespace, [dependentKey k]) and patches only the status of that
    PGAdmin.  Section [Frame] states this as a preservation principle: a
    property kept by every read, by every apply of an object named
    [dependentKey k] and by every status patch of the object under [k] is
    kept by the pass.  Its instances show that the objects of every other
    name and the PGAdmins under every other key are left as they were. *)

From S2P Require Import Prelude Api Config Client Scenarios Resolver Builders Reconcile Convergence.

Open Scope string_scope.

Module footprint.
Import apiserver resolver builders standalone_pgadmin convergence.

(** The name the dependents of the PGAdmin under [k] are built with. *)
Definition dependentKey (k : NamespacedName) : NamespacedName :=
  {| nn_namespace := nn_namespace k; nn_name := "pgadmin-" ++ nn_name k |}.

Definition readCall (c : Call) : Prop :=
  match c with CApply _ _ | CStatusPatch _ _ _ => False | _ => True end.

Lemma dependentKey_inj k1 k2 : dependentKey k1 = dependentKey k2 -> k1 = k2.
Proof.
  destruct k1 as [ns1 n1], k2 as [ns2 n2]. unfold dependentKey. simpl.
  intros [= -> Hn]. apply string_app_cancel_l in Hn. by subst.
Qed.

Lemma dependentMeta_key p :
  ObjectKeyFromMeta (dependentMeta p) = dependentKey (ObjectKeyFromMeta (pa_meta p)).
Proof. reflexivity. Qed.

Lemma setControllerReference_key p o o' :
  setControllerReference p o = Ok o' -> ObjectKey o' = ObjectKey o.
Proof. unfold setControllerReference. repeat case_match; intros; simplify_eq; done. Qed.

(** A request leaves alone every field its body leaves alone. *)
Lemma request_keeps {A T} (f : ApiServer -> T) (b : ApiServer -> ApiServer * result error A) s :
  (forall s' l, f (set_faults s' l) = f s') -> (forall s', f (fst (b s')) = f s') ->
  f (fst (request b s)) = f s.
Proof.
  intros Hf Hb. destruct (request_cases b s) as [(e & rest & _ & ->)|(rest & _ & ->)];
    simpl; [apply Hf|by rewrite Hb, Hf].
Qed.

(** A successful [Get] returns the object stored under the key. *)
Lemma Get_stored k s s1 p :
  Get k s = (s1, Ok p) -> pgadmins s !! k = Some p /\ pgadmins s1 = pgadmins s.
Proof.
  simpl. destruct (request_cases (get_pgadmin k) s) as [(e & rest & _ & ->)|(rest & _ & ->)];
    [discriminate|]. unfold get_pgadmin. simpl.
  destruct (pgadmins s !! k) eqn:Hk; [|discriminate]. by intros [= <- <-].
Qed.

(** ** The frame of a pass *)

Section Frame.
Context {S : Type} `{!Client S}.
Variable P : S -> Prop.
Variable k : NamespacedName.
Hypothesis Hread : forall c s, readCall c -> P s -> P (crun c s).
Hypothesis Happly : forall owner o s, (ObjectKey o).2 = dependentKey k ->
  P s -> P (crun (CApply owner o) s).
Hypothesis Hstatus : forall owner b a s, ObjectKeyFromMeta (pa_meta a) = k ->
  P s -> P (crun (CStatusPatch owner b a) s).

Lemma applyIntent_frame owner p intent s :
  (ObjectKey intent).2 = dependentKey k -> P s -> P (fst (applyIntent owner p intent s)).
Proof.
  intros Hkey Hs. unfold applyIntent.
  destruct (setControllerReference p intent) as [o|e] eqn:Hset; [|done].
  apply bind_pres; [|intros; done|done].
  intros s' Hs'. apply (Happly owner o s'); [|done].
  by rewrite (setControllerReference_key _ _ _ Hset).
Qed.

Lemma clustersForServerGroup_frame p sg s : P s -> P (fst (clustersForServerGroup p sg s)).
Proof.
  unfold clustersForServerGroup. destruct (String.eqb _ "").
  - apply (Hread (CListClusters _ _)). done.
  - intros Hs.
    set (kc := {| nn_namespace := namespace (pa_meta p); nn_name := sg_postgresClusterName sg |}).
    pose proof (Hread (CGetCluster kc) s I Hs) as H. cbn [crun] in H.
    destruct (GetCluster kc s) as [s' [c|e]]; simpl in *; [done|]. by destruct (IsNotFound e).
Qed.

Lemma getClustersForGroups_frame p groups acc s :
  P s -> P (fst (getClustersForGroups p groups acc s)).
Proof.
  revert acc s. induction groups as [|sg rest IH]; intros acc s Hs; [done|].
  simpl. apply bind_pres; [apply clustersForServerGroup_frame | intros; by apply IH | done].
Qed.

Lemma pipeline_frame env r p s :
  ObjectKeyFromMeta (pa_meta p) = k -> P s -> P (fst (pipeline env r p s)).
Proof.
  intros Hk. unfold pipeline, reconcilePGAdminSecret, reconcilePGAdminConfigMap,
    reconcilePGAdminDataVolume, reconcilePGAdminStatefulSet, getClustersForPGAdmin.
  destruct (String.eqb _ ""); [intros Hs; exact Hs|].
  repeat (apply bind_pres; [intros; first [apply applyIntent_frame; [by rewrite <-Hk|done]
                                          | by apply getClustersForGroups_frame]|intros ? ?]).
  done.
Qed.

Lemma deferStatusPatch_frame r before p err s :
  ObjectKeyFromMeta (pa_meta p) = k -> P s -> P (fst (deferStatusPatch r before p err s)).
Proof.
  intros Hk Hs. unfold deferStatusPatch. case_bool_decide as Heq; [done|].
  pose proof (Hstatus (Owner r) before p s Hk Hs) as Hp. cbn [crun] in Hp.
  by destruct (StatusPatch (Owner r) before p s).
Qed.

(** A pass on the request for [k] keeps [P], when the object its [Get]
    returns is the one named [k]. *)
Lemma Reconcile_frame_fetched env r s :
  (forall s1 p, Get k s = (s1, Ok p) -> ObjectKeyFromMeta (pa_meta p) = k) ->
  P s -> P (fst (Reconcile env r {| req_namespacedName := k |} s)).
Proof.
  intros Hget Hs. rewrite Reconcile_unfold. cbn [req_namespacedName].
  pose proof (Hread (CGet k) s I Hs) as Hs1. cbn [crun] in Hs1.
  destruct (Get k s) as [s1 [fetched|e]] eqn:HG; [|done]. simpl in Hs1.
  destruct (pipeline env r (Default fetched) s1) as [s2 res] eqn:HP.
  pose proof (Hget s1 fetched eq_refl) as Hkey.
  pose proof (pipeline_frame env r (Default fetched) s1 Hkey Hs1) as H2. rewrite HP in H2.
  cbv beta iota zeta.
  pose proof (deferStatusPatch_frame r fetched (finalPGAdmin fetched (err_of res))
                (err_of res) s2 ltac:(by destruct (err_of res)) H2) as H3.
  by destruct (deferStatusPatch _ _ _ _ _) as [s3 [? ?]].
Qed.
End Frame.

(** On the API server, a pass on the request for [k] keeps every [P] kept
    by the reads, by the applies of the dependents of [k] and by the status
    patches of the object under [k]. *)
Lemma Reconcile_frame (P : ApiServer -> Prop) k env r s :
  (forall c s, readCall c -> P s -> P (run_call c s)) ->
  (forall owner o s, (ObjectKey o).2 = dependentKey k -> P s -> P (run_call (CApply owner o) s)) ->
  (forall owner b a s, ObjectKeyFromMeta (pa_meta a) = k -> P s -> P (run_call (CStatusPatch owner b a) s)) ->
  wf s -> P s -> P (fst (Reconcile env r {| req_namespacedName := k |} s)).
Proof.
  intros Hread Happly Hstatus (Hwf & _ & _).
  apply (Reconcile_frame_fetched P k Hread Happly Hstatus).
  intros s1 p HG. destruct (Get_stored k s s1 p HG) as [Hk _]. exact (Hwf _ _ Hk).
Qed.

(** ** Instances: what a pass leaves alone *)

Lemma read_keeps {T} (f : ApiServer -> T) c s :
  (forall s' l, f (set_faults s' l) = f s') -> readCall c -> f (run_call c s) = f s.
Proof.
  intros Hf Hc. destruct c; try done; cbn [run_call]; simpl; apply request_keeps; try done;
    intros s'.
  - unfold get_pgadmin. by destruct (_ !! _).
  - unfold get_cluster. by destruct (_ !! _).
Qed.

Lemma patch_status_pgadmins_other b a s k0 :
  k0 <> ObjectKeyFromMeta (pa_meta a) ->
  pgadmins (fst (patch_status b a s)) !! k0 = pgadmins s !! k0.
Proof.
  intros Hne. unfold patch_status. repeat case_match; simpl; try done.
  by rewrite lookup_insert_ne.
Qed.

(** The objects not named [dependentKey k] are left as they were. *)
Lemma Reconcile_objects_other env r k s x :
  wf s -> x.2 <> dependentKey k ->
  objects (fst (Reconcile env r {| req_namespacedName := k |} s)) !! x = objects s !! x.
Proof.
  intros Hwf Hx.
  apply (Reconcile_frame (fun s' => objects s' !! x = objects s !! x) k); [| | |done|done].
  - intros c s' Hc <-. by apply (read_keeps (fun s => objects s !! x)).
  - intros owner o s' Ho <-. cbn [run_call]. simpl. apply (request_keeps (fun s => objects s !! x)); [done|].
    intros s''. apply apply_object_other. by intros ->.
  - intros owner b a s' _ <-. cbn [run_call]. simpl. apply (request_keeps (fun s => objects s !! x)); [done|].
    intros s''. by rewrite patch_status_objects.
Qed.

(** The PGAdmins under another key are left as they were. *)
Lemma Reconcile_pgadmins_other env r k s k0 :
  wf s -> k0 <> k ->
  pgadmins (fst (Reconcile env r {| req_namespacedName := k |} s)) !! k0 = pgadmins s !! k0.
Proof.
  intros Hwf Hk0.
  apply (Reconcile_frame (fun s' => pgadmins s' !! k0 = pgadmins s !! k0) k); [| | |done|done].
  - intros c s' Hc <-. by apply (read_keeps (fun s => pgadmins s !! k0)).
  - intros owner o s' _ <-. cbn [run_call]. simpl. apply (request_keeps (fun s => pgadmins s !! k0)); [done|].
    intros s''. by rewrite apply_object_pgadmins.
  - intros owner b a s' Ha <-. cbn [run_call]. simpl. apply (request_keeps (fun s => pgadmins s !! k0)); [done|].
    intros s''. apply patch_status_pgadmins_other. by rewrite Ha.
Qed.

(** C25: a pass on the request for [k] changes nothing outside its own
    PGAdmin: every object not named [pgadmin-<name>] of that PGAdmin and
    every PGAdmin under another key keep their stored value, and no
    cluster is written, whatever the faults. *)
Theorem Reconcile_footprint env r k s :
  wf s ->
  (forall x, x.2 <> dependentKey k ->
     objects (fst (Reconcile env r {| req_namespacedName := k |} s)) !! x = objects s !! x) /\
  (forall k0, k0 <> k ->
     pgadmins (fst (Reconcile env r {| req_namespacedName := k |} s)) !! k0 = pgadmins s !! k0) /\
  clusters (fst (Reconcile env r {| req_namespacedName := k |} s)) = clusters s.
Proof.
  intros Hwf. split_and!.
  - intros x Hx. by apply Reconcile_objects_other.
  - intros k0 Hk0. by apply Reconcile_pgadmins_other.
  - by apply (Reconcile_pres _ (clusters_preserved (clusters s))).
Qed.

Import scenarios.

(** A conflict on the ConfigMap apply. *)
Definition configMapConflict : list (option error) := replicate 5 None ++ [Some conflict].

Lemma Reconcile_footprint_witness :
  wf (server configMapConflict) /\
  (forall x, x.2 <> dependentKey alphaKey ->
     objects (fst (Reconcile env0 reconciler0 alphaRequest (server configMapConflict))) !! x =
     objects (server configMapConflict) !! x) /\
  (forall k0, k0 <> alphaKey ->
     pgadmins (fst (Reconcile env0 reconciler0 alphaRequest (server configMapConflict))) !! k0 =
     pgadmins (server configMapConflict) !! k0) /\
  clusters (fst (Reconcile env0 reconciler0 alphaRequest (server configMapConflict))) =
    clusters (server configMapConflict).
Proof.
  assert (Hwf : wf (server configMapConflict)) by vm_decide.
  split; [exact Hwf|exact (Reconcile_footprint env0 reconciler0 alphaKey _ Hwf)].
Defined.

End footprint.
