(* ===== verification/Manager.v ===== *)
(** * The manager: work queue, watches and workers as a step relation

    controller-runtime runs the reconciler [SetupWithManager] registers: the
    informers deliver the events of the watched kinds to the handlers,
    which add requests to a work queue, and a worker takes the request at
    the head of the queue, runs [Reconcile] on it, and puts it back
    (rate limited) when [Reconcile] returned an error.  The manager is not
    code of the repository; it is modelled from that contract.

    [World] is the queue and the API server.  [step] has two rules: an
    external actor changes an object ([Change]) and the handler of the
    event runs ([SetupWithManager] on the new state); or a worker processes
    the head of the queue ([work]).  The invariants are proved by rule
    induction over [rtc step]. *)

From S2P Require Import Prelude Api Config Client Scenarios Resolver Builders Reconcile Watch Convergence Faults.

Open Scope string_scope.

Module manager.
Import apiserver resolver builders standalone_pgadmin watch convergence faultsim.

Record World := { wq : list Request; api : ApiServer }.

(** What an external actor does to the objects the controller reads. *)
Inductive Change :=
| ApplyCluster (c : PostgresCluster)
| DeleteCluster (k : NamespacedName)
| ApplyPGAdmin (p : PGAdmin)
| DeletePGAdmin (k : NamespacedName)
| EditDependent (o : Object).

Definition set_clusters (s : ApiServer) (m : gmap NamespacedName PostgresCluster) : ApiServer :=
  {| pgadmins := pgadmins s; clusters := m; objects := objects s; faults := faults s |}.

(** The server after a change, and the event the informers deliver: an
    update carries the old and the new object, a delete the last state. *)
Definition applyChange (ch : Change) (s : ApiServer) : ApiServer * option WatchEvent :=
  match ch with
  | ApplyCluster c =>
      let k := ObjectKeyFromMeta (pc_meta c) in
      (set_clusters s (<[k := c]> (clusters s)),
       Some (ClusterWatchEvent (match clusters s !! k with
                                | Some old => UpdateEvent old c
                                | None => CreateEvent c
                                end)))
  | DeleteCluster k =>
      match clusters s !! k with
      | Some old => (set_clusters s (delete k (clusters s)), Some (ClusterWatchEvent (DeleteEvent old)))
      | None => (s, None)
      end
  | ApplyPGAdmin p =>
      (set_pgadmins s (<[ObjectKeyFromMeta (pa_meta p) := p]> (pgadmins s)), Some (PGAdminEvent p))
  | DeletePGAdmin k =>
      match pgadmins s !! k with
      | Some old => (set_pgadmins s (delete k (pgadmins s)), Some (PGAdminEvent old))
      | None => (s, None)
      end
  | EditDependent o =>
      (set_objects s (<[ObjectKey o := o]> (objects s)), Some (DependentEvent o))
  end.

(** The handlers of the event run on the new state. *)
Definition deliver (ev : option WatchEvent) (q : list Request) (s : ApiServer) : World :=
  match ev with
  | Some e => let '(s', q') := SetupWithManager e q s in {| wq := q'; api := s' |}
  | None => {| wq := q; api := s |}
  end.

(** A worker: [Reconcile] on the request; after an error the request is
    added back ([AddRateLimited]), after success it is dropped. *)
Definition work (env : Env) (r : PGAdminReconciler) (req : Request) (rest : list Request)
           (s : ApiServer) : World :=
  let '(s', out) := Reconcile env r req s in
  {| wq := match out_err out with Some _ => Add rest req | None => rest end; api := s' |}.

(** An external change and the handling of its event. *)
Definition changeStep (ch : Change) (w : World) : World :=
  let '(s', ev) := applyChange ch (api w) in deliver ev (wq w) s'.

Inductive step (env : Env) (r : PGAdminReconciler) : World -> World -> Prop :=
| step_change w ch : step env r w (changeStep ch w)
| step_work w req rest :
    wq w = req :: rest -> step env r w (work env r req rest (api w)).

(** ** The queue and the server stay well formed *)

Definition sane (w : World) : Prop := NoDup (wq w) /\ wf (api w) /\ transient (api w).

Lemma applyChange_sane ch s : wf s -> wf (fst (applyChange ch s)) /\ faults (fst (applyChange ch s)) = faults s.
Proof.
  intros (Hp & Hc & Ho). destruct ch as [c|k|p|k|o]; simpl.
  - split; [|done]. split_and!; [done| |done]. by apply map_Forall_insert_2.
  - destruct (clusters s !! k); simpl; [|done].
    split; [|done]. split_and!; [done| |done]. by apply map_Forall_delete.
  - split; [|done]. split_and!; [|done|done]. by apply map_Forall_insert_2.
  - destruct (pgadmins s !! k); simpl; [|done].
    split; [|done]. split_and!; [|done|done]. by apply map_Forall_delete.
  - split; [|done]. split_and!; [done|done|]. by apply map_Forall_insert_2.
Qed.

(** The handlers make at most one call, a list of PGAdmins. *)
Lemma SetupWithManager_state ev q s :
  fst (SetupWithManager ev q s) = s \/
  exists ns, fst (SetupWithManager ev q s) = run_call (CListPGAdmins ns) s.
Proof.
  destruct ev as [p|e|o]; [by left| |by left].
  right. destruct e as [c|o c|c]; cbn [SetupWithManager watchPostgresClusters];
    unfold handle, findPGAdminsForPostgresCluster;
    exists (namespace (pc_meta c)); cbn [run_call];
    destruct (ListPGAdmins (namespace (pc_meta c)) s) as [s' [l|err]]; reflexivity.
Qed.

Lemma SetupWithManager_queue_NoDup ev q s :
  NoDup q -> NoDup (snd (SetupWithManager ev q s)).
Proof.
  intros Hq. destruct ev as [p|e|o]; simpl; [by apply Add_NoDup| |done].
  destruct e as [c|o c|c]; simpl; unfold handle;
    destruct (findPGAdminsForPostgresCluster c s); by apply fold_Add_NoDup.
Qed.

Lemma deliver_sane ev q s : sane {| wq := q; api := s |} -> sane (deliver ev q s).
Proof.
  intros (Hq & Hwf & Ht). destruct ev as [e|]; [|done]. unfold deliver.
  pose proof (SetupWithManager_queue_NoDup e q s Hq) as Hq'.
  destruct (SetupWithManager_state e q s) as [Hs|[ns Hs]];
    destruct (SetupWithManager e q s) as [s' q']; simpl in *; subst s';
    split_and!; try done.
  - exact (wf_preserved (CListPGAdmins ns) s Hwf).
  - exact (transient_preserved (CListPGAdmins ns) s Ht).
Qed.

Lemma work_sane env r req rest s :
  sane {| wq := req :: rest; api := s |} -> sane (work env r req rest s).
Proof.
  intros (Hq & Hwf & Ht). apply NoDup_cons in Hq as [_ Hrest]. unfold work.
  pose proof (Reconcile_pres _ wf_preserved env r req s Hwf) as Hwf'.
  pose proof (Reconcile_pres _ transient_preserved env r req s Ht) as Ht'.
  destruct (Reconcile env r req s) as [s' out]. simpl in *.
  split_and!; try done; destruct (out_err out); try apply Add_NoDup; done.
Qed.

Lemma step_sane env r w w' : step env r w w' -> sane w -> sane w'.
Proof.
  intros [w0 ch|w0 req rest Hq] Hs.
  - destruct (applyChange_sane ch (api w0)) as [Hwf Hf]; [apply Hs|].
    unfold changeStep. destruct (applyChange ch (api w0)) as [s' ev] eqn:Hch. simpl in *.
    apply deliver_sane. destruct Hs as (Hq & _ & Ht).
    split_and!; [done|done|]. unfold transient in *. simpl. by rewrite Hf.
  - apply work_sane. destruct w0 as [q s]. simpl in *. by subst q.
Qed.

End manager.
