(* ===== verification/Freshness.v ===== *)
(** * No missed reconciliation: the level-triggered invariant

    The controller is correct when every stored PGAdmin is either waiting
    in the work queue or fresh: its four dependents are stored as the
    builders give them for the clusters the PGAdmin currently selects
    ([fresh]).  The clusters of a group are listed in the order of the
    server's list, so the resolution is compared up to the order of each
    group's clusters ([resEquiv]).

    [levelTriggered] is that invariant on a [World] of the manager.  This
    file shows what keeps it: a worker step always (a failing pass requeues
    its request, a successful one leaves the PGAdmin fresh, and a pass
    touches no other PGAdmin's dependents); the creation or deletion of a
    cluster, and any change of a PGAdmin, when the server answers the
    handler's list; an update of a cluster when every PGAdmin that selected
    the old object selects the new one ([watched]).  [watchedStep] is the
    step relation restricted to those changes, and the invariant holds
    along its runs.  It does not survive an edit of a dependent (no [Owns]
    watch), an update of a cluster that drops a selection (the update is
    mapped with its new object only), nor a cluster event whose handler's
    list fails (the handler has no error result): the three
    counterexamples, runs from the scenario, are at the end. *)

From S2P Require Import Prelude Api Config Client Scenarios Resolver Builders Reconcile Watch Convergence Faults Footprint Manager.

Open Scope string_scope.

Module freshness.
Import apiserver resolver builders standalone_pgadmin watch convergence faultsim footprint manager.

(** Two resolutions listing the same clusters for each group. *)
Definition resEquiv (r1 r2 : gmap string (list PostgresCluster)) : Prop :=
  forall g, option_Forall2 (≡ₚ) (r1 !! g) (r2 !! g).

(** The four objects a pass applies for [p] and the resolution [res]. *)
Definition intentsWith (env : Env) (p : PGAdmin) (res : gmap string (list PostgresCluster))
  : list Object :=
  let cm := owned p (pgadminConfigMap p res) in
  let dv := owned p (pgadminDataVolume p) in
  [owned p (pgadminSecret p); cm; dv;
   owned p (pgadminStatefulSet p (config.StandalonePGAdminContainerImage env p) cm dv)].

(** The dependents of [p] are stored as a pass on the current clusters
    applies them. *)
Definition fresh (env : Env) (s : ApiServer) (p : PGAdmin) : Prop :=
  exists res, resEquiv res (resolved s p) /\ Forall (holds s) (intentsWith env p res).

(** Every stored PGAdmin is queued or fresh. *)
Definition levelTriggered (env : Env) (w : World) : Prop :=
  forall k p, pgadmins (api w) !! k = Some p ->
  {| req_namespacedName := k |} ∈ wq w \/ fresh env (api w) p.

(** ** Resolutions up to the order of the clusters *)

#[export] Instance resEquiv_equiv : Equivalence resEquiv.
Proof.
  split.
  - intros r g. by destruct (r !! g); constructor.
  - intros r1 r2 H g. specialize (H g). inversion H; constructor; by symmetry.
  - intros r1 r2 r3 H12 H23 g. specialize (H12 g). specialize (H23 g).
    destruct (r1 !! g), (r2 !! g), (r3 !! g); inversion H12; inversion H23; subst;
      constructor; by etrans.
Qed.

Lemma map_to_list_split {A} (m : gmap NamespacedName A) kc :
  map_to_list m ≡ₚ
    (match m !! kc with Some c => [(kc, c)] | None => [] end) ++ map_to_list (delete kc m).
Proof.
  destruct (m !! kc) eqn:E; simpl.
  - symmetry. by apply map_to_list_delete.
  - by rewrite delete_id.
Qed.

(** A group that selects neither the old nor the new object under [kc]
    lists the same clusters before and after the change. *)
Lemma resolveGroup_perm s s' p sg kc :
  (forall k, k <> kc -> clusters s' !! k = clusters s !! k) ->
  (forall c, clusters s !! kc = Some c \/ clusters s' !! kc = Some c ->
     ObjectKeyFromMeta (pc_meta c) = kc /\
     String.eqb (namespace (pc_meta c)) (namespace (pa_meta p)) && serverGroupSelects sg c = false) ->
  resolveGroup s' p sg ≡ₚ resolveGroup s p sg.
Proof.
  intros Hagree Hsel. unfold resolveGroup.
  destruct (String.eqb_spec (sg_postgresClusterName sg) "") as [Hn|Hn].
  - assert (Hdel : delete kc (clusters s') = delete kc (clusters s)).
    { apply map_eq. intros k. destruct (decide (k = kc)) as [->|Hk].
      - by rewrite !lookup_delete_eq.
      - rewrite !lookup_delete_ne by done. by apply Hagree. }
    assert (Hhead : forall m : gmap NamespacedName PostgresCluster, (forall c, m !! kc = Some c ->
               String.eqb (namespace (pc_meta c)) (namespace (pa_meta p)) &&
               selector_matches (sg_postgresClusterSelector sg) (labels (pc_meta c)) = false) ->
      List.filter (fun c => String.eqb (namespace (pc_meta c)) (namespace (pa_meta p)) &&
                            selector_matches (sg_postgresClusterSelector sg) (labels (pc_meta c)))
        (map snd (map_to_list m)) ≡ₚ
      List.filter (fun c => String.eqb (namespace (pc_meta c)) (namespace (pa_meta p)) &&
                            selector_matches (sg_postgresClusterSelector sg) (labels (pc_meta c)))
        (map snd (map_to_list (delete kc m)))).
    { intros m Hm. etrans; [apply filterb_perm, Permutation_map, (map_to_list_split m kc)|].
      rewrite map_app, List.filter_app.
      destruct (m !! kc) as [c|] eqn:E; simpl; [|done]. by rewrite Hm. }
    rewrite (Hhead (clusters s')), (Hhead (clusters s)), Hdel; [done| |];
      intros c Hc; destruct (Hsel c) as [_ Hf]; auto;
      unfold serverGroupSelects in Hf; by rewrite (proj2 (String.eqb_eq _ _) Hn) in Hf.
  - set (kn := {| nn_namespace := namespace (pa_meta p); nn_name := sg_postgresClusterName sg |}).
    destruct (decide (kn = kc)) as [Heq|Hne]; [|by rewrite Hagree].
    assert (Hnone : forall c, ~ (clusters s !! kc = Some c \/ clusters s' !! kc = Some c)).
    { intros c Hc. destruct (Hsel c Hc) as [Hkey Hf]. rewrite <-Heq in Hkey.
      unfold kn, ObjectKeyFromMeta in Hkey. injection Hkey as Hns Hnm.
      unfold serverGroupSelects in Hf. apply String.eqb_neq in Hn. rewrite Hn in Hf.
      by rewrite Hns, Hnm, !String.eqb_refl in Hf. }
    rewrite Heq. destruct (clusters s !! kc) eqn:E1, (clusters s' !! kc) eqn:E2;
      try (exfalso; by eapply Hnone; eauto); done.
Qed.

Lemma resolution_equiv s s' p groups acc acc' :
  (forall sg, sg ∈ groups -> resolveGroup s' p sg ≡ₚ resolveGroup s p sg) ->
  resEquiv acc' acc -> resEquiv (resolution s' p groups acc') (resolution s p groups acc).
Proof.
  unfold resolution. revert acc acc'.
  induction groups as [|sg gs IH]; intros acc acc' Hg Hacc; simpl; [done|].
  apply IH; [intros; apply Hg; by right|].
  intros g. destruct (decide (g = sg_name sg)) as [->|Hne].
  - rewrite !lookup_insert_eq. constructor. apply Hg. by left.
  - rewrite !lookup_insert_ne by done. apply Hacc.
Qed.

(** ** Freshness depends on the clusters and the PGAdmin's own dependents *)

Lemma intentsWith_keys env p res o :
  o ∈ intentsWith env p res -> (ObjectKey o).2 = dependentKey (ObjectKeyFromMeta (pa_meta p)).
Proof.
  unfold intentsWith. intros Ho.
  repeat (apply elem_of_cons in Ho as [->|Ho]; [reflexivity|]).
  by apply not_elem_of_nil in Ho.
Qed.

Lemma resolved_clusters s s' p : clusters s' = clusters s -> resolved s' p = resolved s p.
Proof. intros Hc. unfold resolved. by apply resolution_clusters. Qed.

Lemma holds_objects s s' o : objects s' = objects s -> holds s o -> holds s' o.
Proof. unfold holds. by intros ->. Qed.

Lemma fresh_frame env s s' p :
  clusters s' = clusters s ->
  (forall x, x.2 = dependentKey (ObjectKeyFromMeta (pa_meta p)) -> objects s' !! x = objects s !! x) ->
  fresh env s p -> fresh env s' p.
Proof.
  intros Hc Ho (res & Hres & Hholds). exists res. rewrite (resolved_clusters s s' p Hc).
  split; [done|]. apply Forall_forall. intros o Hin.
  destruct (proj1 (Forall_forall _ _) Hholds o Hin) as (o' & Hk & Hcont).
  exists o'. rewrite Ho; [done|]. by apply (intentsWith_keys env p res).
Qed.

(** ** A worker step *)

(** A NotFound from [Get] on a server with transient faults comes from
    the server: nothing is stored under the key. *)
Lemma Get_notFound k s s1 e :
  transient s -> Get k s = (s1, Err e) -> IsNotFound e = true -> pgadmins s1 !! k = None.
Proof.
  intros Ht HG Hnf. simpl in HG. unfold request in HG.
  destruct (faults s) as [|[e'|] rest] eqn:Hf.
  - unfold get_pgadmin in HG. by destruct (pgadmins s !! k) eqn:E; simplify_eq/=.
  - injection HG as _ ->. unfold transient in Ht. rewrite Hf in Ht.
    apply Forall_inv in Ht. congruence.
  - unfold get_pgadmin in HG. simpl in HG.
    by destruct (pgadmins s !! k) eqn:E; simplify_eq/=.
Qed.

(** A pass that returns [nil] leaves the PGAdmin of its request fresh. *)
Lemma pass_ok_fresh env r k s s' out p :
  wf s -> transient s -> Reconcile env r {| req_namespacedName := k |} s = (s', out) ->
  out_err out = None -> pgadmins s' !! k = Some p -> fresh env s' p.
Proof.
  intros Hwf Ht. rewrite Reconcile_unfold. cbn [req_namespacedName].
  destruct (Get k s) as [s1 [fetched|e]] eqn:HG.
  - destruct (pipeline env r (Default fetched) s1) as [s2 res] eqn:HP. cbv beta iota zeta.
    destruct (deferStatusPatch r fetched (finalPGAdmin fetched (err_of res)) (err_of res) s2)
      as [s3 [x dlog]] eqn:HD.
    intros [= <- <-] Herr Hp. simpl in Herr. destruct res as [[]|e]; [|discriminate].
    cbn [err_of] in HD.
    assert (Ht1 : transient s1).
    { pose proof (transient_preserved (CGet k) s Ht) as Ht1. cbn [run_call] in Ht1.
      by rewrite HG in Ht1. }
    destruct (pipeline_ok_objects env r (Default fetched) s1 s2 Ht1 HP) as (Hp2 & Hc2 & Ho2).
    destruct (deferStatusPatch_keeps r fetched (finalPGAdmin fetched None) None s2) as [Ho3 Hc3].
    rewrite HD in Ho3, Hc3. simpl in Ho3, Hc3.
    destruct (Get_stored k s s1 fetched HG) as [Hk Hp1].
    assert (Hst : storedAs k fetched s3).
    { change s3 with (fst (s3, (x, dlog))). rewrite <-HD.
      apply deferStatusPatch_pres; [apply storedAs_preserved|].
      exists fetched. by rewrite Hp2, Hp1. }
    destruct Hst as (p' & Hp' & Hid). rewrite Hp in Hp'. injection Hp' as <-.
    exists (resolved s3 p). split; [reflexivity|].
    change (intentsWith env p (resolved s3 p)) with (intents env s3 p).
    rewrite <-(intents_sameIdentity env s1 s3 fetched p Hid) by congruence.
    change (intents env s1 fetched) with (intents env s1 (Default fetched)).
    eapply Forall_impl; [apply applyAll_holds, intents_keys|].
    intros o. apply holds_objects. by rewrite Ho3, Ho2.
  - intros [= <- <-] Herr Hp. simpl in Herr.
    destruct (IsNotFound e) eqn:Hnf; [|discriminate].
    by rewrite (Get_notFound k s s1 e Ht HG Hnf) in Hp.
Qed.

Lemma levelTriggered_work env r req rest s :
  sane {| wq := req :: rest; api := s |} ->
  levelTriggered env {| wq := req :: rest; api := s |} ->
  levelTriggered env (work env r req rest s).
Proof.
  destruct req as [k]. intros (Hnd & Hwf & Ht) Hinv k0 p0. unfold work.
  pose proof (Reconcile_pres _ (clusters_preserved (clusters s)) env r {| req_namespacedName := k |} s
                eq_refl) as Hc.
  pose proof (Reconcile_objects_other env r k s) as Hobj.
  pose proof (Reconcile_pgadmins_other env r k s) as Hpg.
  destruct (Reconcile env r {| req_namespacedName := k |} s) as [s' out] eqn:HR.
  simpl in *. intros Hp0.
  assert (Hq : forall q, {| req_namespacedName := k0 |} ∈ q ->
            {| req_namespacedName := k0 |} ∈ match out_err out with Some _ => Add q {| req_namespacedName := k |} | None => q end).
  { intros q Hin. destruct (out_err out); [apply elem_of_Add; by left|done]. }
  destruct (decide (k0 = k)) as [->|Hne].
  - destruct (out_err out) eqn:He.
    + left. apply elem_of_Add. by right.
    + right. by apply (pass_ok_fresh env r k s s' out p0).
  - rewrite Hpg in Hp0 by done. destruct (Hinv k0 p0 Hp0) as [Hin|Hfr].
    + left. apply Hq. apply elem_of_cons in Hin as [Heq|Hin]; [|exact Hin].
      injection Heq. congruence.
    + right. apply (fresh_frame env s); [done| |exact Hfr]. intros x Hx. apply Hobj; [done|].
      rewrite Hx. destruct Hwf as (Hpw & _ & _). rewrite (Hpw _ _ Hp0).
      by intros ?%dependentKey_inj.
Qed.

(** ** A change and its event *)

(** The changes whose events reach every PGAdmin they concern: an update
    of a cluster after which every stored PGAdmin that selected the old
    object selects the new one, any create or delete of a cluster, any
    change of a PGAdmin; not an edit of a dependent, which no handler
    watches. *)
Definition watched (ch : Change) (s : ApiServer) : Prop :=
  match ch with
  | ApplyCluster c => forall old p,
      clusters s !! ObjectKeyFromMeta (pc_meta c) = Some old ->
      pgadmins s !! ObjectKeyFromMeta (pa_meta p) = Some p ->
      pgadminSelects p old = true -> pgadminSelects p c = true
  | EditDependent _ => False
  | _ => True
  end.

Lemma notSelects_group p c sg :
  pgadminSelects p c = false -> sg ∈ pa_serverGroups (pa_spec p) ->
  String.eqb (namespace (pc_meta c)) (namespace (pa_meta p)) && serverGroupSelects sg c = false.
Proof.
  unfold pgadminSelects. intros Hf Hsg.
  destruct (String.eqb_spec (namespace (pc_meta c)) (namespace (pa_meta p))) as [Heq|]; [|done].
  rewrite Heq, String.eqb_refl in Hf. simpl in *.
  destruct (serverGroupSelects sg c) eqn:E; [|done].
  enough (existsb (fun sg => serverGroupSelects sg c) (pa_serverGroups (pa_spec p)) = true) by congruence.
  apply existsb_exists. exists sg. by rewrite <-list_elem_of_In.
Qed.

(** A PGAdmin that selects neither the old nor the new object under [kc]
    stays fresh when that object changes. *)
Lemma fresh_clusters_change env s s' p kc :
  objects s' = objects s ->
  (forall k, k <> kc -> clusters s' !! k = clusters s !! k) ->
  (forall c, clusters s !! kc = Some c \/ clusters s' !! kc = Some c ->
     ObjectKeyFromMeta (pc_meta c) = kc /\ pgadminSelects p c = false) ->
  fresh env s p -> fresh env s' p.
Proof.
  intros Ho Hag Hsel (res & Hres & Hh). exists res. split.
  - etrans; [exact Hres|]. symmetry. apply resolution_equiv; [|reflexivity].
    intros sg Hsg. apply (resolveGroup_perm _ _ _ _ kc); [done|].
    intros c Hc. destruct (Hsel c Hc) as [Hk Hf]. split; [done|]. by apply notSelects_group.
  - eapply Forall_impl; [exact Hh|]. intros o. by apply holds_objects.
Qed.

Lemma deliver_cluster e q s :
  deliver (Some (ClusterWatchEvent e)) q s =
  {| wq := snd (handle (eventObject e) q s); api := fst (handle (eventObject e) q s) |}.
Proof.
  unfold deliver. cbn [SetupWithManager]. rewrite watchPostgresClusters_handle.
  by destruct (handle _ q s).
Qed.

(** The handler of a cluster event queues every PGAdmin that selects the
    event's object; the others keep their resolution when every PGAdmin
    that selects the old or new object under [kc] selects that object. *)
Lemma levelTriggered_clusterEvent env q s s' c kc :
  healthy s' -> wf s' -> pgadmins s' = pgadmins s -> objects s' = objects s ->
  (forall k, k <> kc -> clusters s' !! k = clusters s !! k) ->
  (forall c' p, clusters s !! kc = Some c' \/ clusters s' !! kc = Some c' ->
     ObjectKeyFromMeta (pc_meta c') = kc /\
     (pgadmins s !! ObjectKeyFromMeta (pa_meta p) = Some p ->
      pgadminSelects p c' = true -> pgadminSelects p c = true)) ->
  levelTriggered env {| wq := q; api := s |} ->
  levelTriggered env {| wq := snd (handle c q s'); api := fst (handle c q s') |}.
Proof.
  intros Hh Hwf Hp Ho Hag Hsel Hinv k0 p0.
  assert (Hs : fst (handle c q s') = s') by (unfold handle; by rewrite findPGAdmins_healthy).
  simpl. rewrite Hs, elem_of_handle by done. intros Hp0.
  assert (Hk0 : ObjectKeyFromMeta (pa_meta p0) = k0) by exact (proj1 Hwf _ _ Hp0).
  rewrite Hp in Hp0. destruct (pgadminSelects p0 c) eqn:Hc.
  - left. right. exists p0. rewrite Hp, Hk0. split_and!; [done|done|]. unfold requestFor. by rewrite Hk0.
  - destruct (Hinv k0 p0 Hp0) as [Hin|Hfr]; [left; by left|right].
    apply (fresh_clusters_change env s s' p0 kc); [done|done| |done].
    intros c' Hc'. destruct (Hsel c' p0 Hc') as [Hkey Himp]. split; [done|].
    destruct (pgadminSelects p0 c') eqn:E; [|done]. rewrite <-Hk0 in Hp0.
    by rewrite (Himp Hp0 eq_refl) in Hc.
Qed.

(** A PGAdmin event queues its PGAdmin and changes no other. *)
Lemma levelTriggered_pgadminEvent env q s s' p :
  clusters s' = clusters s -> objects s' = objects s ->
  (forall k0 p0, pgadmins s' !! k0 = Some p0 ->
     k0 = ObjectKeyFromMeta (pa_meta p) \/ pgadmins s !! k0 = Some p0) ->
  levelTriggered env {| wq := q; api := s |} ->
  levelTriggered env {| wq := Add q (requestFor p); api := s' |}.
Proof.
  intros Hc Ho Hpg Hinv k0 p0 Hp0. simpl. rewrite elem_of_Add.
  destruct (Hpg k0 p0 Hp0) as [->|Hp0']; [left; by right|].
  destruct (Hinv k0 p0 Hp0') as [Hin|Hfr]; [left; by left|right].
  apply (fresh_frame env s); [done|intros; by rewrite Ho|done].
Qed.

Lemma levelTriggered_change env ch w :
  wf (api w) -> healthy (api w) -> watched ch (api w) ->
  levelTriggered env w -> levelTriggered env (changeStep ch w).
Proof.
  destruct w as [q s]. intros Hwf Hh Hw Hinv. simpl in Hwf, Hh, Hw.
  pose proof (proj1 (applyChange_sane ch s Hwf)) as Hwf'.
  unfold changeStep. destruct ch as [c|k|p|k|o]; cbn [applyChange api wq] in *.
  - rewrite deliver_cluster.
    replace (eventObject _) with c by (by destruct (clusters s !! _)).
    apply (levelTriggered_clusterEvent env q s _ c (ObjectKeyFromMeta (pc_meta c)));
      try done.
    + intros k Hk. simpl. by rewrite lookup_insert_ne.
    + intros c' p Hc'. simpl in Hc'. rewrite lookup_insert_eq in Hc'.
      destruct Hc' as [Hc'|[= <-]]; [|done].
      split; [exact (proj1 (proj2 Hwf) _ _ Hc')|exact (Hw c' p Hc')].
  - destruct (clusters s !! k) as [old|] eqn:E; [|exact Hinv].
    rewrite deliver_cluster. apply (levelTriggered_clusterEvent env q s _ old k); try done.
    + intros k' Hk. simpl. by rewrite lookup_delete_ne.
    + intros c' p Hc'. simpl in Hc'. rewrite lookup_delete_eq, E in Hc'.
      destruct Hc' as [[= <-]|?]; [|done].
      split; [exact (proj1 (proj2 Hwf) _ _ E)|done].
  - apply (levelTriggered_pgadminEvent env q s); [done|done| |done].
    intros k0 p0. simpl. destruct (decide (k0 = ObjectKeyFromMeta (pa_meta p))) as [->|Hne];
      [by left|rewrite lookup_insert_ne by done; by right].
  - destruct (pgadmins s !! k) as [old|] eqn:E; [|exact Hinv].
    apply (levelTriggered_pgadminEvent env q s); [done|done| |done].
    intros k0 p0. simpl. destruct (decide (k0 = k)) as [->|Hne];
      [by rewrite lookup_delete_eq|rewrite lookup_delete_ne by done; by right].
  - done.
Qed.

(** ** Runs of the manager *)

(** The steps whose changes the watches cover: a change of a watched kind
    whose handler can list the PGAdmins, and any worker step. *)
Inductive watchedStep (env : Env) (r : PGAdminReconciler) : World -> World -> Prop :=
| ws_change w ch : healthy (api w) -> watched ch (api w) -> watchedStep env r w (changeStep ch w)
| ws_work w req rest : wq w = req :: rest -> watchedStep env r w (work env r req rest (api w)).

Lemma watchedStep_step env r w w' : watchedStep env r w w' -> step env r w w'.
Proof. intros [w0 ch _ _|w0 req rest Hq]; [apply step_change|by apply step_work]. Qed.

Lemma watchedStep_levelTriggered env r w w' :
  watchedStep env r w w' -> sane w -> levelTriggered env w -> levelTriggered env w'.
Proof.
  intros [w0 ch Hh Hw|[q s] req rest Hq] Hs Hinv; [apply levelTriggered_change; by try apply Hs|].
  simpl in Hq. subst q. by apply levelTriggered_work.
Qed.

(** C18: along every run of the manager whose changes the watches cover,
    the queue stays duplicate-free, the server well formed with transient
    faults, and every stored PGAdmin stays queued or fresh: no change that
    concerns a PGAdmin is lost. *)
Theorem levelTriggered_reachable env r w w' :
  rtc (watchedStep env r) w w' -> sane w -> levelTriggered env w ->
  sane w' /\ levelTriggered env w'.
Proof.
  induction 1 as [w|w1 w2 w3 Hst _ IH]; intros Hs Hinv; [done|].
  apply IH; [apply (step_sane env r w1 w2); [by apply watchedStep_step|done]
           |by eapply watchedStep_levelTriggered].
Qed.

(** ** Runs at the scenario *)

Import scenarios.

(** No PGAdmin yet; then alpha is created, reconciled, db2 deleted and
    alpha reconciled again. *)
Definition world0 : World := {| wq := []; api := serverWith [] [] |}.
Definition world2 : World :=
  work env0 reconciler0 alphaRequest [] (api (changeStep (ApplyPGAdmin alpha) world0)).
Definition world4 : World :=
  work env0 reconciler0 alphaRequest [] (api (changeStep (DeleteCluster (keyOf db2)) world2)).

(** An edit of alpha's Secret after the first pass. *)
Definition editedSecret : Object :=
  {| obj_kind := Secret; obj_meta := obj_meta (owned alpha (pgadminSecret alpha));
     obj_data := {["owner-uid" := "edited"]} |}.

Lemma world0_start : sane world0 /\ levelTriggered env0 world0.
Proof.
  split; [split_and!; [constructor|vm_decide|by vm_compute]|].
  intros k p Hp. vm_compute in Hp. discriminate.
Qed.

Lemma world2_levelTriggered : sane world2 /\ levelTriggered env0 world2.
Proof.
  destruct world0_start as [H0 Hl0].
  assert (Hst : watchedStep env0 reconciler0 world0 (changeStep (ApplyPGAdmin alpha) world0))
    by (apply ws_change; [reflexivity|exact I]).
  assert (Hst' : watchedStep env0 reconciler0 (changeStep (ApplyPGAdmin alpha) world0) world2)
    by (apply ws_work; vm_compute; reflexivity).
  pose proof (step_sane _ _ _ _ (watchedStep_step _ _ _ _ Hst) H0) as H1.
  split; [exact (step_sane _ _ _ _ (watchedStep_step _ _ _ _ Hst') H1)|].
  eapply watchedStep_levelTriggered; [exact Hst'|exact H1|].
  by eapply watchedStep_levelTriggered.
Qed.

Lemma levelTriggered_reachable_witness :
  sane world0 /\ levelTriggered env0 world0 /\
  rtc (watchedStep env0 reconciler0) world0 world4 /\
  sane world4 /\ levelTriggered env0 world4.
Proof.
  destruct world0_start as [H0 Hl0].
  assert (Hr : rtc (watchedStep env0 reconciler0) world0 world4).
  { eapply rtc_l; [apply (ws_change _ _ world0 (ApplyPGAdmin alpha)); [reflexivity|exact I]|].
    eapply rtc_l; [apply ws_work; vm_compute; reflexivity|].
    eapply rtc_l; [apply (ws_change _ _ _ (DeleteCluster (keyOf db2))); [vm_compute; reflexivity|exact I]|].
    eapply rtc_l; [apply ws_work; vm_compute; reflexivity|].
    apply rtc_refl. }
  split_and!; [exact H0|exact Hl0|exact Hr|..];
    [exact (proj1 (levelTriggered_reachable env0 reconciler0 world0 world4 Hr H0 Hl0))
    |exact (proj2 (levelTriggered_reachable env0 reconciler0 world0 world4 Hr H0 Hl0))].
Defined.

(** C19: an edit of a dependent is lost.  After the first pass alpha is
    fresh and nothing is queued; a user edits alpha's Secret; no handler
    watches Secrets (there is no [Owns] watch), so the queue stays empty
    while the stored Secret differs from the one a pass applies. *)
Theorem dependent_edit_missed :
  sane world2 /\ levelTriggered env0 world2 /\
  step env0 reconciler0 world2 (changeStep (EditDependent editedSecret) world2) /\
  ~ levelTriggered env0 (changeStep (EditDependent editedSecret) world2).
Proof.
  destruct world2_levelTriggered as [Hs Hl].
  split_and!; [exact Hs|exact Hl|apply step_change|].
  intros Hinv.
  destruct (pgadmins (api (changeStep (EditDependent editedSecret) world2)) !! alphaKey)
    as [p|] eqn:Hp; [|vm_compute in Hp; discriminate].
  destruct (Hinv alphaKey p Hp) as [Hin|(res & _ & Hh)].
  - vm_compute in Hin. by apply not_elem_of_nil in Hin.
  - vm_compute in Hp. injection Hp as <-.
    apply Forall_inv in Hh as (o' & Ho' & Hc). vm_compute in Ho'. injection Ho' as <-.
    vm_compute in Hc. discriminate.
Qed.

End freshness.
