(* ===== verification/Drain.v ===== *)
(** * Draining the queue: every queued pass runs, and then all is fresh

    A worker of controller-runtime takes requests off the queue until it
    is empty.  [drain n] is that loop with at most [n] passes.  When the
    PGAdmins all resolve an image, a pass on a server without faults
    returns [nil] and drops its request, and a pass that fails consumed a
    scripted fault; so the queue length plus the number of scripted faults
    bounds the passes.  With the level-triggered invariant of [Freshness],
    every stored PGAdmin is fresh once the queue is empty. *)

From S2P Require Import Prelude Api Config Client Scenarios Resolver Builders Reconcile Watch Convergence Faults Footprint Manager Freshness.

Open Scope string_scope.

Module drain.
Import apiserver resolver builders standalone_pgadmin watch convergence faultsim footprint manager freshness.

(** The worker loop, at most [n] passes. *)
Fixpoint drain (n : nat) (env : Env) (r : PGAdminReconciler) (w : World) : World :=
  match n with
  | O => w
  | S n' =>
      match wq w with
      | [] => w
      | req :: rest => drain n' env r (work env r req rest (api w))
      end
  end.

(** Every stored PGAdmin resolves a pgAdmin image. *)
Definition imagesOk (env : Env) (s : ApiServer) : Prop :=
  map_Forall (fun _ p => config.StandalonePGAdminContainerImage env p <> "") (pgadmins s).

(** ** One pass on a server without faults *)

Lemma Reconcile_absent env r k s :
  healthy s -> pgadmins s !! k = None ->
  Reconcile env r {| req_namespacedName := k |} s =
    (s, {| out_result := EmptyResult; out_err := None; out_log := [] |}).
Proof.
  intros Hh Hk. rewrite Reconcile_unfold. cbn [req_namespacedName].
  assert (HG : Get k s = (s, Err (notFound "pgadmins"))).
  { simpl. rewrite request_healthy by done. unfold get_pgadmin. by rewrite Hk. }
  by rewrite HG.
Qed.

(** A pass drops its request and keeps the server healthy and every
    image resolved. *)
Lemma work_healthy env r req rest s :
  healthy s -> wf s -> imagesOk env s ->
  wq (work env r req rest s) = rest /\ healthy (api (work env r req rest s)) /\
  imagesOk env (api (work env r req rest s)).
Proof.
  destruct req as [k]. intros Hh Hwf Himg. unfold work.
  destruct (pgadmins s !! k) as [p|] eqn:Hk; [|by rewrite Reconcile_absent].
  destruct (healthy_pass env r s k p Hh Hwf Hk (Himg k p Hk)) as (Herr & Hh' & (p' & Hk' & Hid & _) & _).
  pose proof (Reconcile_pgadmins_other env r k s) as Hpg.
  destruct (Reconcile env r {| req_namespacedName := k |} s) as [s' out]. simpl in *.
  rewrite Herr. split_and!; [done|done|]. intros k0 p0 Hp0.
  destruct (decide (k0 = k)) as [->|Hne].
  - rewrite Hk' in Hp0. injection Hp0 as <-. rewrite <-(image_sameIdentity env p p' Hid).
    exact (Himg k p Hk).
  - rewrite Hpg in Hp0 by done. exact (Himg k0 p0 Hp0).
Qed.

(** ** One pass on any server *)

(** A pass creates no PGAdmin: a key with none keeps none. *)
Lemma absent_preserved k : preserved (fun s => pgadmins s !! k = None).
Proof.
  intros c s Hs. destruct c; cbn [run_call]; simpl;
    match goal with |- context [request ?b s] =>
      destruct (request_cases b s) as [(e & rest & _ & ->)|(rest & _ & ->)] end; try done.
  - unfold get_pgadmin. by destruct (pgadmins (set_faults s rest) !! k0).
  - unfold get_cluster. by destruct (clusters (set_faults s rest) !! k0).
  - by rewrite apply_object_pgadmins.
  - unfold patch_status. cbn [pgadmins set_faults].
    destruct (pgadmins s !! ObjectKeyFromMeta (pa_meta after)) eqn:E; [|done].
    case_bool_decide; [done|]. simpl. rewrite lookup_insert_ne; [done|].
    intros Heq. rewrite Heq in E. congruence.
Qed.

Lemma pass_imagesOk env r req s : imagesOk env s -> imagesOk env (fst (Reconcile env r req s)).
Proof.
  intros Himg k p Hp. destruct (pgadmins s !! k) as [p0|] eqn:E.
  - destruct (Reconcile_pres _ (storedAs_preserved k p0) env r req s
                (ex_intro _ p0 (conj E (sameIdentity_refl p0)))) as (p' & Hp' & Hid).
    rewrite Hp in Hp'. injection Hp' as <-.
    rewrite <-(image_sameIdentity env p0 p Hid). exact (Himg k p0 E).
  - pose proof (Reconcile_pres _ (absent_preserved k) env r req s E). congruence.
Qed.

Lemma length_Add q req : length (Add q req) <= S (length q).
Proof. unfold Add. case_bool_decide; rewrite ?length_app; simpl; lia. Qed.

(** Every pass shortens the queue or consumes a scripted fault: a pass
    on a server without faults succeeds, and a pass on a server with
    faults consumes at least the answer to its [Get]. *)
Lemma work_progress env r req rest s :
  sane {| wq := req :: rest; api := s |} -> imagesOk env s ->
  length (wq (work env r req rest s)) + length (faults (api (work env r req rest s))) <
  length (req :: rest) + length (faults s).
Proof.
  intros Hs Himg. destruct (faults s) as [|f fs] eqn:Hf.
  - destruct (work_healthy env r req rest s Hf (proj1 (proj2 Hs)) Himg) as (Hq & Hh & _).
    rewrite Hq, Hh. simpl. lia.
  - assert (Hne : faults s <> []) by (by rewrite Hf).
    pose proof (Reconcile_consumes env r req s Hne) as Hc. rewrite Hf in Hc.
    unfold work in *. destruct (Reconcile env r req s) as [s' out]. simpl in *.
    destruct (out_err out); [pose proof (length_Add rest req)|]; lia.
Qed.

Lemma levelTriggered_empty env w :
  levelTriggered env w -> wq w = [] ->
  forall k p, pgadmins (api w) !! k = Some p -> fresh env (api w) p.
Proof.
  intros Hinv Hq k p Hp. unfold levelTriggered in Hinv. rewrite Hq in Hinv.
  by destruct (Hinv k p Hp) as [?%not_elem_of_nil|?].
Qed.

(** ** The loop *)

(** C20: a worker terminates with an empty queue and every stored
    PGAdmin fresh: on a server whose scripted faults are transient and
    whose PGAdmins all resolve an image, from a duplicate-free queue and a
    level-triggered world, any budget of at least the queue length plus
    the number of scripted faults is enough, and every pass is a step of
    the manager. *)
Theorem drain_fresh env r w n :
  sane w -> imagesOk env (api w) -> levelTriggered env w ->
  length (wq w) + length (faults (api w)) <= n ->
  wq (drain n env r w) = [] /\
  rtc (step env r) w (drain n env r w) /\
  forall k p, pgadmins (api (drain n env r w)) !! k = Some p -> fresh env (api (drain n env r w)) p.
Proof.
  revert w. induction n as [|n IH]; intros [q s] Hs Himg Hinv Hn.
  - destruct q; simpl in Hn; [|lia]. split_and!; [done|done|by apply levelTriggered_empty].
  - destruct q as [|req rest]; [split_and!; [done|done|by apply levelTriggered_empty]|].
    pose proof (work_progress env r req rest s Hs Himg) as Hp.
    assert (Himg' : imagesOk env (api (work env r req rest s))).
    { pose proof (pass_imagesOk env r req s Himg) as H'. unfold work.
      by destruct (Reconcile env r req s). }
    destruct (IH (work env r req rest s) (work_sane env r req rest s Hs) Himg'
                (levelTriggered_work env r req rest s Hs Hinv) ltac:(simpl in *; lia))
      as (He & Hrtc & Hfr).
    split_and!; [done| |done].
    eapply rtc_l; [by apply (step_work env r {| wq := req :: rest; api := s |})|exact Hrtc].
Qed.

(** ** At the scenario *)

Import scenarios.

(** alpha queued on a server whose first answer is a conflict: the first
    pass fails at its [Get] and requeues, the second one succeeds. *)
Definition conflictQueued : World := {| wq := [alphaRequest]; api := server [Some conflict] |}.

Lemma drain_fresh_witness :
  sane conflictQueued /\ imagesOk env0 (api conflictQueued) /\
  levelTriggered env0 conflictQueued /\
  length (wq conflictQueued) + length (faults (api conflictQueued)) <= 2 /\
  wq (drain 2 env0 reconciler0 conflictQueued) = [] /\
  rtc (step env0 reconciler0) conflictQueued (drain 2 env0 reconciler0 conflictQueued) /\
  forall k p, pgadmins (api (drain 2 env0 reconciler0 conflictQueued)) !! k = Some p ->
              fresh env0 (api (drain 2 env0 reconciler0 conflictQueued)) p.
Proof.
  assert (Hs : sane conflictQueued).
  { split_and!; [vm_decide|vm_decide|vm_compute; repeat constructor]. }
  assert (Himg : imagesOk env0 (api conflictQueued)) by vm_decide.
  assert (Hl : levelTriggered env0 conflictQueued).
  { intros k p Hp. left. simpl in Hp. apply lookup_insert_Some in Hp as [[<- _]|[_ Hp]];
      [by apply list_elem_of_singleton|by rewrite lookup_empty in Hp]. }
  assert (Hn : length (wq conflictQueued) + length (faults (api conflictQueued)) <= 2)
    by (simpl; lia).
  split_and!; [done|done|done|done|..];
    destruct (drain_fresh env0 reconciler0 conflictQueued 2 Hs Himg Hl Hn) as (? & ? & ?); done.
Defined.

End drain.
