(* ===== verification/Status.v ===== *)
(** * The deferred status write: a merge patch from the fetched copy

    [Reconcile] defers a [Status().Patch] with [client.MergeFrom(before)]:
    the patch carries only the status fields the pass changed, and the
    server applies it to whatever status is stored at that moment.  This
    file shows what a later read sees: with no other writer in between,
    exactly the status the pass computed (write-then-read round trip);
    with another writer in between, that writer's conditions, which the
    pass never changes. *)

From S2P Require Import Prelude Api Config Client Scenarios Resolver Builders Reconcile Convergence.

Open Scope string_scope.

Module status.
Import apiserver standalone_pgadmin convergence.

(** ** The merge patch *)

Lemma merge_status_same b cur : merge_status b b cur = cur.
Proof. unfold merge_status. rewrite !bool_decide_eq_true_2 by done. by destruct cur. Qed.

(** The patch from [b] to [a], applied to [b], gives [a]. *)
Lemma merge_status_roundtrip b a : merge_status b a b = a.
Proof.
  destruct a as [og cs], b as [og' cs']. unfold merge_status. simpl.
  by do 2 case_bool_decide; subst.
Qed.

Lemma merge_status_conditions b a cur :
  conditions b = conditions a -> conditions (merge_status b a cur) = conditions cur.
Proof. intros Heq. unfold merge_status. simpl. by rewrite bool_decide_eq_true_2. Qed.

(** What the deferred write leaves under the key of the PGAdmin on a
    server without faults: the stored object with the merge of the patch
    into its status. *)
Lemma deferStatusPatch_stored r b p err s k cur :
  healthy s -> pgadmins s !! k = Some cur -> ObjectKeyFromMeta (pa_meta p) = k ->
  exists p'', pgadmins (fst (deferStatusPatch r b p err s)) !! k = Some p'' /\
    pa_status p'' = merge_status (pa_status b) (pa_status p) (pa_status cur) /\
    sameIdentity cur p''.
Proof.
  intros Hh Hk Hp. unfold deferStatusPatch. case_bool_decide as Heq.
  - exists cur. rewrite Heq, merge_status_same. split_and!; [done|done|apply sameIdentity_refl].
  - rewrite StatusPatch_apiserver, request_healthy by done. unfold patch_status.
    rewrite Hp, Hk. case_bool_decide as Hst; simpl.
    + exists cur. split_and!; [done|done|apply sameIdentity_refl].
    + rewrite lookup_insert_eq. eexists. split_and!; [done|done|].
      unfold sameIdentity. simpl. by split_and!.
Qed.

(** ** After a pass *)

(** C21: write then read: after a pass on a server without faults and
    with no other writer, a [Get] of the PGAdmin returns the object with
    its identity and spec and exactly the status the pass computed in
    memory ([finalPGAdmin]: the observed generation set to the
    generation, the conditions as they were). *)
Theorem Reconcile_status_roundtrip env r s k p :
  healthy s -> wf s -> pgadmins s !! k = Some p ->
  config.StandalonePGAdminContainerImage env p <> "" ->
  exists p', Get k (fst (Reconcile env r {| req_namespacedName := k |} s)) =
               (fst (Reconcile env r {| req_namespacedName := k |} s), Ok p') /\
             sameIdentity p p' /\ pa_status p' = pa_status (finalPGAdmin p None).
Proof.
  intros Hh Hwf Hk Himg.
  pose proof (proj1 (proj2 (healthy_pass env r s k p Hh Hwf Hk Himg))) as Hh'.
  rewrite Reconcile_unfold in Hh' |- *. cbn [req_namespacedName] in Hh' |- *.
  rewrite (Get_healthy s k p Hh Hk), (pipeline_healthy env r (Default p) s Hh Himg) in Hh' |- *.
  cbn [err_of] in Hh' |- *.
  destruct (deferStatusPatch_stored r p (finalPGAdmin p None) None
              (applyAll (intents env s (Default p)) s) k p) as (p' & Hk' & Hst & Hid).
  - unfold healthy. by rewrite applyAll_faults.
  - by rewrite applyAll_pgadmins.
  - exact (proj1 Hwf _ _ Hk).
  - destruct (deferStatusPatch _ _ _ _ _) as [s3 [x dlog]]. cbn [fst] in *.
    exists p'. rewrite (Get_healthy s3 k p' Hh' Hk'). split_and!; [done|done|].
    by rewrite Hst, merge_status_roundtrip.
Qed.

(** C22: the deferred write never overwrites conditions.  Whatever status
    is stored when the patch is sent (another writer may have changed it
    since the [Get]), the conditions stay the stored ones, and the observed
    generation becomes the generation only when the pass succeeded and the
    fetched copy had another value; otherwise the stored value stays. *)
Theorem deferStatusPatch_keeps_conditions r fetched err s k cur :
  healthy s -> pgadmins s !! k = Some cur -> ObjectKeyFromMeta (pa_meta fetched) = k ->
  exists p'', pgadmins (fst (deferStatusPatch r fetched (finalPGAdmin fetched err) err s)) !! k = Some p'' /\
    sameIdentity cur p'' /\ conditions (pa_status p'') = conditions (pa_status cur) /\
    observedGeneration (pa_status p'') =
      match err with
      | None => if bool_decide (observedGeneration (pa_status fetched) = generation (pa_meta fetched))
                then observedGeneration (pa_status cur) else generation (pa_meta fetched)
      | Some _ => observedGeneration (pa_status cur)
      end.
Proof.
  intros Hh Hk Hkey.
  destruct (deferStatusPatch_stored r fetched (finalPGAdmin fetched err) err s k cur Hh Hk)
    as (p'' & Hk'' & Hst & Hid); [by destruct err|].
  exists p''. rewrite Hst. split_and!; [done|done|apply merge_status_conditions; by destruct err|].
  unfold merge_status. destruct err; simpl; [by rewrite bool_decide_eq_true_2|done].
Qed.

(** ** At the scenario *)

Import scenarios.

(** Another writer added a condition to alpha after the pass fetched it. *)
Definition readyCondition : Condition :=
  {| cond_type := "Ready"; cond_status := "True"; cond_reason := "Other"; cond_observedGeneration := 1 |}.
Definition alphaConcurrent : PGAdmin :=
  with_status alpha {| observedGeneration := 1; conditions := [readyCondition] |}.

Lemma Reconcile_status_roundtrip_witness :
  healthy (server []) /\ wf (server []) /\ pgadmins (server []) !! alphaKey = Some alpha /\
  config.StandalonePGAdminContainerImage env0 alpha <> "" /\
  exists p', Get alphaKey (fst (Reconcile env0 reconciler0 alphaRequest (server []))) =
               (fst (Reconcile env0 reconciler0 alphaRequest (server [])), Ok p') /\
             sameIdentity alpha p' /\ pa_status p' = pa_status (finalPGAdmin alpha None).
Proof.
  destruct server_facts as (Hh & Hwf & Hk & Himg).
  split_and!; try assumption.
  exact (Reconcile_status_roundtrip env0 reconciler0 (server []) alphaKey alpha Hh Hwf Hk Himg).
Defined.

Lemma deferStatusPatch_keeps_conditions_witness :
  healthy (serverWith [alphaConcurrent] []) /\
  pgadmins (serverWith [alphaConcurrent] []) !! alphaKey = Some alphaConcurrent /\
  ObjectKeyFromMeta (pa_meta alpha) = alphaKey /\
  exists p'', pgadmins (fst (deferStatusPatch reconciler0 alpha (finalPGAdmin alpha None) None
                               (serverWith [alphaConcurrent] []))) !! alphaKey = Some p'' /\
    sameIdentity alphaConcurrent p'' /\ conditions (pa_status p'') = [readyCondition] /\
    observedGeneration (pa_status p'') = 2%Z.
Proof.
  assert (Hh : healthy (serverWith [alphaConcurrent] [])) by reflexivity.
  assert (Hk : pgadmins (serverWith [alphaConcurrent] []) !! alphaKey = Some alphaConcurrent)
    by reflexivity.
  split_and!; [done|done|reflexivity|].
  exact (deferStatusPatch_keeps_conditions reconciler0 alpha None _ alphaKey alphaConcurrent Hh Hk eq_refl).
Defined.

End status.
