(* ===== verification/Bounds.v ===== *)
(** * How many requests a pass sends

    Every request of the client consumes one entry of the fault script of
    [ApiServer] (a scripted answer, or [None] for a request the server
    serves), so the length of the script a computation consumes counts
    the requests it sends.  [costs m n]: on every server, [m] consumes at
    most [n] entries.  A pass of [Reconcile] on a stored PGAdmin sends at
    most six requests plus one per server group: the [Get], the four
    applies, one read per group, and the status patch; at the scenario the
    bound is reached. *)

From S2P Require Import Prelude Api Config Client Scenarios Resolver Builders Reconcile Convergence Faults Footprint.
From Stdlib Require Import Lia.

Open Scope string_scope.

Module bounds.
Import apiserver resolver builders standalone_pgadmin convergence faultsim footprint.

(** [m] sends at most [n] requests. *)
Definition costs {B} (m : ApiServer -> ApiServer * B) (n : nat) : Prop :=
  forall s, length (faults s) <= length (faults (fst (m s))) + n.

Lemma costs_mono {B} (m : ApiServer -> ApiServer * B) n n' : costs m n -> n <= n' -> costs m n'.
Proof. intros Hm Hle s. specialize (Hm s). lia. Qed.

Lemma request_costs {A} (b : ApiServer -> ApiServer * result error A) : body_ok b -> costs (request b) 1.
Proof.
  intros Hb s. destruct (request_cases b s) as [(e & rest & Hf & ->)|(rest & Hf & ->)]; simpl.
  - rewrite Hf. simpl. lia.
  - rewrite (body_faults b _ Hb). simpl. destruct Hf as [Hf|[Hf ->]]; rewrite Hf; simpl; lia.
Qed.

Lemma ret_costs {A} (a : A) n : costs (@st_ret ApiServer error A a) n.
Proof. intros s. simpl. lia. Qed.

Lemma fail_costs {A} (e : error) n : costs (@st_fail ApiServer error A e) n.
Proof. intros s. simpl. lia. Qed.

Lemma bind_costs {A B} (m : StM ApiServer error A) (k : A -> StM ApiServer error B) n n' :
  costs m n -> (forall a, costs (k a) n') -> costs (st_bind m k) (n + n').
Proof.
  intros Hm Hk s. specialize (Hm s). unfold st_bind.
  destruct (m s) as [s1 [a|e]]; simpl in *; [specialize (Hk a s1)|]; lia.
Qed.

#[export] Hint Resolve request_costs ret_costs fail_costs : pgo.

(** ** The steps of a pass *)

Lemma applyIntent_costs owner p intent : costs (applyIntent owner p intent) 1.
Proof.
  unfold applyIntent. destruct (setControllerReference p intent); [|apply fail_costs].
  apply (bind_costs _ _ 1 0); [apply request_costs, apply_object_ok|intros; apply ret_costs].
Qed.

Lemma clustersForServerGroup_costs p sg : costs (clustersForServerGroup p sg) 1.
Proof.
  unfold clustersForServerGroup. destruct (String.eqb _ ""); [apply request_costs; eauto with pgo|].
  set (k := {| nn_namespace := namespace (pa_meta p); nn_name := sg_postgresClusterName sg |}).
  intros s. pose proof (request_costs (get_cluster k) (get_cluster_ok k) s) as H. simpl in *.
  destruct (request (get_cluster k) s) as [s1 [c|e]]; simpl in *; [done|].
  by destruct (IsNotFound e).
Qed.

Lemma getClustersForGroups_costs p groups acc :
  costs (getClustersForGroups p groups acc) (length groups).
Proof.
  revert acc. induction groups as [|sg rest IH]; intros acc; simpl; [apply ret_costs|].
  apply (bind_costs _ _ 1); [apply clustersForServerGroup_costs|intros; apply IH].
Qed.

Lemma pipeline_costs env r p : costs (pipeline env r p) (4 + length (pa_serverGroups (pa_spec p))).
Proof.
  eapply costs_mono.
  - unfold pipeline, reconcilePGAdminSecret, reconcilePGAdminConfigMap,
      reconcilePGAdminDataVolume, reconcilePGAdminStatefulSet, getClustersForPGAdmin.
    apply (bind_costs _ _ 1); [destruct (String.eqb _ ""); [apply fail_costs|apply applyIntent_costs]|intros ?].
    repeat (apply bind_costs; [first [apply applyIntent_costs | apply getClustersForGroups_costs]|intros ?]).
    apply (ret_costs _ 0).
  - lia.
Qed.

Lemma deferStatusPatch_costs r b p err : costs (deferStatusPatch r b p err) 1.
Proof.
  intros s. unfold deferStatusPatch. case_bool_decide; [simpl; lia|].
  pose proof (request_costs (patch_status b p) (patch_status_ok b p) s) as Hc.
  rewrite StatusPatch_apiserver. destruct (request (patch_status b p) s) as [s' x]. simpl in *. lia.
Qed.

(** ** A pass *)

(** C23: a pass of [Reconcile] on the key of a stored PGAdmin sends at
    most six requests plus one per server group of its spec: the [Get],
    the apply of the Secret, the reads of the groups, the applies of the
    ConfigMap, the data volume claim and the StatefulSet, and the status
    patch; a failing request ends the pass earlier. *)
Theorem Reconcile_requests_bound env r k s p :
  pgadmins s !! k = Some p ->
  length (faults s) <=
    length (faults (fst (Reconcile env r {| req_namespacedName := k |} s))) +
    (6 + length (pa_serverGroups (pa_spec p))).
Proof.
  intros Hk. rewrite Reconcile_unfold. cbn [req_namespacedName].
  pose proof (request_costs (get_pgadmin k) (get_pgadmin_ok k) s) as HG.
  change (request (get_pgadmin k) s) with (Get k s) in HG.
  destruct (Get k s) as [s1 [fetched|e]] eqn:HGet; simpl in HG; [|simpl; lia].
  destruct (Get_stored k s s1 fetched HGet) as [Hf _]. rewrite Hk in Hf. injection Hf as <-.
  pose proof (pipeline_costs env r (Default p) s1) as HP.
  destruct (pipeline env r (Default p) s1) as [s2 res]. simpl in HP. cbv beta iota zeta.
  pose proof (deferStatusPatch_costs r p (finalPGAdmin p (err_of res)) (err_of res) s2) as HD.
  destruct (deferStatusPatch _ _ _ _ _) as [s3 [x dlog]]. simpl in *. lia.
Qed.

(** ** At the scenario *)

Import scenarios.

(** alpha has three groups: a pass on a script of twelve answers leaves
    three, nine requests, the bound. *)
Lemma Reconcile_requests_bound_witness :
  pgadmins (server (replicate 12 None)) !! alphaKey = Some alpha /\
  length (faults (server (replicate 12 None))) <=
    length (faults (fst (Reconcile env0 reconciler0 alphaRequest (server (replicate 12 None))))) +
    (6 + length (pa_serverGroups (pa_spec alpha))) /\
  length (faults (fst (Reconcile env0 reconciler0 alphaRequest (server (replicate 12 None))))) = 3.
Proof.
  assert (Hk : pgadmins (server (replicate 12 None)) !! alphaKey = Some alpha) by reflexivity.
  split_and!; [exact Hk| |vm_compute; reflexivity].
  exact (Reconcile_requests_bound env0 reconciler0 alphaKey _ alpha Hk).
Defined.

End bounds.
