(* ===== verification/Commute.v ===== *)
(** * Passes on different PGAdmins commute

    controller-runtime may hand the requests of two PGAdmins to workers
    in either order.  On a server without faults, a pass on a stored
    PGAdmin whose image resolves applies its four dependents and then
    writes its status ([healthy_pass_state]); the dependents of two
    PGAdmins have different names ([dependentKey]), and their statuses
    live under different keys, so the writes of the two passes commute
    call by call, and the two orders end in the same server state. *)

From S2P Require Import Prelude Api Config Client Scenarios Resolver Builders Reconcile Convergence Footprint Status.

Open Scope string_scope.

Module commute.
Import apiserver resolver builders standalone_pgadmin convergence footprint status.

(** ** Writes to different keys commute *)

Lemma apply_object_commute o1 o2 s :
  ObjectKey o1 <> ObjectKey o2 ->
  fst (apply_object o1 (fst (apply_object o2 s))) = fst (apply_object o2 (fst (apply_object o1 s))).
Proof.
  intros Hne. unfold apply_object. simpl.
  destruct (objects s !! ObjectKey o2) as [c2|] eqn:E2, (objects s !! ObjectKey o1) as [c1|] eqn:E1;
    repeat (case_bool_decide || simpl); rewrite ?lookup_insert_ne, ?E1, ?E2 by done; simpl;
    repeat (case_bool_decide || simpl); try done;
    unfold set_objects; f_equal; by apply insert_insert_ne.
Qed.

Lemma patch_status_commute b1 a1 b2 a2 s :
  ObjectKeyFromMeta (pa_meta a1) <> ObjectKeyFromMeta (pa_meta a2) ->
  fst (patch_status b1 a1 (fst (patch_status b2 a2 s))) =
  fst (patch_status b2 a2 (fst (patch_status b1 a1 s))).
Proof.
  intros Hne. unfold patch_status. simpl.
  destruct (pgadmins s !! ObjectKeyFromMeta (pa_meta a2)) as [c2|] eqn:E2,
    (pgadmins s !! ObjectKeyFromMeta (pa_meta a1)) as [c1|] eqn:E1;
    repeat (case_bool_decide || simpl); rewrite ?lookup_insert_ne, ?E1, ?E2 by done; simpl;
    repeat (case_bool_decide || simpl); try done;
    unfold set_pgadmins; f_equal; by apply insert_insert_ne.
Qed.

(** An apply and a status patch touch different maps. *)
Lemma apply_patch_commute o b a s :
  fst (apply_object o (fst (patch_status b a s))) = fst (patch_status b a (fst (apply_object o s))).
Proof.
  unfold apply_object, patch_status. simpl.
  destruct (pgadmins s !! ObjectKeyFromMeta (pa_meta a)) eqn:E1, (objects s !! ObjectKey o) eqn:E2;
    repeat first [progress simpl | rewrite E1 | rewrite E2 | case_bool_decide]; done.
Qed.

Lemma applyAll_apply os o s :
  ObjectKey o ∉ ObjectKey <$> os ->
  applyAll os (fst (apply_object o s)) = fst (apply_object o (applyAll os s)).
Proof.
  unfold applyAll. revert s. induction os as [|o' os IH]; intros s Hnin; [done|]. simpl.
  rewrite fmap_cons, elem_of_cons in Hnin. apply Decidable.not_or in Hnin as [Hne Hnin].
  rewrite apply_object_commute by congruence. by apply IH.
Qed.

(** Two lists of writes to disjoint keys commute. *)
Lemma applyAll_commute os1 os2 s :
  (forall o1 o2, o1 ∈ os1 -> o2 ∈ os2 -> ObjectKey o1 <> ObjectKey o2) ->
  applyAll os1 (applyAll os2 s) = applyAll os2 (applyAll os1 s).
Proof.
  revert s. induction os1 as [|o os1 IH]; intros s Hdis; [done|].
  change (applyAll (o :: os1) ?x) with (applyAll os1 (fst (apply_object o x))).
  rewrite <-applyAll_apply.
  - apply IH. intros o1 o2 H1 H2. apply Hdis; [by right|done].
  - intros (o2 & Hk & Ho2)%list_elem_of_fmap. by apply (Hdis o o2); [left| |].
Qed.

Lemma applyAll_patch os b a s :
  applyAll os (fst (patch_status b a s)) = fst (patch_status b a (applyAll os s)).
Proof.
  unfold applyAll. revert s. induction os as [|o os IH]; intros s; [done|]. simpl.
  rewrite apply_patch_commute. apply IH.
Qed.

(** ** A pass on a server without faults *)

Lemma intents_names env s p o :
  o ∈ intents env s p -> (ObjectKey o).2 = dependentKey (ObjectKeyFromMeta (pa_meta p)).
Proof.
  unfold intents. intros Ho.
  repeat (apply elem_of_cons in Ho as [->|Ho]; [reflexivity|]).
  by apply not_elem_of_nil in Ho.
Qed.

Lemma intents_clusters env s s' p : clusters s' = clusters s -> intents env s' p = intents env s p.
Proof. intros Hc. unfold intents, resolved. by rewrite (resolution_clusters s' s p p). Qed.

(** The state a pass leaves: its four dependents applied, then the merge
    patch of its status (which writes nothing when the status is
    current). *)
Lemma healthy_pass_state env r s k p :
  healthy s -> wf s -> pgadmins s !! k = Some p ->
  config.StandalonePGAdminContainerImage env p <> "" ->
  fst (Reconcile env r {| req_namespacedName := k |} s) =
    fst (patch_status p (finalPGAdmin p None) (applyAll (intents env s p) s)).
Proof.
  intros Hh Hwf Hk Himg. rewrite Reconcile_unfold. cbn [req_namespacedName].
  rewrite (Get_healthy s k p Hh Hk), (pipeline_healthy env r (Default p) s Hh Himg). cbn [err_of].
  change (intents env s (Default p)) with (intents env s p).
  set (s2 := applyAll (intents env s p) s).
  assert (Hh2 : healthy s2) by (unfold healthy, s2; by rewrite applyAll_faults).
  unfold deferStatusPatch. case_bool_decide as Heq.
  - cbn [fst]. unfold patch_status.
    change (ObjectKeyFromMeta (pa_meta (finalPGAdmin p None))) with (ObjectKeyFromMeta (pa_meta p)).
    pose proof (proj1 Hwf _ _ Hk) as Hkey. cbv beta in Hkey. rewrite Hkey.
    assert (Hk2 : pgadmins s2 !! k = Some p) by (unfold s2; by rewrite applyAll_pgadmins).
    rewrite Hk2, merge_status_roundtrip, <-Heq, bool_decide_eq_true_2 by done. reflexivity.
  - rewrite StatusPatch_apiserver, request_healthy by done. by destruct (patch_status _ _ s2).
Qed.

(** Two passes in a row, on different stored PGAdmins. *)
Lemma two_passes_state env r s k1 k2 p1 p2 :
  healthy s -> wf s -> k1 <> k2 -> pgadmins s !! k1 = Some p1 -> pgadmins s !! k2 = Some p2 ->
  config.StandalonePGAdminContainerImage env p1 <> "" ->
  config.StandalonePGAdminContainerImage env p2 <> "" ->
  fst (Reconcile env r {| req_namespacedName := k2 |} (fst (Reconcile env r {| req_namespacedName := k1 |} s))) =
    fst (patch_status p2 (finalPGAdmin p2 None) (applyAll (intents env s p2)
      (fst (patch_status p1 (finalPGAdmin p1 None) (applyAll (intents env s p1) s))))).
Proof.
  intros Hh Hwf Hne Hk1 Hk2 Hi1 Hi2.
  destruct (healthy_pass env r s k1 p1 Hh Hwf Hk1 Hi1) as (_ & Hh1 & _).
  pose proof (Reconcile_pres _ wf_preserved env r {| req_namespacedName := k1 |} s Hwf) as Hwf1.
  pose proof (Reconcile_pgadmins_other env r k1 s k2 Hwf (not_eq_sym Hne)) as Hk2'.
  pose proof (Reconcile_pres _ (clusters_preserved (clusters s)) env r {| req_namespacedName := k1 |} s
                eq_refl) as Hc1.
  rewrite Hk2 in Hk2'.
  rewrite (healthy_pass_state env r _ k2 p2 Hh1 Hwf1 Hk2' Hi2), (intents_clusters env s _ p2 Hc1).
  by rewrite (healthy_pass_state env r s k1 p1 Hh Hwf Hk1 Hi1).
Qed.

(** ** Two passes *)

(** C26: on a server without faults, the passes on two different stored
    PGAdmins whose images resolve commute: whichever a worker takes first,
    the server ends in the same state (objects with their resource
    versions, PGAdmins with their statuses). *)
Theorem Reconcile_passes_commute env r s k1 k2 p1 p2 :
  healthy s -> wf s -> k1 <> k2 -> pgadmins s !! k1 = Some p1 -> pgadmins s !! k2 = Some p2 ->
  config.StandalonePGAdminContainerImage env p1 <> "" ->
  config.StandalonePGAdminContainerImage env p2 <> "" ->
  fst (Reconcile env r {| req_namespacedName := k2 |} (fst (Reconcile env r {| req_namespacedName := k1 |} s))) =
  fst (Reconcile env r {| req_namespacedName := k1 |} (fst (Reconcile env r {| req_namespacedName := k2 |} s))).
Proof.
  intros Hh Hwf Hne Hk1 Hk2 Hi1 Hi2.
  rewrite (two_passes_state env r s k1 k2 p1 p2), (two_passes_state env r s k2 k1 p2 p1) by done.
  pose proof (proj1 Hwf _ _ Hk1) as Hkey1. pose proof (proj1 Hwf _ _ Hk2) as Hkey2. cbv beta in *.
  assert (Hdis : forall o1 o2, o1 ∈ intents env s p1 -> o2 ∈ intents env s p2 ->
                   ObjectKey o1 <> ObjectKey o2).
  { intros o1 o2 H1%intents_names H2%intents_names Heq. apply Hne, dependentKey_inj.
    by rewrite <-Hkey1, <-Hkey2, <-H1, <-H2, Heq. }
  rewrite !applyAll_patch, (applyAll_commute _ _ _ Hdis), patch_status_commute; [done|].
  change (ObjectKeyFromMeta (pa_meta p2) <> ObjectKeyFromMeta (pa_meta p1)). congruence.
Qed.

(** ** At the scenario *)

Import scenarios.

(** A second PGAdmin of namespace [ns], naming db1. *)
Definition beta : PGAdmin :=
  {| pa_typeMeta := {| apiVersion := ""; kind := "" |};
     pa_meta := meta "ns" "beta" 1 ∅;
     pa_spec := {| pa_image := Some "pgadmin4:7"; pa_serverGroups := [byName "main" "db1"];
                   pa_dataVolumeClaimSpec := "2Gi" |};
     pa_status := {| observedGeneration := 0; conditions := [] |} |}.

Definition betaKey : NamespacedName := ObjectKeyFromMeta (pa_meta beta).

Lemma Reconcile_passes_commute_witness :
  healthy (serverWith [alpha; beta] []) /\ wf (serverWith [alpha; beta] []) /\ alphaKey <> betaKey /\
  pgadmins (serverWith [alpha; beta] []) !! alphaKey = Some alpha /\
  pgadmins (serverWith [alpha; beta] []) !! betaKey = Some beta /\
  config.StandalonePGAdminContainerImage env0 alpha <> "" /\
  config.StandalonePGAdminContainerImage env0 beta <> "" /\
  fst (Reconcile env0 reconciler0 {| req_namespacedName := betaKey |}
         (fst (Reconcile env0 reconciler0 {| req_namespacedName := alphaKey |} (serverWith [alpha; beta] [])))) =
  fst (Reconcile env0 reconciler0 {| req_namespacedName := alphaKey |}
         (fst (Reconcile env0 reconciler0 {| req_namespacedName := betaKey |} (serverWith [alpha; beta] [])))).
Proof.
  assert (Hh : healthy (serverWith [alpha; beta] [])) by reflexivity.
  assert (Hwf : wf (serverWith [alpha; beta] [])) by vm_decide.
  assert (Hne : alphaKey <> betaKey) by (vm_compute; congruence).
  assert (H1 : pgadmins (serverWith [alpha; beta] []) !! alphaKey = Some alpha) by reflexivity.
  assert (H2 : pgadmins (serverWith [alpha; beta] []) !! betaKey = Some beta) by reflexivity.
  assert (Hi1 : config.StandalonePGAdminContainerImage env0 alpha <> "") by (vm_compute; discriminate).
  assert (Hi2 : config.StandalonePGAdminContainerImage env0 beta <> "") by (vm_compute; discriminate).
  split_and!; try assumption.
  exact (Reconcile_passes_commute env0 reconciler0 _ alphaKey betaKey alpha beta Hh Hwf Hne H1 H2 Hi1 Hi2).
Defined.

End commute.
