(* ===== verification/Interleave.v ===== *)
(** * A pass interleaved with writes of other actors

    A worker's pass is not atomic: between any two of its calls another
    actor may create, update or delete a [PostgresCluster] or a [PGAdmin],
    and the informer runs the handlers of [SetupWithManager] on the new
    state.
    [IWorld] is the world of such a run: the manager's [World], a script
    of the writes that happen before each call of the pass, and a log of
    the writes that did happen with the state they met.  [IWorld_client]
    is the client the pass runs against: each call first performs the next
    scripted write with its handler ([interfere]), then the call on the
    API server.  [workI] is the worker step under this interleaving: the
    request is taken off the queue, the pass runs, and the request goes
    back to the queue (which the handlers may have grown) after an error.

    The theorem [levelTriggered_interleaved]: on a server without faults,
    the level-triggered invariant holds along every run of [istep]
    (watched changes and interleaved worker steps whose writes the
    watches cover); its step is [workI_levelTriggered].  The other PGAdmins are handled by the
    frame of [Footprint] with [othersInv]; the PGAdmin of the request by
    [Kinv]: every watched write either queues it or leaves what its groups
    select unchanged ([changeStep_concerns]), so the resolution the pass
    read is, up to order, the current one unless the PGAdmin is queued
    again ([groups_I], [pipeline_I], [Reconcile_self]).  [lateDelete] is a
    run where db2 is deleted after alpha's pass resolved it. *)

From S2P Require Import Prelude Api Config Client Scenarios Resolver Builders Reconcile Watch Convergence Faults Footprint Manager Freshness Drain.

Open Scope string_scope.

Module interleave.
Import apiserver resolver builders standalone_pgadmin watch convergence faultsim footprint manager freshness drain.

Record IWorld := { iw : World; script : list (option Change); ilog : list (Change * ApiServer) }.

(** The next scripted write, with its handler. *)
Definition interfere (st : IWorld) : IWorld :=
  match script st with
  | [] => st
  | None :: rest => {| iw := iw st; script := rest; ilog := ilog st |}
  | Some ch :: rest =>
      {| iw := changeStep ch (iw st); script := rest; ilog := (ch, api (iw st)) :: ilog st |}
  end.

Definition onApi (f : ApiServer -> ApiServer) (st : IWorld) : IWorld :=
  {| iw := {| wq := wq (iw st); api := f (api (iw st)) |}; script := script st; ilog := ilog st |}.

(** A call of the pass: the next write, then the call on the server. *)
Definition lift {A} (m : StM ApiServer error A) : StM IWorld error A :=
  fun st => let st0 := interfere st in
            (onApi (fun s => fst (m s)) st0, snd (m (api (iw st0)))).

#[export] Instance IWorld_client : Client IWorld := {
  Get k := lift (Get k);
  GetCluster k := lift (GetCluster k);
  ListClusters ns sel := lift (ListClusters ns sel);
  ListPGAdmins ns := lift (ListPGAdmins ns);
  PatchApply o obj := lift (PatchApply o obj);
  StatusPatch o b a := lift (StatusPatch o b a) }.

(** The worker step under interleaving, and the log of the writes. *)
Definition workI (env : Env) (r : PGAdminReconciler) (req : Request) (rest : list Request)
           (s : ApiServer) (sc : list (option Change)) : World * list (Change * ApiServer) :=
  let '(st', out) := Reconcile env r req {| iw := {| wq := rest; api := s |}; script := sc; ilog := [] |} in
  ({| wq := match out_err out with Some _ => Add (wq (iw st')) req | None => wq (iw st') end;
      api := api (iw st') |}, ilog st').

(** The other actors write clusters and PGAdmins; they do not edit the
    dependents (no handler watches those, [dependent_edit_missed]). *)
Definition otherWrite (o : option Change) : Prop :=
  match o with Some (EditDependent _) => False | _ => True end.

(** A write of a cluster. *)
Definition clusterWrite (ch : Change) : Prop :=
  match ch with ApplyCluster _ | DeleteCluster _ => True | _ => False end.

(** ** Calls of the interleaved client *)

Lemma crun_iworld c st : crun c st = onApi (run_call c) (interfere st).
Proof. by destruct c. Qed.

(** A read on a server without faults changes nothing. *)
Lemma read_healthy c s : readCall c -> healthy s -> run_call c s = s.
Proof.
  intros Hc Hh. destruct c; try done; cbn [run_call]; simpl; rewrite request_healthy by done;
    simpl; [unfold get_pgadmin|unfold get_cluster| |]; try destruct (_ !! _); done.
Qed.

Lemma run_call_healthy c s : healthy s -> healthy (run_call c s).
Proof.
  unfold healthy. intros Hh. pose proof (faults_le_preserved 0 c s) as H. cbv beta in H.
  rewrite Hh in H. simpl in H. destruct (faults (run_call c s)); [done|simpl in H; lia].
Qed.

Lemma applyChange_faults ch s : faults (fst (applyChange ch s)) = faults s.
Proof. destruct ch; simpl; repeat case_match; done. Qed.

(** On a server without faults the handlers only read. *)
Lemma changeStep_api ch q s :
  healthy s -> api (changeStep ch {| wq := q; api := s |}) = fst (applyChange ch s).
Proof.
  intros Hh. unfold changeStep. simpl.
  pose proof (applyChange_faults ch s) as Hf.
  destruct (applyChange ch s) as [s' [ev|]]; simpl in *; [|done].
  assert (Hh' : healthy s') by (unfold healthy in *; congruence).
  unfold deliver. destruct (SetupWithManager_state ev q s') as [Hs|[ns Hs]];
    destruct (SetupWithManager ev q s') as [s'' q'] eqn:E; simpl in *; subst; [done|].
  exact (read_healthy (CListPGAdmins ns) s' I Hh').
Qed.

(** The run keeps the server without faults and well formed, and the
    writes to come are writes of clusters. *)
Definition good (st : IWorld) : Prop :=
  healthy (api (iw st)) /\ wf (api (iw st)) /\ Forall otherWrite (script st).

Lemma interfere_good st : good st -> good (interfere st).
Proof.
  intros (Hh & Hwf & Hsc). unfold interfere.
  destruct (script st) as [|[ch|] rest] eqn:E.
  - unfold good. rewrite E. by split_and!.
  - apply Forall_cons in Hsc as [_ Hsc].
    destruct (iw st) as [q s]. simpl in *.
    destruct (applyChange_sane ch s Hwf) as [Hwf' Hf].
    unfold good. simpl. rewrite changeStep_api by done.
    split_and!; [unfold healthy in *; congruence|done|done].
  - apply Forall_cons in Hsc as [_ Hsc]. by split_and!.
Qed.

Lemma crun_good c st : good st -> good (crun c st).
Proof.
  intros Hg. rewrite crun_iworld. destruct (interfere_good st Hg) as (Hh & Hwf & Hsc).
  split_and!; [by apply run_call_healthy|by apply wf_preserved|done].
Qed.

(** ** Calls of the interleaved client on a server without faults *)

Lemma otherWrite_objects ch s :
  otherWrite (Some ch) -> objects (fst (applyChange ch s)) = objects s.
Proof. destruct ch; intros Hc; try contradiction; simpl; repeat case_match; done. Qed.

Lemma clusterWrite_pgadmins ch s :
  clusterWrite ch -> pgadmins (fst (applyChange ch s)) = pgadmins s.
Proof. destruct ch; intros Hc; try contradiction; simpl; repeat case_match; done. Qed.

Lemma interfere_objects st :
  good st -> objects (api (iw (interfere st))) = objects (api (iw st)).
Proof.
  intros (Hh & _ & Hsc). unfold interfere.
  destruct (script st) as [|[ch|] rest]; [done| |done].
  apply Forall_cons in Hsc as [Hcw _]. destruct (iw st) as [q s]. cbn [iw].
  rewrite changeStep_api by done. by apply otherWrite_objects.
Qed.

(** The handlers never take a request off the queue. *)
Lemma changeStep_queue x ch q s :
  healthy s -> wf s -> otherWrite (Some ch) -> x ∈ q -> x ∈ wq (changeStep ch {| wq := q; api := s |}).
Proof.
  intros Hh Hwf Hcw Hx. pose proof (proj1 (applyChange_sane ch s Hwf)) as Hwf'.
  assert (Hh' : healthy (fst (applyChange ch s))) by (unfold healthy in *; by rewrite applyChange_faults).
  unfold changeStep. destruct ch as [c|kc|p|kp|o]; try done; cbn [applyChange api wq] in *.
  - rewrite deliver_cluster. apply elem_of_handle; [done|done|by left].
  - destruct (clusters s !! kc); [|done]. rewrite deliver_cluster.
    apply elem_of_handle; [done|done|by left].
  - apply elem_of_Add. by left.
  - destruct (pgadmins s !! kp); [|done]. apply elem_of_Add. by left.
Qed.

Lemma onApi_same f st : f (api (iw st)) = api (iw st) -> onApi f st = st.
Proof. destruct st as [[q s] sc l]. unfold onApi. cbn. by intros ->. Qed.

(** The [Get] of a pass reads the state the next write left. *)
Lemma Get_I k st st1 x :
  good st -> Get k st = (st1, x) ->
  st1 = interfere st /\ Get k (api (iw (interfere st))) = (api (iw (interfere st)), x).
Proof.
  intros Hg HG. destruct (interfere_good st Hg) as (Hh & _ & _).
  pose proof (read_healthy (CGet k) _ I Hh) as E. cbn [run_call] in E.
  change (Get k st) with (lift (Get k) st) in HG. unfold lift in HG. cbv zeta in HG.
  injection HG as <- Hx. split; [by apply onApi_same|].
  apply injective_projections; [exact E|exact Hx].
Qed.

(** What the calls of one server group return: they read the state the
    next write left. *)
Lemma clustersForServerGroup_I p sg st :
  good st -> clustersForServerGroup p sg st = (interfere st, Ok (resolveGroup (api (iw (interfere st))) p sg)).
Proof.
  intros Hg. destruct (interfere_good st Hg) as (Hh & _ & _).
  pose proof (clustersForServerGroup_healthy _ p sg Hh) as H. revert H.
  unfold clustersForServerGroup. destruct (String.eqb _ "").
  - intros H. change (ListClusters ?a ?b st) with (lift (ListClusters a b) st).
    unfold lift. cbv zeta. rewrite onApi_same by (by rewrite H). by rewrite H.
  - change (GetCluster ?a st) with (lift (GetCluster a) st). unfold lift. cbv zeta.
    destruct (GetCluster _ (api (iw (interfere st)))) as [s1 [c|e]] eqn:E.
    + simpl. intros [= -> <-]. rewrite onApi_same; [done|exact (f_equal fst E)].
    + simpl. destruct (IsNotFound e); [|discriminate]. intros [= -> <-].
      rewrite onApi_same; [done|exact (f_equal fst E)].
Qed.

(** One apply of the pass: the next write, then the server-side apply. *)
Lemma applyIntent_I owner p intent st :
  good st -> ownerReferences (obj_meta intent) = [] ->
  namespace (obj_meta intent) = namespace (pa_meta p) ->
  applyIntent owner p intent st = (crun (CApply owner (owned p intent)) st, Ok (owned p intent)).
Proof.
  intros Hg Hr Hns. destruct (interfere_good st Hg) as (Hh & _ & _).
  unfold applyIntent. rewrite setControllerReference_intent by done.
  assert (Hs : snd (PatchApply owner (owned p intent) st) = Ok tt).
  { change (snd (request (apply_object (owned p intent)) (api (iw (interfere st)))) = Ok tt).
    rewrite request_healthy by done. apply apply_object_result. }
  fold (owned p intent). unfold st_bind. cbn [crun].
  destruct (PatchApply owner (owned p intent) st) as [st' res]. simpl in Hs. by subst res.
Qed.

(** ** The other PGAdmins *)

(** Every write of the log met a state where the watches cover it. *)
Definition logWatched (l : list (Change * ApiServer)) : Prop := Forall (fun e => watched e.1 e.2) l.

(** Every PGAdmin but the one under [k] is queued or fresh. *)
Definition othersFresh (env : Env) (k : NamespacedName) (w : World) : Prop :=
  levelTriggered env {| wq := {| req_namespacedName := k |} :: wq w; api := api w |}.

Lemma levelTriggered_mono env w1 w2 :
  api w1 = api w2 -> (forall x, x ∈ wq w1 -> x ∈ wq w2) ->
  levelTriggered env w1 -> levelTriggered env w2.
Proof.
  intros Ha Hq Hinv k p Hp. rewrite <-Ha in Hp |- *.
  destruct (Hinv k p Hp) as [Hin|Hfr]; [left; by apply Hq|by right].
Qed.

(** The handlers add to the queue and read the state only. *)
Lemma deliver_cons ev req q s :
  api (deliver ev (req :: q) s) = api (deliver ev q s) /\
  (forall x, x ∈ wq (deliver ev (req :: q) s) -> x = req \/ x ∈ wq (deliver ev q s)).
Proof.
  destruct ev as [[p|e|o]|]; cbn [deliver SetupWithManager].
  - split; [done|]. intros x. cbn [wq]. rewrite !elem_of_Add, elem_of_cons. tauto.
  - rewrite !watchPostgresClusters_handle. unfold handle.
    destruct (findPGAdminsForPostgresCluster (eventObject e) s) as [s' l]. cbv beta iota zeta.
    split; [done|].
    intros x. cbn [wq]. rewrite !elem_of_fold_Add, elem_of_cons. tauto.
  - split; [done|]. intros x. cbn [wq]. rewrite elem_of_cons. tauto.
  - split; [done|]. intros x. cbn [wq]. rewrite elem_of_cons. tauto.
Qed.

Lemma othersFresh_change env k ch q s :
  healthy s -> wf s -> watched ch s -> othersFresh env k {| wq := q; api := s |} ->
  othersFresh env k (changeStep ch {| wq := q; api := s |}).
Proof.
  intros Hh Hwf Hw Hinv.
  pose proof (levelTriggered_change env ch {| wq := {| req_namespacedName := k |} :: q; api := s |}
                Hwf Hh Hw Hinv) as H.
  revert H. unfold changeStep. cbn [api wq]. destruct (applyChange ch s) as [s' ev].
  destruct (deliver_cons ev {| req_namespacedName := k |} q s') as [Ha Hq].
  apply levelTriggered_mono; [done|]. intros x Hx. cbn [wq]. rewrite elem_of_cons. by apply Hq.
Qed.

Lemma othersFresh_apply env k owner o q s :
  healthy s -> wf s -> (ObjectKey o).2 = dependentKey k ->
  othersFresh env k {| wq := q; api := s |} ->
  othersFresh env k {| wq := q; api := run_call (CApply owner o) s |}.
Proof.
  intros Hh Hwf Ho Hinv k0 p0. cbn [run_call api wq]. simpl. rewrite request_healthy by done.
  rewrite apply_object_pgadmins. intros Hp0.
  destruct (Hinv k0 p0 Hp0) as [Hin|Hfr]; [by left|].
  destruct (decide (k0 = k)) as [->|Hne]; [left; by left|right].
  apply (fresh_frame env s); [apply apply_object_clusters| |exact Hfr].
  intros x Hx. apply apply_object_other. intros ->. apply Hne, dependentKey_inj.
  rewrite <-Ho, Hx. f_equal. symmetry. exact (proj1 Hwf _ _ Hp0).
Qed.

Lemma othersFresh_status env k owner b a q s :
  healthy s -> ObjectKeyFromMeta (pa_meta a) = k ->
  othersFresh env k {| wq := q; api := s |} ->
  othersFresh env k {| wq := q; api := run_call (CStatusPatch owner b a) s |}.
Proof.
  intros Hh Ha Hinv k0 p0. cbn [run_call api wq]. simpl. rewrite request_healthy by done.
  destruct (decide (k0 = k)) as [->|Hne]; [intros _; left; by left|].
  rewrite patch_status_pgadmins_other by congruence. intros Hp0.
  destruct (Hinv k0 p0 Hp0) as [Hin|Hfr]; [by left|right].
  apply (fresh_frame env s); [apply patch_status_clusters| |exact Hfr].
  intros x _. by rewrite patch_status_objects.
Qed.

(** Under an interleaved pass on [k], the others stay queued or fresh. *)
Definition othersInv (env : Env) (k : NamespacedName) (st : IWorld) : Prop :=
  good st /\ (logWatched (ilog st) -> othersFresh env k (iw st)).

Lemma interfere_others env k st : othersInv env k st -> othersInv env k (interfere st).
Proof.
  intros [Hg Hinv]. split; [by apply interfere_good|].
  destruct Hg as (Hh & Hwf & _). unfold interfere.
  destruct (script st) as [|[ch|] rest]; [done| |done]. cbn [ilog iw].
  intros [Hw Hl]%Forall_cons. destruct (iw st) as [q s].
  apply othersFresh_change; [done|done|done|by apply Hinv].
Qed.

Lemma onApi_others env k f st :
  good (onApi f st) ->
  (othersFresh env k (iw st) -> othersFresh env k {| wq := wq (iw st); api := f (api (iw st)) |}) ->
  othersInv env k st -> othersInv env k (onApi f st).
Proof. intros Hg Hf [_ Hinv]. split; [done|]. intros Hl. by apply Hf, Hinv. Qed.

Lemma Reconcile_others env r k st :
  othersInv env k st -> othersInv env k (fst (Reconcile env r {| req_namespacedName := k |} st)).
Proof.
  intros Hst. apply (Reconcile_frame_fetched (othersInv env k) k).
  - intros c st' Hc H'. rewrite crun_iworld.
    pose proof (interfere_others env k st' H') as H1.
    apply onApi_others; [rewrite <-crun_iworld; by apply crun_good, H'|..|done].
    rewrite read_healthy by (done || apply H1). by destruct (iw (interfere st')).
  - intros owner o st' Ho H'. rewrite crun_iworld.
    pose proof (interfere_others env k st' H') as H1. destruct (proj1 H1) as (Hh & Hwf & _).
    apply onApi_others; [rewrite <-crun_iworld; by apply crun_good, H'| |exact H1].
    destruct (iw (interfere st')). by apply othersFresh_apply.
  - intros owner b a st' Ha H'. rewrite crun_iworld.
    pose proof (interfere_others env k st' H') as H1. destruct (proj1 H1) as (Hh & Hwf & _).
    apply onApi_others; [rewrite <-crun_iworld; by apply crun_good, H'| |exact H1].
    destruct (iw (interfere st')). by apply othersFresh_status.
  - intros st1 p HG. destruct (Get_I k st _ _ (proj1 Hst) HG) as [_ HG'].
    destruct (interfere_good st (proj1 Hst)) as (_ & Hwf & _).
    destruct (Get_stored k _ _ _ HG') as [Hk _]. exact (proj1 Hwf _ _ Hk).
  - done.
Qed.

(** ** The PGAdmin of the request *)

(** Two servers on which the groups of [p] select the same clusters, up to
    order. *)
Definition pEquiv (p : PGAdmin) (s1 s2 : ApiServer) : Prop :=
  forall sg, sg ∈ pa_serverGroups (pa_spec p) -> resolveGroup s1 p sg ≡ₚ resolveGroup s2 p sg.

Lemma pEquiv_trans p s1 s2 s3 : pEquiv p s1 s2 -> pEquiv p s2 s3 -> pEquiv p s1 s3.
Proof. intros H12 H23 sg Hsg. by etrans; [apply H12|apply H23]. Qed.

Lemma pgadminSelects_sameIdentity p p' c :
  sameIdentity p p' -> pgadminSelects p c = pgadminSelects p' c.
Proof. intros (Hns & _ & _ & _ & Hspec). unfold pgadminSelects. by rewrite Hns, Hspec. Qed.

(** A cluster write either queues the PGAdmin stored under [k], or leaves
    what its groups select unchanged. *)
Lemma clusterWrite_concerns k p p' ch q s :
  healthy s -> wf s -> clusterWrite ch -> watched ch s ->
  pgadmins s !! k = Some p' -> sameIdentity p p' ->
  {| req_namespacedName := k |} ∈ wq (changeStep ch {| wq := q; api := s |}) \/
  pEquiv p (api (changeStep ch {| wq := q; api := s |})) s.
Proof.
  intros Hh Hwf Hcw Hw Hk Hid. rewrite changeStep_api by done.
  pose proof (proj1 Hwf _ _ Hk) as Hkey. cbv beta in Hkey.
  pose proof (proj1 (applyChange_sane ch s Hwf)) as Hwf'.
  assert (Hh' : healthy (fst (applyChange ch s))) by (unfold healthy in *; by rewrite applyChange_faults).
  assert (Hreq : requestFor p' = {| req_namespacedName := k |}) by (unfold requestFor; by rewrite Hkey).
  unfold changeStep. destruct ch as [c|kc| | |]; try done; cbn [applyChange api wq] in *.
  - rewrite deliver_cluster. replace (eventObject _) with c by (by destruct (clusters s !! _)).
    destruct (pgadminSelects p' c) eqn:Hsel.
    + left. apply elem_of_handle; [done|done|]. right. exists p'. by rewrite Hkey.
    + right. intros sg Hsg. apply (resolveGroup_perm _ _ _ _ (ObjectKeyFromMeta (pc_meta c)));
        [intros k' Hk'; simpl; by rewrite lookup_insert_ne|].
      intros c' Hc'. simpl in Hc'. rewrite lookup_insert_eq in Hc'.
      destruct Hc' as [Hc'|[= <-]]; (split; [|apply notSelects_group; [|done]]).
      * exact (proj1 (proj2 Hwf) _ _ Hc').
      * rewrite (pgadminSelects_sameIdentity p p') by done.
        destruct (pgadminSelects p' c') eqn:E; [|done].
        rewrite <-Hkey in Hk. by rewrite (Hw c' p' Hc' Hk E) in Hsel.
      * done.
      * by rewrite (pgadminSelects_sameIdentity p p').
  - destruct (clusters s !! kc) as [old|] eqn:E; [|right; intros sg _; reflexivity].
    rewrite deliver_cluster. cbn [eventObject].
    destruct (pgadminSelects p' old) eqn:Hsel.
    + left. apply elem_of_handle; [done|done|]. right. exists p'. by rewrite Hkey.
    + right. intros sg Hsg. apply (resolveGroup_perm _ _ _ _ kc);
        [intros k' Hk'; simpl; by rewrite lookup_delete_ne|].
      intros c' Hc'. simpl in Hc'. rewrite lookup_delete_eq, E in Hc'.
      destruct Hc' as [[= <-]|?]; [|done].
      split; [exact (proj1 (proj2 Hwf) _ _ E)|apply notSelects_group; [|done]].
      by rewrite (pgadminSelects_sameIdentity p p').
Qed.

(** Any write of the other actors either queues the PGAdmin stored under
    [k], or leaves it stored and what its groups select unchanged: a
    write of the PGAdmin under [k] queues it, a write of another PGAdmin
    touches neither. *)
Lemma changeStep_concerns k p p' ch q s :
  healthy s -> wf s -> otherWrite (Some ch) -> watched ch s ->
  pgadmins s !! k = Some p' -> sameIdentity p p' ->
  {| req_namespacedName := k |} ∈ wq (changeStep ch {| wq := q; api := s |}) \/
  (pgadmins (api (changeStep ch {| wq := q; api := s |})) !! k = Some p' /\
   pEquiv p (api (changeStep ch {| wq := q; api := s |})) s).
Proof.
  intros Hh Hwf Hcw Hw Hk Hid. destruct ch as [c|kc|p0|kp|o]; try done.
  1,2: match goal with |- context [changeStep ?ch _] =>
         destruct (clusterWrite_concerns k p p' ch q s Hh Hwf I Hw Hk Hid) as [Hin|Heq]; [by left|] end;
    right; split; [|exact Heq]; rewrite changeStep_api by done; by rewrite clusterWrite_pgadmins.
  all: unfold changeStep; cbn [applyChange api wq deliver SetupWithManager] in *.
  - destruct (decide (ObjectKeyFromMeta (pa_meta p0) = k)) as [<-|Hne];
      [left; apply elem_of_Add; by right|].
    right. split; [simpl; by rewrite lookup_insert_ne|intros sg _; reflexivity].
  - destruct (pgadmins s !! kp) as [old|] eqn:E; [|right; split; [done|intros sg _; reflexivity]].
    destruct (decide (kp = k)) as [->|Hne].
    + left. apply elem_of_Add. right. rewrite Hk in E. injection E as <-.
      unfold requestFor. by rewrite (proj1 Hwf _ _ Hk).
    + right. split; [simpl; by rewrite lookup_delete_ne|intros sg _; reflexivity].
Qed.

(** [st] is a later state of the run from [st0]: still good, every queued
    request still queued, the log extended. *)
Definition grows (st0 st : IWorld) : Prop :=
  good st /\ (forall x, x ∈ wq (iw st0) -> x ∈ wq (iw st)) /\ ilog st0 `suffix_of` ilog st.

Lemma interfere_grows st0 st : grows st0 st -> grows st0 (interfere st).
Proof.
  intros (Hg & Hq & Hl). split; [by apply interfere_good|].
  destruct Hg as (Hh & Hwf & Hsc). unfold interfere.
  destruct (script st) as [|[ch|] rest]; [done| |done].
  apply Forall_cons in Hsc as [Hcw _]. destruct (iw st) as [q s]. cbn [iw ilog] in *.
  split; [intros x Hx; by apply changeStep_queue, Hq|by apply suffix_cons_r].
Qed.

Lemma crun_grows st0 c st : grows st0 st -> grows st0 (crun c st).
Proof.
  intros H. split; [apply crun_good, H|]. rewrite crun_iworld.
  destruct (interfere_grows st0 st H) as (_ & Hq & Hl). by split.
Qed.

Lemma grows_refl st : good st -> grows st st.
Proof. intros Hg. by split_and!. Qed.

Lemma logWatched_suffix l1 l2 : l1 `suffix_of` l2 -> logWatched l2 -> logWatched l1.
Proof. intros [l ->]. unfold logWatched. rewrite Forall_app. tauto. Qed.

(** While the logged writes are watched, the PGAdmin [p] of the pass is
    queued, or it is still stored under [k] and its groups select what
    they select on [s0]. *)
Definition Kinv (k : NamespacedName) (p : PGAdmin) (s0 : ApiServer) (st : IWorld) : Prop :=
  good st /\
  (logWatched (ilog st) -> {| req_namespacedName := k |} ∈ wq (iw st) \/
                           (storedAs k p (api (iw st)) /\ pEquiv p (api (iw st)) s0)).

Lemma interfere_Kinv k p s0 st : Kinv k p s0 st -> Kinv k p s0 (interfere st).
Proof.
  intros (Hg & Hinv). split; [by apply interfere_good|].
  destruct Hg as (Hh & Hwf & Hsc). unfold interfere.
  destruct (script st) as [|[ch|] rest]; [done| |done].
  apply Forall_cons in Hsc as [Hcw _].
  destruct (iw st) as [q s]. cbn [iw ilog api wq] in *.
  intros [Hw Hl]%Forall_cons. cbn [fst snd] in Hw.
  destruct (Hinv Hl) as [Hin|((p' & Hk & Hid) & Heq)]; [left; by apply changeStep_queue|].
  destruct (changeStep_concerns k p p' ch q s Hh Hwf Hcw Hw Hk Hid) as [Hin|[Hk' Heq']]; [by left|].
  right. split; [by exists p'|by eapply pEquiv_trans].
Qed.

Lemma crun_Kinv k p s0 c st : Kinv k p s0 st -> Kinv k p s0 (crun c st).
Proof.
  intros H. split; [apply crun_good, H|]. rewrite crun_iworld.
  destruct (interfere_Kinv k p s0 st H) as [_ Hinv].
  intros Hl. destruct (Hinv Hl) as [Hin|[Hst Heq]]; [by left|right].
  split; [by apply storedAs_preserved|]. intros sg Hsg. etrans; [|exact (Heq sg Hsg)].
  unfold resolveGroup. cbn [onApi iw api].
  by rewrite (clusters_preserved _ c _ eq_refl).
Qed.

(** What [Kinv] says at a later state whose log is watched. *)
Lemma Kinv_later k p s0 st st' :
  Kinv k p s0 st -> grows st st' -> logWatched (ilog st') ->
  {| req_namespacedName := k |} ∈ wq (iw st') \/ pEquiv p (api (iw st)) s0.
Proof.
  intros (_ & Hinv) (_ & Hq & Hl) Hw.
  destruct (Hinv (logWatched_suffix _ _ Hl Hw)) as [Hin|[_ Heq]]; [left; by apply Hq|by right].
Qed.

Lemma resEquiv_insert g l1 l2 r1 r2 :
  l1 ≡ₚ l2 -> resEquiv r1 r2 -> resEquiv (<[g := l1]> r1) (<[g := l2]> r2).
Proof.
  intros Hl Hr g'. destruct (decide (g' = g)) as [->|Hne].
  - rewrite !lookup_insert_eq. by constructor.
  - rewrite !lookup_insert_ne by done. apply Hr.
Qed.

(** The resolution of an interleaved pass: each group is read after the
    next write.  While the log is watched, the request is queued or the
    resolution lists, up to order, the clusters it lists on [s0]. *)
Lemma groups_I k p s0 groups acc st :
  (forall sg, sg ∈ groups -> sg ∈ pa_serverGroups (pa_spec p)) -> Kinv k p s0 st ->
  exists res, snd (getClustersForGroups p groups acc st) = Ok res /\
    objects (api (iw (fst (getClustersForGroups p groups acc st)))) = objects (api (iw st)) /\
    (logWatched (ilog (fst (getClustersForGroups p groups acc st))) ->
     {| req_namespacedName := k |} ∈ wq (iw (fst (getClustersForGroups p groups acc st))) \/
     resEquiv res (resolution s0 p groups acc)).
Proof.
  revert acc st. induction groups as [|sg rest IH]; intros acc st Hsub HK.
  { exists acc. split_and!; [done|done|]. intros _. by right. }
  cbn [getClustersForGroups]. rewrite (st_bind_run_ok _ _ _ _ _ (clustersForServerGroup_I p sg st (proj1 HK))).
  pose proof (interfere_Kinv _ _ _ _ HK) as HK1.
  set (st1 := interfere st) in *.
  destruct (IH (<[sg_name sg := resolveGroup (api (iw st1)) p sg]> acc) st1
              ltac:(intros; apply Hsub; by right) HK1) as (res & Hres & Hobj & Hw).
  exists res. split_and!; [done|by rewrite Hobj; apply interfere_objects, HK|].
  intros Hl. destruct (Hw Hl) as [Hin|Heq]; [by left|].
  pose proof (getClustersForGroups_pres (grows st1) (crun_grows st1) p rest
                (<[sg_name sg := resolveGroup (api (iw st1)) p sg]> acc) st1
                (grows_refl _ (proj1 HK1))) as Hgr.
  destruct (Kinv_later k p s0 _ _ HK1 Hgr Hl) as [Hin|Hp]; [by left|right].
  etrans; [exact Heq|].
  change (resolution s0 p (sg :: rest) acc)
    with (resolution s0 p rest (<[sg_name sg := resolveGroup s0 p sg]> acc)).
  apply resolution_equiv; [intros; reflexivity|].
  apply resEquiv_insert; [apply Hp, Hsub; by left|reflexivity].
Qed.

Lemma objects_apply o s s' :
  objects s' = objects s -> objects (fst (apply_object o s')) = objects (fst (apply_object o s)).
Proof. intros H. unfold apply_object. rewrite H. repeat case_match; simpl; congruence. Qed.

Lemma crun_apply_objects owner o st :
  good st -> objects (api (iw (crun (CApply owner o) st))) = objects (fst (apply_object o (api (iw st)))).
Proof.
  intros Hg. destruct (interfere_good st Hg) as (Hh & _ & _). rewrite crun_iworld.
  change (objects (fst (request (apply_object o) (api (iw (interfere st))))) =
          objects (fst (apply_object o (api (iw st))))).
  rewrite request_healthy by done.
  apply objects_apply, interfere_objects, Hg.
Qed.

(** The pipeline of an interleaved pass whose image resolves succeeds; it
    leaves the objects the four applies for some resolution [res] leave,
    and while the log is watched the request is queued or [res] lists, up
    to order, the clusters [p] resolves to on [s0]. *)
Lemma pipeline_I env r k p s0 st :
  config.StandalonePGAdminContainerImage env p <> "" -> Kinv k p s0 st ->
  exists res, snd (pipeline env r p st) = Ok tt /\
    objects (api (iw (fst (pipeline env r p st)))) =
      objects (applyAll (intentsWith env p res) (api (iw st))) /\
    (logWatched (ilog (fst (pipeline env r p st))) ->
     {| req_namespacedName := k |} ∈ wq (iw (fst (pipeline env r p st))) \/
     resEquiv res (resolved s0 p)).
Proof.
  intros Himg HK. unfold pipeline, reconcilePGAdminSecret, reconcilePGAdminConfigMap,
    reconcilePGAdminDataVolume, reconcilePGAdminStatefulSet, getClustersForPGAdmin.
  apply String.eqb_neq in Himg. rewrite Himg.
  rewrite (st_bind_run_ok _ _ _ _ _ (applyIntent_I _ p (pgadminSecret p) st (proj1 HK) eq_refl eq_refl)).
  pose proof (crun_Kinv k p s0 (CApply (Owner r) (owned p (pgadminSecret p))) st HK) as HK1.
  set (st1 := crun (CApply (Owner r) (owned p (pgadminSecret p))) st) in *.
  destruct (groups_I k p s0 (pa_serverGroups (pa_spec p)) ∅ st1 (fun _ H => H) HK1)
    as (res & Hres & Hobj & Hw).
  pose proof (getClustersForGroups_pres (Kinv k p s0) (crun_Kinv k p s0) p
                (pa_serverGroups (pa_spec p)) ∅ st1 HK1) as HKg.
  rewrite (st_bind_run_ok _ _ _ _ res (eq_trans (surjective_pairing _) (f_equal _ Hres))).
  set (stg := fst (getClustersForGroups p (pa_serverGroups (pa_spec p)) ∅ st1)) in *.
  pose proof (proj1 HKg) as Hgg.
  rewrite (st_bind_run_ok _ _ _ _ _ (applyIntent_I _ p (pgadminConfigMap p res) stg Hgg eq_refl eq_refl)).
  set (st2 := crun (CApply (Owner r) (owned p (pgadminConfigMap p res))) stg).
  pose proof (crun_good (CApply (Owner r) (owned p (pgadminConfigMap p res))) stg Hgg) as Hg2.
  rewrite (st_bind_run_ok _ _ _ _ _ (applyIntent_I _ p (pgadminDataVolume p) st2 Hg2 eq_refl eq_refl)).
  set (st3 := crun (CApply (Owner r) (owned p (pgadminDataVolume p))) st2).
  pose proof (crun_good (CApply (Owner r) (owned p (pgadminDataVolume p))) st2 Hg2) as Hg3.
  rewrite (st_bind_run_ok _ _ _ _ _ (applyIntent_I _ p (pgadminStatefulSet p _ _ _) st3 Hg3 eq_refl eq_refl)).
  exists res. cbn [st_ret fst snd]. split_and!; [done| |].
  - unfold applyAll, intentsWith. cbn [fold_left].
    etrans; [apply (crun_apply_objects _ _ st3 Hg3)|]. apply objects_apply.
    etrans; [apply (crun_apply_objects _ _ st2 Hg2)|]. apply objects_apply.
    etrans; [apply (crun_apply_objects _ _ stg Hgg)|]. apply objects_apply.
    rewrite Hobj. apply (crun_apply_objects _ _ st (proj1 HK)).
  - intros Hl. assert (Hgr : grows stg (crun (CApply (Owner r) (owned p (pgadminStatefulSet p
      (config.StandalonePGAdminContainerImage env p) (owned p (pgadminConfigMap p res))
      (owned p (pgadminDataVolume p))))) st3))
      by (by repeat apply crun_grows; apply grows_refl).
    destruct (Hw (logWatched_suffix _ _ (proj2 (proj2 Hgr)) Hl)) as [Hin|Heq];
      [left; by apply Hgr|by right].
Qed.

Lemma intentsWith_sameIdentity env p p' res :
  sameIdentity p p' -> intentsWith env p res = intentsWith env p' res.
Proof.
  intros (Hns & Hnm & Huid & _ & Hspec).
  unfold intentsWith, owned, ownerReference, pgadminSecret, pgadminConfigMap, pgadminDataVolume,
    pgadminStatefulSet, dependentMeta, config.StandalonePGAdminContainerImage.
  by rewrite Hns, Hnm, Huid, Hspec.
Qed.

Lemma intentsWith_NoDup env p res : NoDup (ObjectKey <$> intentsWith env p res).
Proof. exact (intents_keys env (scenarios.serverWith [] []) p). Qed.

Lemma resolved_sameIdentity s p p' : sameIdentity p p' -> resolved s p' = resolved s p.
Proof.
  intros (Hns & _ & _ & _ & Hspec). unfold resolved. rewrite <-Hspec.
  apply resolution_clusters; [done|by rewrite Hns].
Qed.

(** The deferred status write of an interleaved pass changes no object. *)
Lemma deferStatusPatch_objects_I r before p err st :
  good st -> objects (api (iw (fst (deferStatusPatch r before p err st)))) = objects (api (iw st)).
Proof.
  intros Hg.
  refine (proj2 (deferStatusPatch_frame (fun st' => good st' /\ objects (api (iw st')) = objects (api (iw st)))
            (ObjectKeyFromMeta (pa_meta p)) _ r before p err st eq_refl (conj Hg eq_refl))).
  intros owner b a st' _ [Hg' Ho]. split; [by apply crun_good|].
  destruct (interfere_good st' Hg') as (Hh & _ & _). rewrite crun_iworld, <-Ho, <-(interfere_objects st' Hg').
  change (objects (fst (request (patch_status b a) (api (iw (interfere st'))))) =
          objects (api (iw (interfere st')))).
  rewrite request_healthy by done. apply patch_status_objects.
Qed.

(** An interleaved pass on [k] that returns [nil] leaves the PGAdmin under
    [k] queued or fresh, when the writes it met are watched. *)
Lemma Reconcile_self env r k st st' out p' :
  good st -> Reconcile env r {| req_namespacedName := k |} st = (st', out) ->
  out_err out = None -> logWatched (ilog st') -> pgadmins (api (iw st')) !! k = Some p' ->
  {| req_namespacedName := k |} ∈ wq (iw st') \/ fresh env (api (iw st')) p'.
Proof.
  intros Hg. pose proof (interfere_good st Hg) as Hg1. rewrite Reconcile_unfold. cbn [req_namespacedName].
  destruct (Get k st) as [st1 [fetched|e]] eqn:HG; destruct (Get_I k st _ _ Hg HG) as [-> HG'].
  2: { intros [= <- <-] Herr _ Hp. simpl in Herr. destruct (IsNotFound e) eqn:Hnf; [|discriminate].
       assert (Ht : transient (api (iw (interfere st)))) by (unfold transient; by rewrite (proj1 Hg1)).
       by rewrite (Get_notFound k _ _ e Ht HG' Hnf) in Hp. }
  destruct (Get_stored k _ _ _ HG') as [Hk _].
  assert (HK1 : Kinv k (Default fetched) (api (iw (interfere st))) (interfere st)).
  { split; [done|intros _; right; split; [by exists fetched|intros sg _; reflexivity]]. }
  destruct (pipeline env r (Default fetched) (interfere st)) as [st2 res] eqn:HP. cbv beta iota zeta.
  destruct (deferStatusPatch r fetched (finalPGAdmin fetched (err_of res)) (err_of res) st2)
    as [st3 [x dlog]] eqn:HD.
  intros [= <- <-] Herr Hl Hp. simpl in Herr. destruct res as [[]|e]; [|discriminate].
  cbn [err_of] in HD.
  destruct (pipeline_I env r k (Default fetched) _ _ (pipeline_ok_image env r _ _ _ HP) HK1)
    as (res & _ & Hobj & Hw).
  rewrite HP in Hobj, Hw. cbn [fst] in Hobj, Hw.
  pose proof (pipeline_pres _ (crun_Kinv k (Default fetched) _) env r (Default fetched) _ HK1) as HK2.
  rewrite HP in HK2. cbn [fst] in HK2.
  pose proof (deferStatusPatch_pres _ (crun_Kinv k (Default fetched) _) r fetched
                (finalPGAdmin fetched None) None st2 HK2) as HK3.
  pose proof (deferStatusPatch_pres _ (crun_grows st2) r fetched (finalPGAdmin fetched None) None st2
                (grows_refl _ (proj1 HK2))) as Hgr.
  pose proof (deferStatusPatch_objects_I r fetched (finalPGAdmin fetched None) None st2 (proj1 HK2)) as Hobj3.
  rewrite HD in HK3, Hgr, Hobj3. cbn [fst] in HK3, Hgr, Hobj3.
  destruct HK3 as [_ Hinv3].
  destruct (Hw (logWatched_suffix _ _ (proj2 (proj2 Hgr)) Hl)) as [Hin|Hres]; [left; by apply Hgr|].
  destruct (Hinv3 Hl) as [Hin|[(p'' & Hp'' & Hid) Heq]]; [by left|right].
  rewrite Hp in Hp''. injection Hp'' as <-.
  exists res. split.
  - rewrite (resolved_sameIdentity _ _ _ Hid). etrans; [exact Hres|].
    symmetry. apply resolution_equiv; [exact Heq|reflexivity].
  - rewrite <-(intentsWith_sameIdentity env _ _ res Hid).
    eapply Forall_impl; [apply applyAll_holds, intentsWith_NoDup|].
    intros o. apply holds_objects. by rewrite Hobj3, Hobj.
Qed.

(** The level-triggered invariant survives a worker step whose pass is
    interleaved with watched writes of clusters and PGAdmins: the pass saw
    every write up to its last read of what the write changed, and a write
    after that read queues the PGAdmin again. *)
Lemma workI_levelTriggered env r req rest s sc :
  wf s -> healthy s -> Forall otherWrite sc ->
  levelTriggered env {| wq := req :: rest; api := s |} ->
  logWatched (snd (workI env r req rest s sc)) ->
  levelTriggered env (fst (workI env r req rest s sc)).
Proof.
  destruct req as [k]. intros Hwf Hh Hsc Hinv. unfold workI.
  set (st0 := {| iw := {| wq := rest; api := s |}; script := sc; ilog := [] |}).
  assert (Hg : good st0) by by split_and!.
  destruct (Reconcile_others env r k st0 (conj Hg (fun _ => Hinv))) as [_ Ho].
  pose proof (Reconcile_self env r k st0) as Hself.
  destruct (Reconcile env r _ st0) as [st' out] eqn:HR. cbn [fst snd] in *.
  intros Hl k0 p0 Hp0. cbn [api wq] in *.
  destruct (decide (k0 = k)) as [->|Hne].
  - destruct (out_err out) eqn:He; [left; apply elem_of_Add; by right|].
    exact (Hself st' out p0 Hg eq_refl He Hl Hp0).
  - destruct (Ho Hl k0 p0 Hp0) as [Hin|Hfr]; [left|by right].
    apply elem_of_cons in Hin as [Heq|Hin]; [injection Heq; congruence|].
    destruct (out_err out); [apply elem_of_Add; by left|exact Hin].
Qed.

(** ** Runs of the manager with interleaved passes *)

(** A watched change, or a worker step whose pass meets watched writes of
    clusters and PGAdmins between its calls. *)
Inductive istep (env : Env) (r : PGAdminReconciler) : World -> World -> Prop :=
| is_change w ch : healthy (api w) -> watched ch (api w) -> istep env r w (changeStep ch w)
| is_work w req rest sc :
    wq w = req :: rest -> Forall otherWrite sc ->
    logWatched (snd (workI env r req rest (api w) sc)) ->
    istep env r w (fst (workI env r req rest (api w) sc)).

Lemma workI_good env r req rest s sc :
  healthy s -> wf s -> Forall otherWrite sc ->
  healthy (api (fst (workI env r req rest s sc))) /\ wf (api (fst (workI env r req rest s sc))).
Proof.
  intros Hh Hwf Hsc. unfold workI.
  set (st0 := {| iw := {| wq := rest; api := s |}; script := sc; ilog := [] |}).
  destruct (Reconcile_pres good crun_good env r req st0 (conj Hh (conj Hwf Hsc))) as (Hh' & Hwf' & _).
  destruct (Reconcile env r req st0) as [st' out]. by split.
Qed.

Lemma istep_inv env r w w' :
  istep env r w w' -> healthy (api w) -> wf (api w) -> levelTriggered env w ->
  healthy (api w') /\ wf (api w') /\ levelTriggered env w'.
Proof.
  intros [[q s] ch Hh Hw|[q s] req rest sc Hq Hsc Hl] Hh0 Hwf Hinv; cbn [api wq] in *.
  - split_and!; [unfold healthy; rewrite changeStep_api, applyChange_faults; done
                |rewrite changeStep_api by done; by apply applyChange_sane
                |by apply levelTriggered_change].
  - subst q. destruct (workI_good env r req rest s sc) as [Hh' Hwf']; [done|done|done|].
    split_and!; [done|done|by apply workI_levelTriggered].
Qed.

(** C28: along every run of the manager whose worker passes interleave
    with writes of other actors, the level-triggered invariant holds.  A
    run is made of changes and worker steps on a server without faults:
    before each call of a pass another actor may create, update or delete
    a cluster or a PGAdmin, the handlers of [SetupWithManager] running on
    each write.  If every change and every such write met a state where
    the watches cover it, then from a well-formed world where every stored
    PGAdmin is queued or fresh, every reachable world is well formed and
    every stored PGAdmin in it is queued or has its dependents stored as
    a pass on the current clusters builds them. *)
Theorem levelTriggered_interleaved env r w w' :
  rtc (istep env r) w w' -> healthy (api w) -> wf (api w) -> levelTriggered env w ->
  healthy (api w') /\ wf (api w') /\ levelTriggered env w'.
Proof.
  induction 1 as [w|w1 w2 w3 Hst _ IH]; intros Hh Hwf Hinv; [done|].
  destruct (istep_inv env r w1 w2 Hst Hh Hwf Hinv) as (Hh2 & Hwf2 & Hinv2). by apply IH.
Qed.

(** ** A run *)

Import scenarios.

(** A second PGAdmin of the namespace, with alpha's spec. *)
Definition gamma : PGAdmin :=
  {| pa_typeMeta := pa_typeMeta alpha; pa_meta := meta "ns" "gamma" 1 ∅;
     pa_spec := pa_spec alpha; pa_status := pa_status alpha |}.

(** alpha is queued; gamma is created after alpha's [Get]; alpha's pass
    resolves db1, db2 and the team selector, then, before it applies its
    config map, db2 is deleted. *)
Definition lateDelete : list (option Change) :=
  [None; Some (ApplyPGAdmin gamma); None; None; None; Some (DeleteCluster (keyOf db2))].

Definition alphaQueued : World := {| wq := [alphaRequest]; api := serverWith [alpha] [] |}.

Lemma alphaQueued_levelTriggered : levelTriggered env0 alphaQueued.
Proof.
  intros k p Hp. left.
  change (<[alphaKey := alpha]> (∅ : gmap NamespacedName PGAdmin) !! k = Some p) in Hp.
  apply lookup_insert_Some in Hp as [[<- _]|[_ Hp]]; [set_solver|by rewrite lookup_empty in Hp].
Qed.

(** After alpha's interleaved pass, db1 is deleted. *)
Definition afterLateDelete : World :=
  fst (workI env0 reconciler0 alphaRequest [] (serverWith [alpha] []) lateDelete).

Definition db1Deleted : World := changeStep (DeleteCluster (keyOf db1)) afterLateDelete.

(** The run from alphaQueued: the pass returns [nil] on a resolution that
    lists db2; the handler of the delete queued alpha again, and the
    handler of the create gamma; then db1 is deleted. *)
Lemma levelTriggered_interleaved_witness :
  rtc (istep env0 reconciler0) alphaQueued db1Deleted /\
  out_err (snd (Reconcile env0 reconciler0 alphaRequest
                  {| iw := {| wq := []; api := serverWith [alpha] [] |}; script := lateDelete; ilog := [] |})) = None /\
  wq afterLateDelete = [requestFor gamma; alphaRequest] /\
  levelTriggered env0 db1Deleted.
Proof.
  assert (Hr : rtc (istep env0 reconciler0) alphaQueued db1Deleted).
  { eapply rtc_l; [apply (is_work _ _ alphaQueued alphaRequest [] lateDelete);
                   [reflexivity|repeat constructor|vm_compute; repeat constructor]|].
    eapply rtc_l; [apply (is_change _ _ _ (DeleteCluster (keyOf db1))); [vm_compute; reflexivity|exact I]|].
    apply rtc_refl. }
  split_and!; [exact Hr|vm_compute; reflexivity|vm_compute; reflexivity|].
  exact (proj2 (proj2 (levelTriggered_interleaved env0 reconciler0 alphaQueued db1Deleted Hr
                         eq_refl ltac:(vm_decide) alphaQueued_levelTriggered))).
Defined.

End interleave.
